(** * Aurum.Gold blockchain: a shallow embedding of the ledger, the Merkle
      tree, the keystore, the wallet and the peer handshake.

    Conventions of the embedding.
    - A JavaScript [number] that carries an amount, a fee, a balance or a
      stake, and the draw of [Math.random], is a double-precision number of
      [Number.number]: the sums, differences, products and comparisons of
      the ledger are those of IEEE 754 with rounding to nearest.  Where a
      number is expected, an integer stands for the number nearest to it
      ([Number.of_Z]).
    - A JavaScript [number] that counts (a height, a sequence number, a
      timestamp in milliseconds, a port) is an integer of [Z]: such a number
      is an integer far below [2^53], where adding 1 and comparing are
      exact.
    - A JavaScript string is a [string] of bytes (its UTF-8 encoding).
    - [Map<string, Account>] is a [gmap string Account]: the ledger only
      looks accounts up and stores them.  [Map<string, Validator>] and the
      peer table are iterated, so they are insertion-ordered association
      lists ([omap]), as a JavaScript [Map] is.
    - An exception is a value of [result]; [Date.now()] and [Math.random()]
      are inputs of the functions that call them. *)

From Stdlib Require Import ZArith List String Ascii Bool Lia SpecFloat.
From stdpp Require Import base option gmap strings list.
From Equations Require Import Equations.
Import ListNotations.

Open Scope string_scope.
Open Scope Z_scope.

(* ===================================================================== *)
(** * SHA-256 ([createHash("sha256").update(s).digest("hex")])            *)
(* ===================================================================== *)

Module Sha256.

(** 32-bit words are integers of [Z] reduced modulo [2^32]. *)
Definition w32 (x : Z) : Z := Z.land x 4294967295.

Definition add32 (x y : Z) : Z := w32 (x + y).

Definition rotr (n x : Z) : Z :=
  Z.lor (Z.shiftr x n) (w32 (Z.shiftl x (32 - n))).

Definition Ch (x y z : Z) : Z :=
  Z.lxor (Z.land x y) (Z.land (Z.lxor x 4294967295) z).

Definition Maj (x y z : Z) : Z :=
  Z.lxor (Z.lxor (Z.land x y) (Z.land x z)) (Z.land y z).

Definition Sigma0 (x : Z) : Z :=
  Z.lxor (Z.lxor (rotr 2 x) (rotr 13 x)) (rotr 22 x).

Definition Sigma1 (x : Z) : Z :=
  Z.lxor (Z.lxor (rotr 6 x) (rotr 11 x)) (rotr 25 x).

Definition sigma0 (x : Z) : Z :=
  Z.lxor (Z.lxor (rotr 7 x) (rotr 18 x)) (Z.shiftr x 3).

Definition sigma1 (x : Z) : Z :=
  Z.lxor (Z.lxor (rotr 17 x) (rotr 19 x)) (Z.shiftr x 10).

(** The round constants are the first 32 bits of the fractional parts of
    the cube roots of the first 64 primes, and the initial hash value those
    of the square roots of the first 8 primes (FIPS 180-4, 4.2.2 and
    5.3.3). *)
Definition is_prime (n : Z) : bool :=
  forallb (fun d => negb (n mod Z.of_nat d =? 0)) (seq 2 (Z.to_nat n - 2)).

Definition primes : list Z :=
  List.filter is_prime (map Z.of_nat (seq 2 310)).

(** The integer cube root of [n < 2^(3 * bits)], bit by bit. *)
Fixpoint cube_root (bits : nat) (n r : Z) : Z :=
  match bits with
  | O => r
  | S b =>
      let r' := r + 2 ^ Z.of_nat b in
      cube_root b n (if r' * r' * r' <=? n then r' else r)
  end.

Definition K : list Z :=
  Eval vm_compute in
    map (fun q => w32 (cube_root 36 (q * 2 ^ 96) 0)) (firstn 64 primes).

Definition H0 : list Z :=
  Eval vm_compute in
    map (fun q => w32 (Z.sqrt (q * 2 ^ 64))) (firstn 8 primes).

(** Big-endian encoding of a number on [n] bytes. *)
Fixpoint be_bytes (n : nat) (x : Z) : list Z :=
  match n with
  | O => []
  | S n' => be_bytes n' (Z.shiftr x 8) ++ [Z.land x 255]
  end.

(** The message followed by the bit 1, zeros up to 56 modulo 64 and the
    bit length on eight bytes. *)
Definition pad (msg : list Z) : list Z :=
  let len := Z.of_nat (length msg) in
  let zeros := Z.to_nat ((55 - len) mod 64) in
  msg ++ [128] ++ repeat 0 zeros ++ be_bytes 8 (8 * len).

Fixpoint words_of_bytes (bs : list Z) : list Z :=
  match bs with
  | a :: b :: c :: d :: rest =>
      (Z.shiftl a 24 + Z.shiftl b 16 + Z.shiftl c 8 + d) :: words_of_bytes rest
  | _ => []
  end.

Fixpoint chunks16 (fuel : nat) (ws : list Z) : list (list Z) :=
  match fuel, ws with
  | S f, _ :: _ => firstn 16 ws :: chunks16 f (skipn 16 ws)
  | _, _ => []
  end.

(** The message schedule, most recent word first: [w] holds
    [W(t-1), W(t-2), ...]. *)
Fixpoint schedule (n : nat) (w : list Z) : list Z :=
  match n with
  | O => w
  | S n' =>
      let wt := add32 (add32 (sigma1 (nth 1 w 0)) (nth 6 w 0))
                      (add32 (sigma0 (nth 14 w 0)) (nth 15 w 0)) in
      schedule n' (wt :: w)
  end.

Record regs := Regs { ra : Z; rb : Z; rc : Z; rd : Z;
                      re : Z; rf : Z; rg : Z; rh : Z }.

Definition round (r : regs) (kw : Z * Z) : regs :=
  let t1 := add32 (add32 (add32 (rh r) (Sigma1 (re r)))
                         (add32 (Ch (re r) (rf r) (rg r)) (fst kw))) (snd kw) in
  let t2 := add32 (Sigma0 (ra r)) (Maj (ra r) (rb r) (rc r)) in
  Regs (add32 t1 t2) (ra r) (rb r) (rc r) (add32 (rd r) t1) (re r) (rf r) (rg r).

Definition compress (h : regs) (block : list Z) : regs :=
  let w := rev (schedule 48 (rev block)) in
  let r := fold_left round (combine K w) h in
  Regs (add32 (ra h) (ra r)) (add32 (rb h) (rb r))
       (add32 (rc h) (rc r)) (add32 (rd h) (rd r))
       (add32 (re h) (re r)) (add32 (rf h) (rf r))
       (add32 (rg h) (rg r)) (add32 (rh h) (rh r)).

Definition init : regs :=
  Regs (nth 0 H0 0) (nth 1 H0 0) (nth 2 H0 0) (nth 3 H0 0)
       (nth 4 H0 0) (nth 5 H0 0) (nth 6 H0 0) (nth 7 H0 0).

Definition digest_words (msg : list Z) : list Z :=
  let ws := words_of_bytes (pad msg) in
  let r := fold_left compress (chunks16 (length ws) ws) init in
  [ra r; rb r; rc r; rd r; re r; rf r; rg r; rh r].

Definition hex_digit (d : Z) : ascii :=
  nth (Z.to_nat d)
      ["0"; "1"; "2"; "3"; "4"; "5"; "6"; "7";
       "8"; "9"; "a"; "b"; "c"; "d"; "e"; "f"]%char "0"%char.

(** Lower-case hexadecimal of a list of bytes ([Buffer.toString("hex")]). *)
Fixpoint hex_of_bytes (bs : list Z) : string :=
  match bs with
  | [] => EmptyString
  | b :: rest =>
      String (hex_digit (Z.shiftr b 4))
             (String (hex_digit (Z.land b 15)) (hex_of_bytes rest))
  end.

Definition bytes_of_string (s : string) : list Z :=
  map (fun c => Z.of_N (N_of_ascii c)) (list_ascii_of_string s).

Definition digest_bytes (msg : list Z) : list Z :=
  flat_map (be_bytes 4) (digest_words msg).

(** [createHash("sha256").update(s).digest("hex")]. *)
Definition sha256 (s : string) : string :=
  hex_of_bytes (digest_bytes (bytes_of_string s)).

End Sha256.

Import Sha256.

(** The hash is only ever evaluated on closed strings. *)
Arguments sha256 : simpl never.
Arguments digest_bytes : simpl never.

(* ===================================================================== *)
(** * Results of fallible code                                            *)
(* ===================================================================== *)

(** A call either returns a value or throws; [Throw] carries the message of
    the JavaScript error. *)
Inductive result (A : Type) : Type :=
| Ok (a : A)
| Throw (msg : string).
Arguments Ok {A} a.
Arguments Throw {A} msg.

#[export] Instance result_ret : MRet result := fun A a => Ok a.

#[export] Instance result_bind : MBind result := fun A B k r =>
  match r with
  | Ok a => k a
  | Throw m => Throw m
  end.

(* ===================================================================== *)
(** * Numbers (the type Number of ECMAScript)                             *)
(* ===================================================================== *)

Module Number.

(** A value of the type Number: a double-precision floating-point number
    (IEEE 754 binary64).  [Finite negative m e] is the number
    [(-1)^negative * m * 2^(e - 1074)]: [2^(-1074)] is the smallest
    positive number, and every number is a multiple of it.  The operations
    return a finite number with an odd [m] below [2^53] and a value below
    [2^1024], so that every number is written in one way only. *)
Inductive number :=
| NaN
| Infinity (negative : bool)
| Zero (negative : bool)
| Finite (negative : bool) (m : positive) (e : N).

#[global] Instance number_eq_dec : EqDecision number.
Proof. solve_decision. Defined.

(** The exponent of the last place of [Finite negative m e]. *)
Definition exponent (e : N) : Z := Z.of_N e - 1074.

(** The odd part of a mantissa. *)
Fixpoint normalize (m : positive) (e : Z) : positive * Z :=
  match m with
  | xO m' => normalize m' (e + 1)
  | _ => (m, e)
  end.

(** The number of the value [M * 2^e], where [M] has at most 53 bits or is
    [2^53] and [-1074 <= e]: infinite from [2^1024] on. *)
Definition finite (negative : bool) (M e : Z) : number :=
  match M with
  | Z.pos p =>
      let '(m, e') := normalize p e in
      if 1024 <=? Z.log2 (Z.pos m) + e' then Infinity negative
      else Finite negative m (Z.to_N (e' + 1074))
  | _ => Zero negative
  end.

(** [2^a <= n / d] *)
Definition ge_pow2 (n d a : Z) : bool :=
  d * 2 ^ Z.max 0 a <=? n * 2 ^ Z.max 0 (- a).

(** The exponent [a] with [2^a <= n / d < 2^(a+1)]. *)
Definition floor_log2 (n d : positive) : Z :=
  let a := Z.log2 (Z.pos n) - Z.log2 (Z.pos d) in
  if ge_pow2 (Z.pos n) (Z.pos d) a then a else a - 1.

(** The integer nearest to [num / den], the even one of two that are
    equally near. *)
Definition nearest (num den : Z) : Z :=
  let quotient := num / den in
  let remainder := num mod den in
  if (den <? 2 * remainder) || ((2 * remainder =? den) && Z.odd quotient)
  then quotient + 1 else quotient.

(** The number nearest to the rational [n / d], the one with the even
    mantissa of two that are equally near (the rounding of every
    operation): a multiple of [2^q], where [q] is the exponent of the last
    of 53 binary digits and at least [-1074]. *)
Definition of_ratio (negative : bool) (n d : positive) : number :=
  let q := Z.max (floor_log2 n d - 52) (-1074) in
  finite negative
    (nearest (Z.pos n * 2 ^ Z.max 0 (- q)) (Z.pos d * 2 ^ Z.max 0 q)) q.

(** The number nearest to [M * 2^e]. *)
Definition of_dyadic (M e : Z) : number :=
  match M with
  | 0 => Zero false
  | Z.pos p =>
      of_ratio false (Z.to_pos (Z.pos p * 2 ^ Z.max 0 e)) (Z.to_pos (2 ^ Z.max 0 (- e)))
  | Z.neg p =>
      of_ratio true (Z.to_pos (Z.pos p * 2 ^ Z.max 0 e)) (Z.to_pos (2 ^ Z.max 0 (- e)))
  end.

(** The number nearest to an integer: the integer itself up to [2^53] in
    absolute value. *)
Definition of_Z (z : Z) : number := of_dyadic z 0.

Definition zero : number := Zero false.

(** The mantissa with its sign. *)
Definition signed (negative : bool) (m : positive) : Z :=
  if negative then Z.neg m else Z.pos m.

(** [x + y] *)
Definition add (x y : number) : number :=
  match x, y with
  | NaN, _ | _, NaN => NaN
  | Infinity a, Infinity b => if Bool.eqb a b then Infinity a else NaN
  | Infinity a, _ => Infinity a
  | _, Infinity b => Infinity b
  | Zero a, Zero b => Zero (a && b)
  | Zero _, _ => y
  | _, Zero _ => x
  | Finite a m1 e1, Finite b m2 e2 =>
      let e := N.min e1 e2 in
      of_dyadic (signed a m1 * 2 ^ Z.of_N (e1 - e)
                 + signed b m2 * 2 ^ Z.of_N (e2 - e)) (exponent e)
  end.

(** [- x] *)
Definition opp (x : number) : number :=
  match x with
  | NaN => NaN
  | Infinity a => Infinity (negb a)
  | Zero a => Zero (negb a)
  | Finite a m e => Finite (negb a) m e
  end.

(** [x - y] *)
Definition sub (x y : number) : number := add x (opp y).

(** [x * y] *)
Definition mul (x y : number) : number :=
  match x, y with
  | NaN, _ | _, NaN => NaN
  | Infinity _, Zero _ | Zero _, Infinity _ => NaN
  | Infinity a, Infinity b | Infinity a, Finite b _ _
  | Finite a _ _, Infinity b => Infinity (xorb a b)
  | Zero a, Zero b | Zero a, Finite b _ _ | Finite a _ _, Zero b =>
      Zero (xorb a b)
  | Finite a m1 e1, Finite b m2 e2 =>
      of_dyadic (signed (xorb a b) (m1 * m2)) (exponent e1 + exponent e2)
  end.

(** The order of the numbers that are not [NaN]: [Lt], [Eq] or [Gt]; the
    two zeros are equal. *)
Definition compare (x y : number) : option comparison :=
  match x, y with
  | NaN, _ | _, NaN => None
  | Infinity a, Infinity b =>
      Some (if Bool.eqb a b then Eq else if a then Lt else Gt)
  | Infinity a, _ => Some (if a then Lt else Gt)
  | _, Infinity b => Some (if b then Gt else Lt)
  | Zero _, Zero _ => Some Eq
  | Zero _, Finite b _ _ => Some (if b then Gt else Lt)
  | Finite a _ _, Zero _ => Some (if a then Lt else Gt)
  | Finite a m1 e1, Finite b m2 e2 =>
      let e := N.min e1 e2 in
      Some (signed a m1 * 2 ^ Z.of_N (e1 - e)
            ?= signed b m2 * 2 ^ Z.of_N (e2 - e))
  end.

(** [x < y] *)
Definition ltb (x y : number) : bool :=
  match compare x y with Some Lt => true | _ => false end.

(** [x <= y] *)
Definition leb (x y : number) : bool :=
  match compare x y with Some Lt | Some Eq => true | _ => false end.

(** [x === y] *)
Definition eqb (x y : number) : bool :=
  match compare x y with Some Eq => true | _ => false end.

(** The numbers that [||] and [if] take for false. *)
Definition falsy (x : number) : bool :=
  match x with
  | NaN | Zero _ => true
  | _ => false
  end.

(** Decimal digits of a natural number. *)
Fixpoint digits (fuel : nat) (n : Z) (acc : string) : string :=
  match fuel with
  | O => acc
  | S f =>
      let acc' := String (ascii_of_N (Z.to_N (48 + n mod 10))) acc in
      if n / 10 =? 0 then acc' else digits f (n / 10) acc'
  end.

Definition decimal (n : Z) : string :=
  digits (Z.to_nat (Z.log2 n) + 1) n EmptyString.

Fixpoint zeros (n : nat) : string :=
  match n with
  | O => EmptyString
  | S n' => String "0" (zeros n')
  end.

(** [10^(n-1) <= num / den < 10^n]: the search for [n] from an estimate. *)
Fixpoint magnitude (fuel : nat) (num den n : Z) : Z :=
  match fuel with
  | O => n
  | S f =>
      if den * 10 ^ Z.max 0 n <=? num * 10 ^ Z.max 0 (- n)
      then magnitude f num den (n + 1)
      else if num * 10 ^ Z.max 0 (1 - n) <? den * 10 ^ Z.max 0 (n - 1)
      then magnitude f num den (n - 1)
      else n
  end.

(** The digits [s] of the shortest decimal [s * 10^(n-k)], with [k]
    digits, that denotes the number [Finite false m e]; of two such
    decimals the nearer, and of two equally near the even one. *)
Fixpoint shortest (fuel : nat) (m : positive) (e : N) (num den n0 k : Z)
  : Z * Z * Z :=
  let t := n0 - k in
  let lo := (num * 10 ^ Z.max 0 (- t)) / (den * 10 ^ Z.max 0 t) in
  let hi := lo + 1 in
  let denotes (s : Z) :=
    bool_decide (of_ratio false (Z.to_pos (s * 10 ^ Z.max 0 t))
                          (Z.to_pos (10 ^ Z.max 0 (- t)))
                 = Finite false m e) in
  let ok_lo := (10 ^ (k - 1) <=? lo) && denotes lo in
  let ok_hi := denotes hi in
  let pick (s : Z) :=
    if s =? 10 ^ k then (10 ^ (k - 1), k, n0 + 1) else (s, k, n0) in
  let twice := 2 * num * 10 ^ Z.max 0 (- t) in
  let middle := (lo + hi) * den * 10 ^ Z.max 0 t in
  match fuel with
  | O => (lo, k, n0)
  | S f =>
      if ok_lo && ok_hi then
        if twice <? middle then pick lo
        else if middle <? twice then pick hi
        else if Z.even lo then pick lo else pick hi
      else if ok_lo then pick lo
      else if ok_hi then pick hi
      else shortest f m e num den n0 (k + 1)
  end.

(** [String(x)], the decimal notation of ECMAScript. *)
Definition toString (x : number) : string :=
  match x with
  | NaN => "NaN"
  | Infinity negative => if negative then "-Infinity" else "Infinity"
  | Zero _ => "0"
  | Finite negative m e =>
      let num := Z.pos m * 2 ^ Z.max 0 (exponent e) in
      let den := 2 ^ Z.max 0 (- exponent e) in
      let n0 := magnitude 8 num den
                  (((Z.log2 num - Z.log2 den) * 30103) / 100000) in
      let '(s, k, n) := shortest 17 m e num den n0 1 in
      let ds := decimal s in
      let sign := if negative then "-" else EmptyString in
      sign ++
      (if (k <=? n) && (n <=? 21) then ds ++ zeros (Z.to_nat (n - k))
       else if (0 <? n) && (n <=? 21) then
         substring 0 (Z.to_nat n) ds ++ "."
         ++ substring (Z.to_nat n) (Z.to_nat (k - n)) ds
       else if (-6 <? n) && (n <=? 0) then
         "0." ++ zeros (Z.to_nat (- n)) ++ ds
       else
         let exponent := (if n - 1 <? 0 then "-" else "+")
                         ++ decimal (Z.abs (n - 1)) in
         if k =? 1 then ds ++ "e" ++ exponent
         else substring 0 1 ds ++ "." ++ substring 1 (Z.to_nat (k - 1)) ds
              ++ "e" ++ exponent)
  end.

(** [JSON.stringify(x)] *)
Definition stringify (x : number) : string :=
  match x with
  | NaN | Infinity _ => "null"
  | _ => toString x
  end.

(** The number as a float of the Standard Library's specification of
    IEEE 754 ([SpecFloat], with 53 digits and the largest exponent 1024):
    a mantissa of 53 digits, or of fewer digits at the exponent [-1074]. *)
Definition to_spec (x : number) : spec_float :=
  match x with
  | NaN => S754_nan
  | Infinity s => S754_infinity s
  | Zero s => S754_zero s
  | Finite s m e =>
      let k := Z.min (52 - Z.log2 (Z.pos m)) (Z.of_N e) in
      S754_finite s (Z.to_pos (Z.pos m * 2 ^ k)) (exponent e - k)
  end.

Definition of_spec (x : spec_float) : number :=
  match x with
  | S754_nan => NaN
  | S754_infinity s => Infinity s
  | S754_zero s => Zero s
  | S754_finite s m e => finite s (Z.pos m) e
  end.

(** Numbers on which the operations are compared with those of
    [SpecFloat]: zeros, integers, fractions, the ends of the range,
    infinities and [NaN]. *)
Definition samples : list number :=
  [of_Z 0; Zero true; of_Z 1; of_Z (-1); of_Z 100;
   of_ratio false 1 10; of_ratio false 2 10; of_ratio true 1 1000;
   of_Z (2 ^ 53); of_Z (2 ^ 53 - 1); of_Z (2 ^ 53 + 2);
   Finite false 1 0; Finite true 3 0; of_ratio false 1 3;
   Finite false 9007199254740991 2045; Infinity false; Infinity true;
   NaN; of_Z (10 ^ 21); of_ratio false 123456789 1000].

(** The integers that are numbers: up to [2^53] in absolute value. *)
Definition safe (z : Z) : Prop := - 2 ^ 53 <= z <= 2 ^ 53.

(** The place of a number in the order: infinite or not, and the multiple
    of [2^(-1074)] that a finite number is. *)
Definition tier (x : number) : Z :=
  match x with
  | Infinity true => -1
  | Infinity false => 1
  | _ => 0
  end.

Definition scaled (x : number) : Z :=
  match x with
  | Finite a m e => signed a m * 2 ^ Z.of_N e
  | _ => 0
  end.

(** [x] is less than [y], and [x] equals [y] ([+0] and [-0] are equal). *)
Definition before (x y : number) : Prop :=
  tier x < tier y \/ (tier x = tier y /\ scaled x < scaled y).

Definition level (x y : number) : Prop :=
  tier x = tier y /\ scaled x = scaled y.

End Number.

Abbreviation number := Number.number.

Coercion Number.of_Z : Z >-> Number.number.

(* ===================================================================== *)
(** * Data model ([types/blockchain-types])                               *)
(* ===================================================================== *)

Inductive TransactionType :=
| REGULAR | REWARD | STAKE | UNSTAKE | CONTRACT_DEPLOY | CONTRACT_CALL.

#[export] Instance TransactionType_eq_dec : EqDecision TransactionType.
Proof. solve_decision. Defined.

(** The string value of the enum member. *)
Definition TransactionType_value (t : TransactionType) : string :=
  match t with
  | REGULAR => "regular"
  | REWARD => "reward"
  | STAKE => "stake"
  | UNSTAKE => "unstake"
  | CONTRACT_DEPLOY => "contract_deploy"
  | CONTRACT_CALL => "contract_call"
  end.

(** [signature] is [None] when the property is [undefined]; [data] is the
    optional property [data?]. *)
Record Transaction := mkTransaction {
  tx_id : string;
  tx_type : TransactionType;
  tx_from : string;
  tx_to : string;
  tx_amount : number;
  tx_fee : number;
  tx_timestamp : Z;
  tx_signature : option string;
  tx_data : option string;
  tx_nonce : Z
}.

Record BlockHeader := mkBlockHeader {
  index : Z;
  previousHash : string;
  timestamp : Z;
  merkleRoot : string;
  validator : string;
  nonce : Z
}.

Record Block := mkBlock {
  header : BlockHeader;
  transactions : list Transaction;
  signature : option string
}.

Record Validator := mkValidator {
  val_address : string;
  val_stake : number;
  isActive : bool;
  lastBlockValidated : Z;
  totalBlocksValidated : Z;
  rewardAddress : string;
  registeredAt : Z
}.

Record Account := mkAccount {
  acc_address : string;
  balance : number;
  acc_nonce : Z;
  stake : number
}.

Record ChainParams := mkChainParams {
  networkId : string;
  blockTime : Z;
  blockReward : number;
  minStake : number;
  maxSupply : Z;
  initialSupply : Z;
  difficultyAdjustmentInterval : Z;
  genesisTimestamp : Z
}.

(* ===================================================================== *)
(** * [JSON.stringify] of the records that are hashed                     *)
(* ===================================================================== *)

Module Json.

(** Decimal notation of an integer, as [JSON.stringify] and [String] print
    a number that is an integer below [10^21] in absolute value. *)
Fixpoint digits (fuel : nat) (n : Z) (acc : string) : string :=
  match fuel with
  | O => acc
  | S f =>
      let acc' := String (ascii_of_N (Z.to_N (48 + n mod 10))) acc in
      if n / 10 =? 0 then acc' else digits f (n / 10) acc'
  end.

Definition number (n : Z) : string :=
  if n <? 0 then "-" ++ digits (Z.to_nat (Z.log2 (- n)) + 1) (- n) EmptyString
  else digits (Z.to_nat (Z.log2 n) + 1) n EmptyString.

Definition escape_char (c : ascii) : string :=
  let n := Z.of_N (N_of_ascii c) in
  if n =? 34 then String "\"%char (String (ascii_of_N 34) EmptyString)
  else if n =? 92 then "\\"
  else if n =? 8 then "\b"
  else if n =? 9 then "\t"
  else if n =? 10 then "\n"
  else if n =? 12 then "\f"
  else if n =? 13 then "\r"
  else if n <? 32 then
    "\u00" ++ String (hex_digit (Z.shiftr n 4)) (String (hex_digit (Z.land n 15)) EmptyString)
  else String c EmptyString.

Fixpoint escape (s : string) : string :=
  match s with
  | EmptyString => EmptyString
  | String c rest => escape_char c ++ escape rest
  end.

Definition quote : string := String (ascii_of_N 34) EmptyString.

(** A string value between double quotes, with the escapes of JSON. *)
Definition str (s : string) : string := quote ++ escape s ++ quote.

(** A member [,"key":value]. *)
Definition member (key value : string) : string :=
  str key ++ ":" ++ value.

End Json.

(** [s.repeat(n)]. *)
Fixpoint str_repeat (s : string) (n : nat) : string :=
  match n with
  | O => EmptyString
  | S n' => s ++ str_repeat s n'
  end.

(** [JSON.stringify(block.header)]: the properties in the order in which
    the header object is built. *)
Definition stringify_header (h : BlockHeader) : string :=
  "{" ++ Json.member "index" (Json.number (index h))
  ++ "," ++ Json.member "previousHash" (Json.str (previousHash h))
  ++ "," ++ Json.member "timestamp" (Json.number (timestamp h))
  ++ "," ++ Json.member "merkleRoot" (Json.str (merkleRoot h))
  ++ "," ++ Json.member "validator" (Json.str (validator h))
  ++ "," ++ Json.member "nonce" (Json.number (nonce h))
  ++ "}".

(** [JSON.stringify(txWithoutSignature)], where
    [const { signature, ...txWithoutSignature } = transaction]: every
    property but [signature], in the order of the transaction object; a
    [data] that is [undefined] is left out. *)
Definition stringify_txWithoutSignature (tx : Transaction) : string :=
  "{" ++ Json.member "id" (Json.str (tx_id tx))
  ++ "," ++ Json.member "type" (Json.str (TransactionType_value (tx_type tx)))
  ++ "," ++ Json.member "from" (Json.str (tx_from tx))
  ++ "," ++ Json.member "to" (Json.str (tx_to tx))
  ++ "," ++ Json.member "amount" (Number.stringify (tx_amount tx))
  ++ "," ++ Json.member "fee" (Number.stringify (tx_fee tx))
  ++ "," ++ Json.member "timestamp" (Json.number (tx_timestamp tx))
  ++ match tx_data tx with
     | Some d => "," ++ Json.member "data" (Json.str d)
     | None => EmptyString
     end
  ++ "," ++ Json.member "nonce" (Json.number (tx_nonce tx))
  ++ "}".

(* ===================================================================== *)
(** * Merkle tree ([utils/merkle.ts])                                     *)
(* ===================================================================== *)

Module Merkle.

Definition calculateTransactionHash (transaction : Transaction) : string :=
  sha256 (stringify_txWithoutSignature transaction).

Definition hashPair (l r : string) : string :=
  sha256 (l ++ r).

(** The loop [for (let i = 0; i < leaves.length; i += 2)] of
    [buildMerkleTree]: it pushes one parent per pair [(l, r)], and pairs a
    last node that has no right neighbour with itself. *)
Fixpoint parents (leaves : list string) : list string :=
  match leaves with
  | [] => []
  | [l] => [hashPair l l]
  | l :: r :: rest => hashPair l r :: parents rest
  end.

Lemma parents_length (leaves : list string) :
  (length (parents leaves) = Nat.div2 (S (length leaves)))%nat.
Proof.
  induction leaves as [leaves IH] using (induction_ltof1 _ (@length string)).
  unfold ltof in IH.
  destruct leaves as [|x [|y rest]]; [reflexivity | reflexivity |].
  cbn [parents length]. rewrite IH by (cbn [length]; lia). reflexivity.
Qed.

Equations? buildMerkleTree (leaves : list string) : string
  by wf (length leaves) lt :=
  buildMerkleTree [] := str_repeat "0" 64;
  buildMerkleTree [leaf] := leaf;
  buildMerkleTree (l :: r :: rest) :=
    buildMerkleTree (parents (l :: r :: rest)).
Proof.
  rewrite parents_length.
  pose proof (Nat.div2_decr (S (length rest)) (length rest) (le_n _)).
  lia.
Qed.

Definition calculateMerkleRoot (transactions : list Transaction) : string :=
  match transactions with
  | [] => str_repeat "0" 64
  | _ => buildMerkleTree (map calculateTransactionHash transactions)
  end.

End Merkle.

(* ===================================================================== *)
(** * Insertion-ordered maps (a JavaScript [Map] that is iterated)         *)
(* ===================================================================== *)

Section OMap.
Context {V : Type}.

Definition omap := list (string * V).

(** [m.get(k)] *)
Fixpoint oget (k : string) (m : omap) : option V :=
  match m with
  | [] => None
  | (k', v) :: rest => if decide (k = k') then Some v else oget k rest
  end.

(** [m.has(k)] *)
Definition ohas (k : string) (m : omap) : bool :=
  match oget k m with Some _ => true | None => false end.

(** [m.set(k, v)]: a present key keeps its place, a new key goes last. *)
Fixpoint oset (k : string) (v : V) (m : omap) : omap :=
  match m with
  | [] => [(k, v)]
  | (k', v') :: rest =>
      if decide (k = k') then (k, v) :: rest else (k', v') :: oset k v rest
  end.

(** [m.delete(k)] *)
Fixpoint odelete (k : string) (m : omap) : omap :=
  match m with
  | [] => []
  | (k', v') :: rest =>
      if decide (k = k') then rest else (k', v') :: odelete k rest
  end.

(** [Array.from(m.values())] *)
Definition ovalues (m : omap) : list V := map snd m.

(** [Array.from(m.keys())] *)
Definition okeys (m : omap) : list string := map fst m.

End OMap.
Arguments omap V : clear implicits.

(* ===================================================================== *)
(** * The ledger ([class Blockchain])                                     *)
(* ===================================================================== *)

Inductive Event :=
| transactionAdded (transaction : Transaction)
| blockAdded (block : Block)
| validatorRegistered (address : string) (stake : number).

(** The fields of a [Blockchain] object, and the events it has emitted (its
    listeners log and persist; they do not write to the ledger). *)
Record Blockchain := mkBlockchain {
  chain : list Block;
  pendingTransactions : list Transaction;
  validators : omap Validator;
  accounts : gmap string Account;
  chainParams : ChainParams;
  emitted : list Event
}.

Definition with_chain (c : list Block) (st : Blockchain) : Blockchain :=
  mkBlockchain c (pendingTransactions st) (validators st) (accounts st)
               (chainParams st) (emitted st).

Definition with_pendingTransactions (p : list Transaction) (st : Blockchain)
  : Blockchain :=
  mkBlockchain (chain st) p (validators st) (accounts st)
               (chainParams st) (emitted st).

Definition with_validators (v : omap Validator) (st : Blockchain) : Blockchain :=
  mkBlockchain (chain st) (pendingTransactions st) v (accounts st)
               (chainParams st) (emitted st).

Definition with_accounts (a : gmap string Account) (st : Blockchain) : Blockchain :=
  mkBlockchain (chain st) (pendingTransactions st) (validators st) a
               (chainParams st) (emitted st).

Definition emit (e : Event) (st : Blockchain) : Blockchain :=
  mkBlockchain (chain st) (pendingTransactions st) (validators st) (accounts st)
               (chainParams st) (emitted st ++ [e]).

(** Field assignments through a reference to an account or a validator.
    Every object of [accounts] and of [validators] is stored under its own
    key and is only reached through the map, so a reference is the key and
    an assignment changes the entry in place; when two references of one
    call are equal (a transfer to oneself) they name the same entry. *)
Definition set_balance (b : number) (a : Account) : Account :=
  mkAccount (acc_address a) b (acc_nonce a) (stake a).
Definition set_nonce (n : Z) (a : Account) : Account :=
  mkAccount (acc_address a) (balance a) n (stake a).
Definition set_stake (s : number) (a : Account) : Account :=
  mkAccount (acc_address a) (balance a) (acc_nonce a) s.

Definition set_val_stake (s : number) (v : Validator) : Validator :=
  mkValidator (val_address v) s (isActive v) (lastBlockValidated v)
              (totalBlocksValidated v) (rewardAddress v) (registeredAt v).
Definition set_isActive (b : bool) (v : Validator) : Validator :=
  mkValidator (val_address v) (val_stake v) b (lastBlockValidated v)
              (totalBlocksValidated v) (rewardAddress v) (registeredAt v).
Definition set_lastBlockValidated (i : Z) (v : Validator) : Validator :=
  mkValidator (val_address v) (val_stake v) (isActive v) i
              (totalBlocksValidated v) (rewardAddress v) (registeredAt v).
Definition set_totalBlocksValidated (n : Z) (v : Validator) : Validator :=
  mkValidator (val_address v) (val_stake v) (isActive v) (lastBlockValidated v)
              n (rewardAddress v) (registeredAt v).

Definition update_account (address : string) (f : Account -> Account)
  (st : Blockchain) : Blockchain :=
  with_accounts (alter f address (accounts st)) st.

Definition update_validator (address : string) (f : Validator -> Validator)
  (st : Blockchain) : Blockchain :=
  match oget address (validators st) with
  | Some v => with_validators (oset address (f v) (validators st)) st
  | None => st
  end.

Definition calculateBlockHash (block : Block) : string :=
  sha256 (stringify_header (header block)).

Definition calculateTransactionHash (transaction : Transaction) : string :=
  sha256 (stringify_txWithoutSignature transaction).

(** [this.chain[this.chain.length - 1]], [undefined] on an empty chain. *)
Definition getLatestBlock (st : Blockchain) : option Block :=
  last (chain st).

(** [this.getLatestBlock().header]: a [TypeError] on an empty chain. *)
Definition latestHeader (st : Blockchain) : result BlockHeader :=
  match getLatestBlock st with
  | Some b => Ok (header b)
  | None => Throw "TypeError: Cannot read properties of undefined (reading 'header')"
  end.

Definition initializeGenesisBlock (st : Blockchain) : Blockchain :=
  if (0 <? length (chain st))%nat then st
  else
    let header0 :=
      mkBlockHeader 0 (str_repeat "0" 64) (genesisTimestamp (chainParams st))
                    (str_repeat "0" 64) "AURUM_GENESIS" 0 in
    let blockHash := calculateBlockHash (mkBlock header0 [] (Some "GENESIS_SIGNATURE")) in
    let header1 :=
      mkBlockHeader (index header0) (previousHash header0) (timestamp header0)
                    blockHash (validator header0) (nonce header0) in
    with_chain (chain st ++ [mkBlock header1 [] (Some "GENESIS_SIGNATURE")]) st.

(** [new Blockchain(chainParams)] *)
Definition new_Blockchain (params : ChainParams) : Blockchain :=
  initializeGenesisBlock (mkBlockchain [] [] [] ∅ params []).

Definition getOrCreateAccount (address : string) (st : Blockchain) : Blockchain :=
  match accounts st !! address with
  | Some _ => st
  | None =>
      with_accounts
        (<[address := mkAccount address Number.zero 0 Number.zero]> (accounts st)) st
  end.

Definition getAddressBalance (st : Blockchain) (address : string) : number :=
  match accounts st !! address with
  | Some account => balance account
  | None => Number.zero
  end.

Definition getAddressStake (st : Blockchain) (address : string) : number :=
  match accounts st !! address with
  | Some account => stake account
  | None => Number.zero
  end.

Definition getValidator (st : Blockchain) (address : string) : option Validator :=
  oget address (validators st).

Definition getValidators (st : Blockchain) : list Validator :=
  ovalues (validators st).

(** The test [transaction.type === TransactionType.REWARD &&
    transaction.from === "NETWORK"]. *)
Definition isNetworkReward (transaction : Transaction) : bool :=
  bool_decide (tx_type transaction = REWARD)
  && bool_decide (tx_from transaction = "NETWORK").

(** [x] is neither [undefined] nor the empty string. *)
Definition present (x : option string) : bool :=
  match x with
  | None => false
  | Some s => negb (bool_decide (s = EmptyString))
  end.

Definition verifyTransactionSignature (transaction : Transaction) : bool :=
  if isNetworkReward transaction then true
  else
    let txHash := calculateTransactionHash transaction in
    present (tx_signature transaction).

Definition isValidTransaction (st : Blockchain) (transaction : Transaction) : bool :=
  if isNetworkReward transaction then true
  else if negb (verifyTransactionSignature transaction) then false
  else
    match accounts st !! tx_from transaction with
    | None => false
    | Some sender =>
        let enough :=
          match tx_type transaction with
          | REGULAR =>
              if Number.ltb (balance sender)
                   (Number.add (tx_amount transaction) (tx_fee transaction))
              then false else true
          | STAKE =>
              if Number.ltb (balance sender)
                   (Number.add (tx_amount transaction) (tx_fee transaction))
              then false
              else if Number.ltb (tx_amount transaction) (minStake (chainParams st))
              then false else true
          | UNSTAKE =>
              if Number.ltb (stake sender) (tx_amount transaction) then false
              else if Number.ltb (balance sender) (tx_fee transaction) then false
              else true
          | _ => true
          end in
        if negb enough then false
        else if negb (tx_nonce transaction =? acc_nonce sender) then false
        else true
    end.

Definition addTransaction (st : Blockchain) (transaction : Transaction)
  : bool * Blockchain :=
  if negb (isValidTransaction st transaction) then (false, st)
  else
    let st := with_pendingTransactions (pendingTransactions st ++ [transaction]) st in
    let st := emit (transactionAdded transaction) st in
    (true, st).

Definition registerValidator (now : Z) (address : string) (stake : number)
  (st : Blockchain) : result (bool * Blockchain) :=
  if Number.ltb stake (minStake (chainParams st)) then Ok (false, st)
  else
    st ← (if ohas address (validators st) then
            Ok (update_validator address
                  (fun v => set_isActive true
                              (set_val_stake (Number.add (val_stake v) stake) v)) st)
          else
            h ← latestHeader st;
            Ok (with_validators
                  (oset address
                     (mkValidator address stake true (index h) 0 address now)
                     (validators st)) st));
    Ok (true, emit (validatorRegistered address stake) st).

Definition processRegularTransaction (transaction : Transaction)
  (st : Blockchain) : Blockchain :=
  let sender := tx_from transaction in
  let recipient := tx_to transaction in
  let st := getOrCreateAccount sender st in
  let st := getOrCreateAccount recipient st in
  let st := update_account sender
              (fun a => set_balance
                          (Number.sub (balance a)
                             (Number.add (tx_amount transaction) (tx_fee transaction))) a)
              st in
  let st := update_account recipient
              (fun a => set_balance (Number.add (balance a) (tx_amount transaction)) a)
              st in
  let st := update_account sender (fun a => set_nonce (acc_nonce a + 1) a) st in
  st.

Definition processRewardTransaction (transaction : Transaction)
  (st : Blockchain) : Blockchain :=
  let validator := tx_to transaction in
  let st := getOrCreateAccount validator st in
  update_account validator
    (fun a => set_balance (Number.add (balance a) (tx_amount transaction)) a) st.

Definition processStakeTransaction (now : Z) (transaction : Transaction)
  (st : Blockchain) : result Blockchain :=
  let staker := tx_from transaction in
  let st := getOrCreateAccount staker st in
  let st := update_account staker
              (fun a => set_balance
                          (Number.sub (balance a)
                             (Number.add (tx_amount transaction) (tx_fee transaction))) a)
              st in
  let st := update_account staker
              (fun a => set_stake (Number.add (stake a) (tx_amount transaction)) a)
              st in
  let st := update_account staker (fun a => set_nonce (acc_nonce a + 1) a) st in
  r ← registerValidator now staker (tx_amount transaction) st;
  Ok (snd r).

Definition processUnstakeTransaction (transaction : Transaction)
  (st : Blockchain) : Blockchain :=
  let staker := tx_from transaction in
  let st := getOrCreateAccount staker st in
  let st := update_account staker
              (fun a => set_balance (Number.sub (balance a) (tx_fee transaction)) a)
              st in
  let st := update_account staker
              (fun a => set_balance (Number.add (balance a) (tx_amount transaction)) a)
              st in
  let st := update_account staker
              (fun a => set_stake (Number.sub (stake a) (tx_amount transaction)) a)
              st in
  let st := update_account staker (fun a => set_nonce (acc_nonce a + 1) a) st in
  if ohas staker (validators st) then
    update_validator staker
      (fun v =>
         let v := set_val_stake (Number.sub (val_stake v) (tx_amount transaction)) v in
         if Number.ltb (val_stake v) (minStake (chainParams st))
         then set_isActive false v else v)
      st
  else st.

Definition processTransaction (now : Z) (transaction : Transaction)
  (st : Blockchain) : result Blockchain :=
  match tx_type transaction with
  | REGULAR => Ok (processRegularTransaction transaction st)
  | REWARD => Ok (processRewardTransaction transaction st)
  | STAKE => processStakeTransaction now transaction st
  | UNSTAKE => Ok (processUnstakeTransaction transaction st)
  | _ => Ok st
  end.

(** The loop [for (const transaction of block.transactions)]. *)
Fixpoint processTransactions (now : Z) (txs : list Transaction)
  (st : Blockchain) : result Blockchain :=
  match txs with
  | [] => Ok st
  | transaction :: rest =>
      st ← processTransaction now transaction st;
      processTransactions now rest st
  end.

Definition processBlockTransactions (now : Z) (block : Block)
  (st : Blockchain) : result Blockchain :=
  let txIds := map tx_id (transactions block) in
  let st := with_pendingTransactions
              (filter (fun tx => tx_id tx ∉ txIds) (pendingTransactions st)) st in
  processTransactions now (transactions block) st.

Definition addValidatorReward (now : Z) (validatorAddress : string)
  (st : Blockchain) : Blockchain :=
  let rewardTransaction :=
    mkTransaction ("reward-" ++ Json.number now ++ "-" ++ validatorAddress)
                  REWARD "NETWORK" validatorAddress
                  (blockReward (chainParams st)) Number.zero now
                  (Some "NETWORK_REWARD") None 0 in
  with_pendingTransactions (pendingTransactions st ++ [rewardTransaction]) st.

Definition verifyBlockSignature (st : Blockchain) (block : Block) : bool :=
  if index (header block) =? 0 then true
  else
    match oget (validator (header block)) (validators st) with
    | None => false
    | Some validator =>
        let blockHash := calculateBlockHash block in
        present (signature block)
    end.

Definition isValidBlock (st : Blockchain) (block : Block) : result bool :=
  match getLatestBlock st with
  | None => Throw "TypeError: Cannot read properties of undefined (reading 'header')"
  | Some previousBlock =>
      if negb (index (header block) =? index (header previousBlock) + 1)
      then Ok false
      else
        let previousBlockHash := calculateBlockHash previousBlock in
        if negb (bool_decide (previousHash (header block) = previousBlockHash))
        then Ok false
        else
          let calculatedMerkleRoot := Merkle.calculateMerkleRoot (transactions block) in
          if negb (bool_decide (merkleRoot (header block) = calculatedMerkleRoot))
          then Ok false
          else if negb (verifyBlockSignature st block) then Ok false
          else Ok (forallb (isValidTransaction st) (transactions block))
  end.

Definition addBlock (now : Z) (block : Block) (st : Blockchain)
  : result (bool * Blockchain) :=
  valid ← isValidBlock st block;
  if negb valid then Ok (false, st)
  else
    let st := with_chain (chain st ++ [block]) st in
    st ← processBlockTransactions now block st;
    let st :=
      if ohas (validator (header block)) (validators st) then
        update_validator (validator (header block))
          (fun v => set_totalBlocksValidated (totalBlocksValidated v + 1)
                      (set_lastBlockValidated (index (header block)) v)) st
      else st in
    Ok (true, emit (blockAdded block) st).

(** The loop of [selectValidator]: the first validator at which the running
    sum of stakes reaches [randomPoint]. *)
Fixpoint selectLoop (randomPoint cumulativeStake : number)
  (activeValidators : list Validator) : option string :=
  match activeValidators with
  | [] => None
  | validator :: rest =>
      let cumulativeStake := Number.add cumulativeStake (val_stake validator) in
      if Number.leb randomPoint cumulativeStake
      then Some (val_address validator)
      else selectLoop randomPoint cumulativeStake rest
  end.

(** [selectValidator()]; [random] is the value that [Math.random()] returns
    in this call, a number of [0, 1). *)
Definition selectValidator (random : number) (st : Blockchain) : result string :=
  let activeValidators := List.filter isActive (getValidators st) in
  match activeValidators with
  | [] => Throw "No active validators available"
  | first :: _ =>
      let totalStake :=
        fold_left (fun sum validator => Number.add sum (val_stake validator))
                  activeValidators Number.zero in
      let randomPoint := Number.mul random totalStake in
      match selectLoop randomPoint Number.zero activeValidators with
      | Some address => Ok address
      | None => Ok (val_address first)
      end
  end.

(* ===================================================================== *)
(** * A concrete ledger                                                   *)
(* ===================================================================== *)

Module Scenario.

(** The chain parameters of [NodeService]. *)
Definition params : ChainParams :=
  mkChainParams "aurum-mainnet" 15000 5 1000 100000000 10000000 2016
                1609459200000.

Definition t0 : Z := 1700000000000.

Definition s0 : Blockchain := new_Blockchain params.

Definition state_of (r : result (bool * Blockchain)) : Blockchain :=
  match r with
  | Ok (_, st) => st
  | Throw _ => s0
  end.

(** One validator registered through [registerValidator]. *)
Definition s1 : Blockchain :=
  state_of (registerValidator t0 "aur1validator" 1000 s0).

(** The header of a block on top of [st] that holds [txs]. *)
Definition next_header (st : Blockchain) (txs : list Transaction) : BlockHeader :=
  match getLatestBlock st with
  | Some previousBlock =>
      mkBlockHeader (index (header previousBlock) + 1)
                    (calculateBlockHash previousBlock) t0
                    (Merkle.calculateMerkleRoot txs) "aur1validator" 7
  | None => mkBlockHeader 0 EmptyString 0 EmptyString EmptyString 0
  end.

(** A block on top of [st] that holds [txs]. *)
Definition next_block (st : Blockchain) (txs : list Transaction) : Block :=
  mkBlock (next_header st txs) txs (Some "sig").

Definition fund_alice : Transaction :=
  mkTransaction "reward-1" REWARD "NETWORK" "aur1alice" 100 0 t0
                (Some "NETWORK_REWARD") None 0.

(** A reward of [2^53]. *)
Definition fund_alice_2_53 : Transaction :=
  mkTransaction "reward-1" REWARD "NETWORK" "aur1alice" (Number.of_Z (2 ^ 53))
                Number.zero t0 (Some "NETWORK_REWARD") None 0.

(** [aur1alice] holds 100 after the first block. *)
Definition s2 : Blockchain :=
  state_of (addBlock t0 (next_block s1 [fund_alice]) s1).

Definition transfer (id to : string) (amount fee : number) (n : Z) : Transaction :=
  mkTransaction id REGULAR "aur1alice" to amount fee t0 (Some "sig") None n.

(** Two transfers of [aur1alice] with the sequence numbers 0 and 1. *)
Definition consecutive : list Transaction :=
  [transfer "tx-a" "aur1bob" 10 1 0; transfer "tx-b" "aur1bob" 10 1 1].

(** Two transfers of [aur1alice] with the sequence number 0, each of her
    whole balance. *)
Definition double_spend : list Transaction :=
  [transfer "tx-c" "aur1bob" 100 0 0; transfer "tx-d" "aur1carol" 100 0 0].

(** A transfer of [aur1alice] to [aur1bob]. *)
Definition pay_bob : Transaction :=
  transfer "tx-a" "aur1bob" 10 1 0.

(** A transfer of [aur1alice] to herself. *)
Definition self_transfer : Transaction :=
  transfer "tx-e" "aur1alice" 10 1 0.

(** A block whose height is not the next one. *)
Definition bad_block : Block :=
  mkBlock (mkBlockHeader 5 (str_repeat "0" 64) t0 (str_repeat "0" 64)
                         "aur1validator" 7)
          [] (Some "sig").

(** A transfer of more than [aur1alice] holds. *)
Definition overdraft : Transaction :=
  transfer "tx-f" "aur1bob" 1000 1 0.

Definition fund_carol : Transaction :=
  mkTransaction "reward-2" REWARD "NETWORK" "aur1carol" 5000 0 t0
                (Some "NETWORK_REWARD") None 0.

(** [aur1carol] holds 5000 after the first block. *)
Definition s3 : Blockchain :=
  state_of (addBlock t0 (next_block s1 [fund_carol]) s1).

Definition carol_stakes : Transaction :=
  mkTransaction "tx-s" STAKE "aur1carol" "aur1carol" 1500 1 t0 (Some "sig") None 0.

(** [aur1carol] has staked 1500 and is a validator after the second block. *)
Definition s4 : Blockchain :=
  state_of (addBlock t0 (next_block s3 [carol_stakes]) s3).

Definition carol_unstakes : Transaction :=
  mkTransaction "tx-u" UNSTAKE "aur1carol" "aur1carol" 600 1 t0 (Some "sig") None 1.

(** [aur1carol] holds [2^53 + 1502] after the first block, and [2^53]
    after the second block, in which she stakes 1500 with fee 2. *)
Definition fund_carol_2_53 : Transaction :=
  mkTransaction "reward-2" REWARD "NETWORK" "aur1carol"
                (Number.of_Z (2 ^ 53 + 1502)) Number.zero t0
                (Some "NETWORK_REWARD") None 0.

Definition s6 : Blockchain :=
  state_of (addBlock t0 (next_block s1 [fund_carol_2_53]) s1).

Definition carol_stakes_fee_2 : Transaction :=
  mkTransaction "tx-s" STAKE "aur1carol" "aur1carol" 1500 2 t0 (Some "sig") None 0.

Definition s7 : Blockchain :=
  state_of (addBlock t0 (next_block s6 [carol_stakes_fee_2]) s6).

(** An unstake of 2 with fee 1. *)
Definition carol_unstakes_2 : Transaction :=
  mkTransaction "tx-u" UNSTAKE "aur1carol" "aur1carol" 2 1 t0 (Some "sig") None 1.

(** [aur1alice] has the sequence number 1 after her transfer to [aur1bob]
    is confirmed in the second block. *)
Definition s5 : Blockchain :=
  state_of (addBlock t0 (next_block s2 [pay_bob]) s2).

(** A reward whose sender is written in lower case, without signature. *)
Definition lowercase_reward : Transaction :=
  mkTransaction "reward-3" REWARD "network" "aur1alice" 5 0 t0 None None 0.

(** The numbers [0.1], [0.9] and the number nearest to 1/3, three draws of
    [Math.random]. *)
Definition draw_01 : number := Eval vm_compute in Number.of_ratio false 1 10.
Definition draw_09 : number := Eval vm_compute in Number.of_ratio false 9 10.
Definition draw_third : number := Eval vm_compute in Number.of_ratio false 1 3.

End Scenario.

(* ===================================================================== *)
(** * Keystore ([crypto/keys.ts])                                         *)
(* ===================================================================== *)

Module Keys.

Definition hex_val (c : ascii) : option Z :=
  let n := Z.of_N (N_of_ascii c) in
  if (48 <=? n) && (n <=? 57) then Some (n - 48)
  else if (97 <=? n) && (n <=? 102) then Some (n - 87)
  else if (65 <=? n) && (n <=? 70) then Some (n - 55)
  else None.

(** [Buffer.from(s, "hex")]: pairs of hexadecimal digits, up to the first
    pair that is not one; a last character without a partner is dropped. *)
Fixpoint bytes_of_hex (s : string) : list Z :=
  match s with
  | String a (String b rest) =>
      match hex_val a, hex_val b with
      | Some x, Some y => (16 * x + y) :: bytes_of_hex rest
      | _, _ => []
      end
  | _ => []
  end.

Record kdfparams_t := mkKdfparams {
  dklen : Z;
  salt : string;
  n : Z;
  r : Z;
  p : Z
}.

Record cipherparams_t := mkCipherparams { iv : string }.

Record KeystoreOptions := mkKeystoreOptions {
  kdf : string;
  kdfparams : kdfparams_t;
  cipher : string;
  cipherparams : cipherparams_t
}.

Definition xor_bytes (xs ys : list Z) : list Z :=
  map (fun xy => Z.lxor (fst xy) (snd xy)) (combine xs ys).

Section Primitives.

(** [scrypt(password, salt, keylen, { N, r, p })] of Node's [crypto]:
    the derived key, or an exception on parameters it refuses. *)
Variable scrypt : string -> list Z -> nat -> Z -> Z -> Z -> result (list Z).

(** The AES-256 block function: a 32-byte key and a 16-byte block give a
    16-byte block. *)
Variable aes256 : list Z -> list Z -> list Z.

(** The key stream of the counter mode: the encryptions of [iv],
    [iv + 1], ... read as 128-bit big-endian numbers. *)
Fixpoint keystream (key : list Z) (counter : Z) (blocks : nat) : list Z :=
  match blocks with
  | O => []
  | S b =>
      aes256 key (be_bytes 16 counter)
      ++ keystream key ((counter + 1) mod 2 ^ 128) b
  end.

Definition int_of_bytes (bs : list Z) : Z :=
  fold_left (fun acc b => 256 * acc + b) bs 0.

(** [createCipheriv("aes-256-ctr", key, iv)] followed by [update(data)]
    and [final()]; [createDecipheriv] is the same function.  A key that
    is not 32 bytes long or an [iv] that is not 16 bytes long is
    refused. *)
Definition aes_256_ctr (key iv data : list Z) : result (list Z) :=
  if negb (length key =? 32)%nat then Throw "Invalid key length"
  else if negb (length iv =? 16)%nat then Throw "Invalid initialization vector"
  else
    Ok (xor_bytes data
          (keystream key (int_of_bytes iv) (S (length data / 16)))).

(** The [catch] clause: whatever was thrown becomes [Error(msg)]. *)
Definition rethrow {A} (msg : string) (r : result A) : result A :=
  match r with
  | Ok a => Ok a
  | Throw _ => Throw msg
  end.

(** [encryptPrivateKey(privateKey, password)]; [salt] and [iv] are what
    [randomBytes(32)] and [randomBytes(16)] return in this call. *)
Definition encryptPrivateKey (salt iv : list Z) (privateKey password : string)
  : result (string * KeystoreOptions) :=
  rethrow "Failed to encrypt private key"
    (key ← scrypt password salt 32 16384 8 1;
     encryptedPrivateKey ← aes_256_ctr key iv (bytes_of_hex privateKey);
     let options :=
       mkKeystoreOptions "scrypt"
         (mkKdfparams 32 (hex_of_bytes salt) 16384 8 1)
         "aes-256-ctr"
         (mkCipherparams (hex_of_bytes iv)) in
     Ok (hex_of_bytes encryptedPrivateKey, options)).

Definition decryptPrivateKey (encryptedPrivateKey password : string)
  (options : KeystoreOptions) : result string :=
  rethrow "Failed to decrypt private key"
    (let salt := bytes_of_hex (salt (kdfparams options)) in
     let iv := bytes_of_hex (iv (cipherparams options)) in
     key ← scrypt password salt 32
             (n (kdfparams options)) (r (kdfparams options))
             (p (kdfparams options));
     decryptedPrivateKey ← aes_256_ctr key iv (bytes_of_hex encryptedPrivateKey);
     Ok (hex_of_bytes decryptedPrivateKey)).

End Primitives.

End Keys.

(* ===================================================================== *)
(** * Wallet service ([class WalletService])                              *)
(* ===================================================================== *)

Module Wallet.

Record Wallet := mkWallet {
  address : string;
  publicKey : string;
  privateKey : string;
  name : option string;
  createdAt : Z
}.

(** What [JSON.parse] reads from a wallet file. *)
Record WalletFile := mkWalletFile {
  file_address : string;
  file_publicKey : string;
  file_encryptedPrivateKey : string;
  file_name : string;
  file_createdAt : Z;
  file_options : Keys.KeystoreOptions
}.

Record TransactionRequest := mkTransactionRequest {
  req_from : string;
  req_to : string;
  req_amount : number;
  req_fee : option number;
  req_data : option string
}.

Section Service.

Variable scrypt : string -> list Z -> nat -> Z -> Z -> Z -> result (list Z).
Variable aes256 : list Z -> list Z -> list Z.

(** [secp256k1.ecdsaSign(hash, privateKey)]: the 64 bytes of the
    signature, a [Uint8Array], and the recovery id, or an exception on a
    key that is not a private key of the curve. *)
Variable ecdsaSign : list Z -> list Z -> result (list Z * Z).

(** The wallet directory: the files of [walletDir] by address. *)
Variable walletDir : gmap string WalletFile.

(** [sign(data, privateKey)] of [crypto/signature].  After [ecdsaSign]
    the function calls [signature.copy(signatureWithRecovery, 0)]; the
    signature is a [Uint8Array], which has no method [copy] (a [Buffer]
    has), so the call throws a [TypeError], and the [catch] clause turns
    it, as it does an exception of [ecdsaSign], into [Error("Failed to
    sign data")]. *)
Definition sign (data : string) (privateKey : list Z) : result (list Z) :=
  Keys.rethrow "Failed to sign data"
    (let dataHash := digest_bytes (bytes_of_string data) in
     sr ← ecdsaSign dataHash privateKey;
     Throw "TypeError: signature.copy is not a function").

(** [signMessage(message, privateKey)] for a transaction that has no
    signature yet. *)
Definition signMessage (message : Transaction) (privateKey : string)
  : result string :=
  Keys.rethrow "Failed to sign message"
    (let messageStr := stringify_txWithoutSignature message in
     let privateKeyBuffer := Keys.bytes_of_hex privateKey in
     signature ← sign messageStr privateKeyBuffer;
     Ok (hex_of_bytes signature)).

Definition loadWallet (address password : string) : result Wallet :=
  Keys.rethrow "Failed to load wallet"
    (match walletDir !! address with
     | None => Throw "ENOENT: no such file or directory"
     | Some f =>
         privateKey ← Keys.decryptPrivateKey scrypt aes256
                        (file_encryptedPrivateKey f) password (file_options f);
         Ok (mkWallet address (file_publicKey f) privateKey
                      (Some (file_name f)) (file_createdAt f))
     end).

(** The number [0.001]: the double nearest to 1/1000. *)
Definition defaultFee : number :=
  Eval vm_compute in Number.of_ratio false 1 1000.

(** [request.fee || 0.001]: the default stands in for a fee that is
    [undefined], zero or [NaN]. *)
Definition fee_or_default (request : TransactionRequest) : number :=
  match req_fee request with
  | Some f => if Number.falsy f then defaultFee else f
  | None => defaultFee
  end.

Definition generateTransactionId (now : Z) (request : TransactionRequest)
  : string :=
  sha256 (req_from request ++ req_to request
          ++ Number.toString (req_amount request)
          ++ Number.toString (fee_or_default request)
          ++ Json.number now).

(** The object [transaction] that [createTransaction] builds before it
    signs: its [nonce] is the literal 0. *)
Definition unsignedTransaction (now : Z) (request : TransactionRequest)
  (type : TransactionType) : Transaction :=
  mkTransaction (generateTransactionId now request) type
                (req_from request) (req_to request)
                (req_amount request) (fee_or_default request)
                now None (req_data request) 0.

(** [createTransaction(request, password, type)]; [now] is the clock. *)
Definition createTransaction (now : Z) (request : TransactionRequest)
  (password : string) (type : TransactionType) : result Transaction :=
  Keys.rethrow "Failed to create transaction"
    (wallet ← loadWallet (req_from request) password;
     let transaction := unsignedTransaction now request type in
     signature ← signMessage transaction (privateKey wallet);
     Ok (mkTransaction (tx_id transaction) (tx_type transaction)
                       (tx_from transaction) (tx_to transaction)
                       (tx_amount transaction) (tx_fee transaction)
                       (tx_timestamp transaction) (Some signature)
                       (tx_data transaction) (tx_nonce transaction))).

End Service.

End Wallet.

(* ===================================================================== *)
(** * Peer-to-peer service ([class P2PService])                           *)
(* ===================================================================== *)

Module P2P.

Inductive MessageType :=
| HANDSHAKE | DISCONNECT | GET_PEERS | PEERS | GET_BLOCKS | BLOCKS
| GET_TRANSACTIONS | TRANSACTIONS | NEW_BLOCK | NEW_TRANSACTION.

Record Peer := mkPeer {
  id : string;
  ip : string;
  port : Z;
  lastSeen : Z;
  version : string;
  capabilities : list string
}.

Record NodeConfig := mkNodeConfig {
  p2pPort : Z;
  rpcPort : Z;
  apiPort : Z;
  dataDir : string;
  networkId : string;
  logLevel : string;
  enableApi : bool;
  enableDiscovery : bool;
  maxPeers : Z;
  bootstrapNodes : list string
}.

(** The [data] of the messages that the handlers below read or send. *)
Inductive MessageData :=
| HandshakeData (nodeId version : string) (port : Z) (networkId : string)
| DisconnectData (reason : string)
| EmptyData
| PeersData (peers : list Peer).

Record P2PMessage := mkP2PMessage {
  type : MessageType;
  data : MessageData;
  from : string;
  timestamp : Z
}.

(** A WebSocket: its identity and [socket.remoteAddress]. *)
Record WebSocket := mkWebSocket {
  socket_id : nat;
  remoteAddress : option string
}.

#[export] Instance WebSocket_eq_dec : EqDecision WebSocket.
Proof. solve_decision. Defined.

Inductive P2PEvent :=
| peer_connected (peer : Peer)
| peer_disconnected (peer : Peer).

(** The fields of the service, what it has written to its sockets, the
    sockets it has closed and the events it has emitted. *)
Record P2PService := mkP2PService {
  peers : omap (WebSocket * Peer);
  nodeId : string;
  config : NodeConfig;
  sent : list (WebSocket * P2PMessage);
  closed : list WebSocket;
  emitted : list P2PEvent
}.

Definition with_peers (ps : omap (WebSocket * Peer)) (svc : P2PService)
  : P2PService :=
  mkP2PService ps (nodeId svc) (config svc) (sent svc) (closed svc) (emitted svc).

Definition sendMessage (socket : WebSocket) (message : P2PMessage)
  (svc : P2PService) : P2PService :=
  mkP2PService (peers svc) (nodeId svc) (config svc)
               (sent svc ++ [(socket, message)]) (closed svc) (emitted svc).

(** [socket.close()] *)
Definition close (socket : WebSocket) (svc : P2PService) : P2PService :=
  mkP2PService (peers svc) (nodeId svc) (config svc)
               (sent svc) (closed svc ++ [socket]) (emitted svc).

Definition emit (e : P2PEvent) (svc : P2PService) : P2PService :=
  mkP2PService (peers svc) (nodeId svc) (config svc)
               (sent svc) (closed svc) (emitted svc ++ [e]).

Definition new_P2PService (nodeId : string) (config : NodeConfig) : P2PService :=
  mkP2PService [] nodeId config [] [] [].

(** [handleHandshake(socket, message)] for a message whose [data] is a
    handshake; [now] is the clock. *)
Definition handleHandshake (now : Z) (socket : WebSocket)
  (nodeId' version' : string) (port' : Z) (networkId' : string)
  (svc : P2PService) : P2PService :=
  if negb (bool_decide (networkId' = networkId (config svc))) then
    let svc :=
      sendMessage socket
        (mkP2PMessage DISCONNECT (DisconnectData "Network ID mismatch")
                      (nodeId svc) now) svc in
    close socket svc
  else
    let peer :=
      mkPeer nodeId'
             (match remoteAddress socket with
              | Some a => if bool_decide (a = EmptyString) then "unknown" else a
              | None => "unknown"
              end)
             port' now version' [] in
    let svc := with_peers (oset nodeId' (socket, peer) (peers svc)) svc in
    let svc := emit (peer_connected peer) svc in
    sendMessage socket
      (mkP2PMessage GET_PEERS EmptyData (nodeId svc) now) svc.

(** The loop of [handleDisconnect]: the first entry that holds [socket]. *)
Fixpoint find_socket (socket : WebSocket) (ps : omap (WebSocket * Peer))
  : option (string * Peer) :=
  match ps with
  | [] => None
  | (peerId, (peerSocket, info)) :: rest =>
      if bool_decide (peerSocket = socket) then Some (peerId, info)
      else find_socket socket rest
  end.

(** [handleDisconnect(socket)], the listener of the socket's [close]. *)
Definition handleDisconnect (socket : WebSocket) (svc : P2PService)
  : P2PService :=
  match find_socket socket (peers svc) with
  | Some (peerId, info) =>
      emit (peer_disconnected info)
           (with_peers (odelete peerId (peers svc)) svc)
  | None => svc
  end.

(** [handlePeerDisconnect(socket, message)] *)
Definition handlePeerDisconnect (socket : WebSocket) (message : P2PMessage)
  (svc : P2PService) : P2PService :=
  let peerId := from message in
  let svc :=
    match oget peerId (peers svc) with
    | Some (_, peer) =>
        emit (peer_disconnected peer)
             (with_peers (odelete peerId (peers svc)) svc)
    | None => svc
    end in
  close socket svc.

(** [getPeers()] *)
Definition getPeers (svc : P2PService) : list Peer :=
  map snd (ovalues (peers svc)).

End P2P.

(** A node of the main network and the socket of a peer that connects. *)
Module Session.

(** The default configuration of the node. *)
Definition config : P2P.NodeConfig :=
  P2P.mkNodeConfig 30303 8545 3000 "./data" "aurum-mainnet" "info" true true 25
                   ["127.0.0.1:30304"; "127.0.0.1:30305"].

Definition node : P2P.P2PService := P2P.new_P2PService "aurum-18f" config.

Definition socket : P2P.WebSocket := P2P.mkWebSocket 1 None.

End Session.

(* ===================================================================== *)
(** * Stand-ins for the primitives                                        *)
(* ===================================================================== *)

(** The library functions [scrypt], AES-256 and [ecdsaSign] are parameters
    of the keystore and of the wallet.  The functions below are not those
    primitives: they are total functions of the same shape, used where a
    statement about all primitives is shown to have instances. *)
Module Stub.

(** A key of [keylen] bytes read off the password. *)
Definition scrypt (password : string) (salt : list Z) (keylen : nat)
  (N r p : Z) : result (list Z) :=
  Ok (firstn keylen (bytes_of_string password ++ repeat 0 keylen)%list).

(** A block of 16 bytes read off the key. *)
Definition aes256 (key block : list Z) : list Z :=
  repeat (nth 0 key 0 mod 256) 16.

Definition ecdsaSign (hash privateKey : list Z) : result (list Z * Z) :=
  Ok (repeat 7 64, 1).

Definition salt : list Z := repeat 17 32.
Definition iv : list Z := repeat 35 16.

Definition privateKey : string :=
  "1f1e1d1c1b1a191817161514131211100f0e0d0c0b0a09080706050403020100".

Definition password : string := "correct horse".

(** The file that [saveWallet] writes for the wallet of [aur1alice]. *)
Definition alice_file : Wallet.WalletFile :=
  match Keys.encryptPrivateKey scrypt aes256 salt iv privateKey password with
  | Ok (encryptedPrivateKey, options) =>
      Wallet.mkWalletFile "aur1alice" "02aa" encryptedPrivateKey "alice"
                          Scenario.t0 options
  | Throw _ =>
      Wallet.mkWalletFile "aur1alice" "02aa" EmptyString "alice" Scenario.t0
        (Keys.mkKeystoreOptions EmptyString
           (Keys.mkKdfparams 0 EmptyString 0 0 0) EmptyString
           (Keys.mkCipherparams EmptyString))
  end.

Definition walletDir : gmap string Wallet.WalletFile :=
  {[ "aur1alice" := alice_file ]}.

(** [aur1alice] asks for a transfer of 10 with fee 1 to [aur1bob]. *)
Definition request : Wallet.TransactionRequest :=
  Wallet.mkTransactionRequest "aur1alice" "aur1bob" 10 (Some (Number.of_Z 1)) None.

End Stub.

(* ===================================================================== *)
(** * Notions used in the statements                                      *)
(* ===================================================================== *)



Definition set_signature (s : option string) (tx : Transaction) : Transaction :=
  mkTransaction (tx_id tx) (tx_type tx) (tx_from tx) (tx_to tx) (tx_amount tx)
                (tx_fee tx) (tx_timestamp tx) s (tx_data tx) (tx_nonce tx).

(** The sequence counter of an address, 0 for an address without account. *)
Definition sequenceOf (st : Blockchain) (address : string) : Z :=
  match accounts st !! address with
  | Some account => acc_nonce account
  | None => 0
  end.

(** The account that [getOrCreateAccount] returns for an address. *)
Definition account_or_new (st : Blockchain) (address : string) : Account :=
  default (mkAccount address Number.zero 0 Number.zero) (accounts st !! address).

(** Lists of bytes. *)
Definition is_bytes (bs : list Z) : Prop :=
  Forall (fun b => 0 <= b < 256) bs.

(** Strings that [Buffer.toString("hex")] can return: an even number of
    lower-case hexadecimal digits. *)
Definition lower_hex_digit (c : ascii) : bool :=
  let n := Z.of_N (N_of_ascii c) in
  ((48 <=? n) && (n <=? 57)) || ((97 <=? n) && (n <=? 102)).

Fixpoint canonical_hex (s : string) : bool :=
  match s with
  | EmptyString => true
  | String a (String b rest) =>
      lower_hex_digit a && lower_hex_digit b && canonical_hex rest
  | String _ EmptyString => false
  end.

From Stdlib Require Import Sorted.

(* ===================================================================== *)
(** * The ledger, continued: queries and block production                 *)
(* ===================================================================== *)

(** [getBlockByIndex(index)] *)
Definition getBlockByIndex (st : Blockchain) (index : Z) : option Block :=
  if (index <? 0) || (Z.of_nat (length (chain st)) <=? index) then None
  else chain st !! Z.to_nat index.

(** The comparator [(a, b) => b.fee - a.fee]. *)
Definition comparefn (a b : Transaction) : number :=
  Number.sub (tx_fee b) (tx_fee a).

(** [array.sort((a, b) => b.fee - a.fee)].  The sort of an array is stable:
    with a comparator that orders the elements, as this one does when no
    fee is [NaN], its result is the arrangement in that order which keeps
    the order of the array among the elements that the comparator does not
    tell apart.  It is computed here by insertion from the right: an
    element passes the elements [y] with [comparefn(element, y) > 0]. *)
Fixpoint insert_by_fee (tx : Transaction) (sorted : list Transaction)
  : list Transaction :=
  match sorted with
  | [] => [tx]
  | y :: rest =>
      if Number.ltb Number.zero (comparefn tx y) then y :: insert_by_fee tx rest
      else tx :: y :: rest
  end.

Definition sort_by_fee (txs : list Transaction) : list Transaction :=
  fold_right insert_by_fee [] txs.

(** [selectTransactionsForBlock()] *)
Definition selectTransactionsForBlock (st : Blockchain) : list Transaction :=
  let sortedTransactions := sort_by_fee (pendingTransactions st) in
  firstn 100 sortedTransactions.

(** [createBlock(validatorAddress, signature)]: what the call returns or
    throws, and the ledger after it.  [now] is what the clock shows during
    the call and [nonce] the value of
    [Math.floor(Math.random() * 1000000)]. *)
Definition createBlock (now nonce : Z) (validatorAddress signature : string)
  (st : Blockchain) : result Block * Blockchain :=
  match getLatestBlock st with
  | None =>
      (Throw "TypeError: Cannot read properties of undefined (reading 'header')",
       st)
  | Some previousBlock =>
      let selectedTransactions := selectTransactionsForBlock st in
      let merkleRoot := Merkle.calculateMerkleRoot selectedTransactions in
      let header :=
        mkBlockHeader (index (header previousBlock) + 1)
                      (calculateBlockHash previousBlock) now merkleRoot
                      validatorAddress nonce in
      let newBlock := mkBlock header selectedTransactions (Some signature) in
      match addBlock now newBlock st with
      | Ok (true, st) => (Ok newBlock, addValidatorReward now validatorAddress st)
      | Ok (false, st) => (Throw "Failed to add block to chain", st)
      | Throw msg => (Throw msg, st)
      end
  end.

(** The ledgers that the methods of the class produce from the constructor
    ([restoreState], which installs any state, apart). *)
Inductive reachable (params : ChainParams) : Blockchain -> Prop :=
| reachable_new : reachable params (new_Blockchain params)
| reachable_addTransaction st tx :
    reachable params st -> reachable params (snd (addTransaction st tx))
| reachable_addBlock st now block accepted st' :
    reachable params st ->
    addBlock now block st = Ok (accepted, st') ->
    reachable params st'
| reachable_registerValidator st now address stake registered st' :
    reachable params st ->
    registerValidator now address stake st = Ok (registered, st') ->
    reachable params st'
| reachable_createBlock st now nonce validatorAddress signature :
    reachable params st ->
    reachable params (snd (createBlock now nonce validatorAddress signature st)).

(** Consecutive blocks: each one is one higher than the block before it and
    names the hash of that block's header. *)
Fixpoint linked (previous : Block) (rest : list Block) : Prop :=
  match rest with
  | [] => True
  | block :: rest' =>
      index (header block) = index (header previous) + 1
      /\ previousHash (header block) = calculateBlockHash previous
      /\ linked block rest'
  end.

(** A chain that starts at height 0 and is linked throughout. *)
Definition well_formed_chain (c : list Block) : Prop :=
  match c with
  | [] => False
  | genesis :: rest => index (header genesis) = 0 /\ linked genesis rest
  end.

(** The stake that the validator registry records for an address, 0 for an
    address that is not registered. *)
Definition validatorStake (st : Blockchain) (address : string) : number :=
  match getValidator st address with
  | Some v => val_stake v
  | None => Number.zero
  end.

(** The account of the staker after the three assignments of
    [processStakeTransaction]. *)
Definition staked_account (tx : Transaction) (st : Blockchain) : Blockchain :=
  update_account (tx_from tx) (fun a => set_nonce (acc_nonce a + 1) a)
    (update_account (tx_from tx)
       (fun a => set_stake (Number.add (stake a) (tx_amount tx)) a)
       (update_account (tx_from tx)
          (fun a => set_balance
                      (Number.sub (balance a)
                         (Number.add (tx_amount tx) (tx_fee tx))) a)
          (getOrCreateAccount (tx_from tx) st))).


(** What the processing of transactions leaves alone: the chain, the pool
    and the parameters. *)
Definition same_frame (st st' : Blockchain) : Prop :=
  chain st' = chain st
  /\ pendingTransactions st' = pendingTransactions st
  /\ chainParams st' = chainParams st.

(** Every validator of [st] is still registered in [st'], with the same
    record of produced blocks. *)
Definition validators_kept (st st' : Blockchain) : Prop :=
  forall a v,
    getValidator st a = Some v ->
    exists v',
      getValidator st' a = Some v'
      /\ lastBlockValidated v' = lastBlockValidated v
      /\ totalBlocksValidated v' = totalBlocksValidated v.

(** The order in which [selectTransactionsForBlock] arranges the pool: the
    earlier transaction pays at least the fee of the later one. *)
Definition fee_ge (a b : Transaction) : Prop :=
  Number.leb (tx_fee b) (tx_fee a) = true.

(** Lists of transactions none of which has the fee [NaN]. *)
Definition fees_are_numbers (txs : list Transaction) : Prop :=
  Forall (fun tx => tx_fee tx <> Number.NaN) txs.

(** The transactions of a list that pay the fee [f], in their order. *)
Definition with_fee (f : number) (txs : list Transaction) : list Transaction :=
  List.filter (fun tx => Number.eqb (tx_fee tx) f) txs.

(** Ledgers with a pool. *)
Module Backlog.

(** [Scenario.s2] with the transfer of [aur1alice] to [aur1bob] in the
    pool. *)
Definition pooled : Blockchain :=
  snd (addTransaction Scenario.s2 Scenario.pay_bob).

(** [pooled] after a block from the network with another transfer of
    [aur1alice]: the pooled transfer carries a sequence number that is
    used up. *)
Definition stale : Blockchain :=
  Scenario.state_of
    (addBlock Scenario.t0
       (Scenario.next_block pooled [Scenario.self_transfer]) pooled).

(** [Scenario.s2] with five transfers of [aur1alice] in the pool, of the
    fees 2, 5, 2, 7 and 5. *)
Definition crowded : Blockchain :=
  with_pendingTransactions
    [Scenario.transfer "a" "aur1bob" 1 2 0;
     Scenario.transfer "b" "aur1bob" 1 5 0;
     Scenario.transfer "c" "aur1bob" 1 2 0;
     Scenario.transfer "d" "aur1bob" 1 7 0;
     Scenario.transfer "e" "aur1bob" 1 5 0] Scenario.s2.

End Backlog.

(** A block in which every signature, the block's and those of its
    transactions, is replaced. *)
Definition resigned (sig : string) (sigs : Transaction -> string)
  (block : Block) : Block :=
  mkBlock (header block)
          (map (fun tx => set_signature (Some (sigs tx)) tx) (transactions block))
          (Some sig).

(** A block with other transactions under the same header and signature. *)
Definition with_transactions (txs : list Transaction) (block : Block) : Block :=
  mkBlock (header block) txs (signature block).

(* ===================================================================== *)
(** * Peer-to-peer service ([class P2PService]), continued                *)
(* ===================================================================== *)

Module Network.

(** [handleGetPeers(socket, message)]; [now] is the clock. *)
Definition handleGetPeers (now : Z) (socket : P2P.WebSocket)
  (svc : P2P.P2PService) : P2P.P2PService :=
  let peers := P2P.getPeers svc in
  P2P.sendMessage socket
    (P2P.mkP2PMessage P2P.PEERS (P2P.PeersData peers) (P2P.nodeId svc) now) svc.

(** [broadcast(message)]: the loop over [this.peers.values()]. *)
Definition broadcast (message : P2P.P2PMessage) (svc : P2P.P2PService)
  : P2P.P2PService :=
  fold_left (fun svc entry => P2P.sendMessage (fst entry) message svc)
            (ovalues (P2P.peers svc)) svc.

(** [stop()]: the loop over [this.peers.entries()], then
    [this.peers.clear()]; [now] is the clock. *)
Definition stop (now : Z) (svc : P2P.P2PService) : P2P.P2PService :=
  let svc :=
    fold_left
      (fun svc entry =>
         let socket := fst entry in
         let svc :=
           P2P.sendMessage socket
             (P2P.mkP2PMessage P2P.DISCONNECT
                (P2P.DisconnectData "Node shutting down") (P2P.nodeId svc) now)
             svc in
         P2P.close socket svc)
      (ovalues (P2P.peers svc)) svc in
  P2P.with_peers [] svc.

(** The services that the handlers produce from the constructor. *)
Inductive reachable (nodeId : string) (config : P2P.NodeConfig)
  : P2P.P2PService -> Prop :=
| reachable_new : reachable nodeId config (P2P.new_P2PService nodeId config)
| reachable_handleHandshake svc now socket nodeId' version port networkId :
    reachable nodeId config svc ->
    reachable nodeId config
      (P2P.handleHandshake now socket nodeId' version port networkId svc)
| reachable_handleDisconnect svc socket :
    reachable nodeId config svc ->
    reachable nodeId config (P2P.handleDisconnect socket svc)
| reachable_handlePeerDisconnect svc socket message :
    reachable nodeId config svc ->
    reachable nodeId config (P2P.handlePeerDisconnect socket message svc)
| reachable_handleGetPeers svc now socket :
    reachable nodeId config svc ->
    reachable nodeId config (handleGetPeers now socket svc)
| reachable_broadcast svc message :
    reachable nodeId config svc ->
    reachable nodeId config (broadcast message svc)
| reachable_stop svc now :
    reachable nodeId config svc ->
    reachable nodeId config (stop now svc).

(** The entries of the peer table: every peer is stored under its own id,
    and no id is stored twice. *)
Definition keyed_by_id (peers : omap (P2P.WebSocket * P2P.Peer)) : Prop :=
  Forall (fun entry => P2P.id (snd (snd entry)) = fst entry) peers
  /\ NoDup (okeys peers).

End Network.

(* ===================================================================== *)
(** * The node ([class NodeService])                                       *)
(* ===================================================================== *)

Module Node.

(** A call of [p2pService.broadcastBlock] or
    [p2pService.broadcastTransaction]. *)
Inductive Broadcast :=
| broadcastBlock (block : Block)
| broadcastTransaction (transaction : Transaction).

(** The ledger of the node, the address it validates for, and the
    broadcasts it has asked of its peer-to-peer service. *)
Record NodeService := mkNodeService {
  blockchain : Blockchain;
  validatorAddress : option string;
  broadcasts : list Broadcast
}.

Definition with_blockchain (st : Blockchain) (node : NodeService) : NodeService :=
  mkNodeService st (validatorAddress node) (broadcasts node).

Definition broadcast (b : Broadcast) (node : NodeService) : NodeService :=
  mkNodeService (blockchain node) (validatorAddress node) (broadcasts node ++ [b]).

(** The chain parameters that the constructor writes. *)
Definition chainParams_of (config : P2P.NodeConfig) : ChainParams :=
  mkChainParams (P2P.networkId config) 15000 5 1000 100000000 10000000 2016
                1609459200000.

(** [new NodeService(config)] *)
Definition new_NodeService (config : P2P.NodeConfig) : NodeService :=
  mkNodeService (new_Blockchain (chainParams_of config)) None [].

(** [handleNewBlock(block)]; an exception of [addBlock] is caught. *)
Definition handleNewBlock (now : Z) (block : Block) (node : NodeService)
  : NodeService :=
  match addBlock now block (blockchain node) with
  | Ok (true, st) => broadcast (broadcastBlock block) (with_blockchain st node)
  | Ok (false, st) => with_blockchain st node
  | Throw _ => node
  end.

(** [handleNewTransaction(transaction)] *)
Definition handleNewTransaction (transaction : Transaction) (node : NodeService)
  : NodeService :=
  match addTransaction (blockchain node) transaction with
  | (true, st) => broadcast (broadcastTransaction transaction) (with_blockchain st node)
  | (false, st) => with_blockchain st node
  end.

Section Services.

Variable scrypt : string -> list Z -> nat -> Z -> Z -> Z -> result (list Z).
Variable aes256 : list Z -> list Z -> list Z.
Variable ecdsaSign : list Z -> list Z -> result (list Z * Z).
Variable walletDir : gmap string Wallet.WalletFile.

(** [createTransaction(from, to, amount, fee, password)]: what the call
    returns or throws, and the node after it. *)
Definition createTransaction (now : Z) (from to : string) (amount fee : number)
  (password : string) (node : NodeService) : result Transaction * NodeService :=
  match Wallet.createTransaction scrypt aes256 ecdsaSign walletDir now
          (Wallet.mkTransactionRequest from to amount (Some fee) None)
          password REGULAR with
  | Throw msg => (Throw msg, node)
  | Ok transaction =>
      match addTransaction (blockchain node) transaction with
      | (true, st) =>
          (Ok transaction,
           broadcast (broadcastTransaction transaction) (with_blockchain st node))
      | (false, st) =>
          (Throw "Transaction validation failed", with_blockchain st node)
      end
  end.

(** [createStakeTransaction(from, amount, fee, password)], through
    [walletService.createStakeTransaction], which stakes to the sender. *)
Definition createStakeTransaction (now : Z) (from : string) (amount fee : number)
  (password : string) (node : NodeService) : result Transaction * NodeService :=
  match Wallet.createTransaction scrypt aes256 ecdsaSign walletDir now
          (Wallet.mkTransactionRequest from from amount (Some fee) None)
          password STAKE with
  | Throw msg => (Throw msg, node)
  | Ok transaction =>
      match addTransaction (blockchain node) transaction with
      | (true, st) =>
          (Ok transaction,
           broadcast (broadcastTransaction transaction) (with_blockchain st node))
      | (false, st) =>
          (Throw "Stake transaction validation failed", with_blockchain st node)
      end
  end.

(** [registerAsValidator(address, password)]; [startValidator] sets the
    timer of [tryValidateBlock]. *)
Definition registerAsValidator (now : Z) (address password : string)
  (node : NodeService) : bool * NodeService :=
  match Wallet.loadWallet scrypt aes256 walletDir address password with
  | Throw _ => (false, node)
  | Ok wallet =>
      let stake := getAddressStake (blockchain node) address in
      if Number.leb stake Number.zero then (false, node)
      else
        match registerValidator now address stake (blockchain node) with
        | Ok (true, st) =>
            (true, mkNodeService st (Some address) (broadcasts node))
        | Ok (false, st) => (false, with_blockchain st node)
        | Throw _ => (false, node)
        end
  end.

(** [signData(data, privateKey)]: [data] is given as its
    [JSON.stringify], which [signMessage] stringifies once more. *)
Definition signData (dataStr privateKey : string) : result string :=
  Keys.rethrow "Failed to sign message"
    (let messageStr := Json.str dataStr in
     let privateKeyBuffer := Keys.bytes_of_hex privateKey in
     signature ← Wallet.sign ecdsaSign messageStr privateKeyBuffer;
     Ok (hex_of_bytes signature)).

(** [tryValidateBlock(privateKey)], the body of the validator's timer;
    [random] is the draw of [selectValidator], [now] the clock and [nonce]
    the nonce that [createBlock] draws.  Every exception is caught. *)
Definition tryValidateBlock (random : number) (now nonce : Z) (privateKey : string)
  (node : NodeService) : NodeService :=
  match validatorAddress node with
  | None => node
  | Some address =>
      match selectValidator random (blockchain node) with
      | Throw _ => node
      | Ok selectedValidator =>
          if bool_decide (selectedValidator = address) then
            match getLatestBlock (blockchain node) with
            | None => node
            | Some latestBlock =>
                let blockData :=
                  "{" ++ Json.member "index"
                           (Json.number (index (header latestBlock) + 1))
                  ++ "," ++ Json.member "previousHash"
                              (Json.str (calculateBlockHash latestBlock))
                  ++ "," ++ Json.member "timestamp" (Json.number now)
                  ++ "," ++ Json.member "validator" (Json.str address)
                  ++ "}" in
                match signData blockData privateKey with
                | Throw _ => node
                | Ok signature =>
                    match createBlock now nonce address signature
                            (blockchain node) with
                    | (Ok newBlock, st) =>
                        broadcast (broadcastBlock newBlock) (with_blockchain st node)
                    | (Throw _, st) => with_blockchain st node
                    end
                end
            end
          else node
      end
  end.

(** The nodes that the methods above produce from the node [start]: from
    [new_NodeService config], or from a node whose ledger has been restored
    from the state file. *)
Inductive reachable (start : NodeService) : NodeService -> Prop :=
| reachable_start : reachable start start
| reachable_handleNewBlock node now block :
    reachable start node -> reachable start (handleNewBlock now block node)
| reachable_handleNewTransaction node transaction :
    reachable start node ->
    reachable start (handleNewTransaction transaction node)
| reachable_createTransaction node now from to amount fee password :
    reachable start node ->
    reachable start (snd (createTransaction now from to amount fee password node))
| reachable_createStakeTransaction node now from amount fee password :
    reachable start node ->
    reachable start (snd (createStakeTransaction now from amount fee password node))
| reachable_registerAsValidator node now address password :
    reachable start node ->
    reachable start (snd (registerAsValidator now address password node))
| reachable_tryValidateBlock node random now nonce privateKey :
    reachable start node ->
    reachable start (tryValidateBlock random now nonce privateKey node).

End Services.

End Node.

(** A wallet directory in which [aur1carol] has a file as well, and nodes
    around the ledgers of [Scenario]. *)
Module StubNode.

Definition walletDir : gmap string Wallet.WalletFile :=
  <["aur1carol" := Stub.alice_file]> Stub.walletDir.

(** What [loadWallet] returns for [aur1carol]. *)
Definition carol_wallet : Wallet.Wallet :=
  match Wallet.loadWallet Stub.scrypt Stub.aes256 walletDir "aur1carol"
                          Stub.password with
  | Ok wallet => wallet
  | Throw _ => Wallet.mkWallet EmptyString EmptyString EmptyString None 0
  end.

(** A node whose ledger is [Scenario.s4], where [aur1carol] has staked
    1500 and is registered with that stake. *)
Definition staked : Node.NodeService :=
  Node.mkNodeService Scenario.s4 None [].

(** A node whose ledger is [Scenario.s2], where [aur1alice] holds 100. *)
Definition funded : Node.NodeService :=
  Node.mkNodeService Scenario.s2 None [].

(** A node whose ledger is [Scenario.s3], and that node after the block
    with the stake of [aur1carol] has come in from the network. *)
Definition restored : Node.NodeService :=
  Node.mkNodeService Scenario.s3 None [].

Definition relayed : Node.NodeService :=
  Node.handleNewBlock Scenario.t0
    (Scenario.next_block Scenario.s3 [Scenario.carol_stakes]) restored.

(** A new node to which a block and a reward of the network are sent. *)
Definition fresh : Node.NodeService :=
  Node.handleNewTransaction Scenario.fund_alice
    (Node.handleNewBlock Scenario.t0
       (Scenario.next_block Scenario.s0 [Scenario.fund_alice])
       (Node.new_NodeService Session.config)).

End StubNode.

(** Services with peers: two peers on two sockets, and one socket that has
    sent two handshakes under two ids. *)
Module StubNetwork.

Definition socket2 : P2P.WebSocket := P2P.mkWebSocket 2 (Some "10.0.0.2").

Definition one_peer : P2P.P2PService :=
  P2P.handleHandshake Scenario.t0 Session.socket "peer-a" "0.1.0" 30303
                      "aurum-mainnet" Session.node.

Definition two_peers : P2P.P2PService :=
  P2P.handleHandshake Scenario.t0 socket2 "peer-b" "0.1.0" 30304
                      "aurum-mainnet" one_peer.

Definition two_ids : P2P.P2PService :=
  P2P.handleHandshake Scenario.t0 Session.socket "peer-b" "0.1.0" 30304
                      "aurum-mainnet" one_peer.

(** What [peer-a] is listed as. *)
Definition peer_a : P2P.Peer :=
  P2P.mkPeer "peer-a" "unknown" 30303 Scenario.t0 "0.1.0" [].

(** A [DISCONNECT] message that names [peer-a] as its sender. *)
Definition goodbye : P2P.P2PMessage :=
  P2P.mkP2PMessage P2P.DISCONNECT (P2P.DisconnectData "bye") "peer-a"
                   Scenario.t0.

End StubNetwork.

(* ===================================================================== *)
(** * Wallet service, continued: keys and wallet files                    *)
(* ===================================================================== *)

Module WalletStore.

Section Service.

Variable scrypt : string -> list Z -> nat -> Z -> Z -> Z -> result (list Z).
Variable aes256 : list Z -> list Z -> list Z.

(** [secp256k1.publicKeyCreate(privateKey)] after
    [secp256k1.privateKeyVerify(privateKey)]: the public key, or an
    exception for bytes that are no private key. *)
Variable publicKeyCreate : list Z -> result (list Z).

(** [createHash("ripemd160").update(bytes).digest()] *)
Variable ripemd160 : list Z -> list Z.

(** [derivePublicKey(privateKey)] of [crypto/keys] *)
Definition derivePublicKey (privateKey : string) : result string :=
  Keys.rethrow "Failed to derive public key"
    (let privateKeyBuffer := Keys.bytes_of_hex privateKey in
     publicKey ← publicKeyCreate privateKeyBuffer;
     Ok (hex_of_bytes publicKey)).

(** [deriveAddress(publicKey)] of [crypto/keys] *)
Definition deriveAddress (publicKey : string) : string :=
  let publicKeyBuffer := Keys.bytes_of_hex publicKey in
  let sha256 := digest_bytes publicKeyBuffer in
  let ripemd160 := ripemd160 sha256 in
  "aur1" ++ hex_of_bytes ripemd160.

(** [wallet.name || wallet.address.substring(0, 8)] *)
Definition name_or_prefix (wallet : Wallet.Wallet) : string :=
  match Wallet.name wallet with
  | Some name =>
      if bool_decide (name = EmptyString)
      then String.substring 0 8 (Wallet.address wallet) else name
  | None => String.substring 0 8 (Wallet.address wallet)
  end.

(** [saveWallet(wallet, password)]: the wallet directory after the call,
    with the file of the wallet's address written or overwritten; [salt]
    and [iv] are the random bytes of [encryptPrivateKey]. *)
Definition saveWallet (salt iv : list Z) (wallet : Wallet.Wallet)
  (password : string) (walletDir : gmap string Wallet.WalletFile)
  : result (gmap string Wallet.WalletFile) :=
  Keys.rethrow "Failed to save wallet"
    (encrypted ← Keys.encryptPrivateKey scrypt aes256 salt iv
                   (Wallet.privateKey wallet) password;
     let encryptedWallet :=
       Wallet.mkWalletFile (Wallet.address wallet) (Wallet.publicKey wallet)
                           (fst encrypted) (name_or_prefix wallet)
                           (Wallet.createdAt wallet) (snd encrypted) in
     Ok (<[Wallet.address wallet := encryptedWallet]> walletDir)).

(** [importWallet(privateKey, name, password)]: the wallet it returns and
    the wallet directory after the call; [now] is the clock. *)
Definition importWallet (now : Z) (salt iv : list Z)
  (privateKey name password : string)
  (walletDir : gmap string Wallet.WalletFile)
  : result (Wallet.Wallet * gmap string Wallet.WalletFile) :=
  Keys.rethrow "Failed to import wallet"
    (publicKey ← derivePublicKey privateKey;
     let address := deriveAddress publicKey in
     let wallet := Wallet.mkWallet address publicKey privateKey (Some name) now in
     walletDir ← saveWallet salt iv wallet password walletDir;
     Ok (wallet, walletDir)).

End Service.

End WalletStore.

(** Stand-ins for the key derivation. *)
Module StubKeys.

Definition publicKeyCreate (privateKey : list Z) : result (list Z) :=
  match privateKey with
  | [] => Throw "Expected private key to be an Uint8Array with length 32"
  | _ => Ok [2; 170]
  end.

Definition ripemd160 (bytes : list Z) : list Z := repeat 9 20.

End StubKeys.

(** Whether [tx] raises the sequence number of [address] when it is
    processed: a transfer, a stake or an unstake that [address] sends. *)
Definition sent_by (address : string) (tx : Transaction) : Z :=
  match tx_type tx with
  | REGULAR | STAKE | UNSTAKE =>
      if decide (tx_from tx = address) then 1 else 0
  | REWARD | CONTRACT_DEPLOY | CONTRACT_CALL => 0
  end.

Definition sentBy (address : string) (txs : list Transaction) : Z :=
  fold_right (fun tx sum => sent_by address tx + sum) 0 txs.

(** The ledgers that the methods of the class produce from the ledger
    [st]. *)
Inductive evolves (st : Blockchain) : Blockchain -> Prop :=
| evolves_refl : evolves st st
| evolves_addTransaction st1 tx :
    evolves st st1 -> evolves st (snd (addTransaction st1 tx))
| evolves_addBlock st1 now block accepted st2 :
    evolves st st1 ->
    addBlock now block st1 = Ok (accepted, st2) ->
    evolves st st2
| evolves_registerValidator st1 now address stake registered st2 :
    evolves st st1 ->
    registerValidator now address stake st1 = Ok (registered, st2) ->
    evolves st st2
| evolves_createBlock st1 now nonce validatorAddress signature :
    evolves st st1 ->
    evolves st (snd (createBlock now nonce validatorAddress signature st1)).

(** The ledger with other chain parameters. *)
Definition with_chainParams (params : ChainParams) (st : Blockchain) : Blockchain :=
  mkBlockchain (chain st) (pendingTransactions st) (validators st) (accounts st)
               params (emitted st).

(** The result of a call on the ledger with other chain parameters. *)
Definition result_with_chainParams (params : ChainParams)
  (r : result (bool * Blockchain)) : result (bool * Blockchain) :=
  match r with
  | Ok (b, st) => Ok (b, with_chainParams params st)
  | Throw msg => Throw msg
  end.

(** The parameters of a test network. *)
Module Testnet.

Definition params : ChainParams :=
  mkChainParams "aurum-testnet" 1000 5 1000 21 0 1 1609459200000.

End Testnet.

(** Closed equations are left to the virtual machine. *)
Ltac by_evaluation := vm_compute; reflexivity.

(* ===================================================================== *)
(** * Facts about numbers                                                 *)
(* ===================================================================== *)

Example number_rounding :
  Number.toString (Number.add Scenario.draw_01 (Number.of_ratio false 2 10))
  = "0.30000000000000004"
  /\ Number.add (Number.of_Z (2 ^ 53)) (Number.of_Z 1) = Number.of_Z (2 ^ 53)
  /\ Number.add (Number.of_Z (2 ^ 53)) (Number.of_Z 2) = Number.of_Z (2 ^ 53 + 2)
  /\ Number.of_Z (2 ^ 53 + 1) = Number.of_Z (2 ^ 53)
  /\ Number.of_Z (2 ^ 53 + 3) = Number.of_Z (2 ^ 53 + 4)
  /\ Number.mul (Number.of_Z 3) Scenario.draw_01
     = Number.of_ratio false 30000000000000004 100000000000000000
  /\ Number.sub Wallet.defaultFee Wallet.defaultFee = Number.zero
  /\ Number.of_ratio false 1 (2 ^ 1075) = Number.Zero false
  /\ Number.of_ratio false 3 (2 ^ 1075) = Number.Finite false 1 1
  /\ Number.of_Z (2 ^ 1024) = Number.Infinity false
  /\ Number.sub (Number.Infinity false) (Number.Infinity false) = Number.NaN.
Proof. split_and!; by_evaluation. Qed.

(** On all pairs of the sample numbers, the sum, the difference, the
    product and the comparisons are those of the Standard Library's
    specification of IEEE 754 for the format binary64. *)
Example number_operations_agree_with_SpecFloat :
  forallb
    (fun xy =>
       let x := fst xy in
       let y := snd xy in
       bool_decide (Number.of_spec (SFadd 53 1024 (Number.to_spec x) (Number.to_spec y))
                    = Number.add x y)
       && bool_decide (Number.of_spec (SFsub 53 1024 (Number.to_spec x) (Number.to_spec y))
                       = Number.sub x y)
       && bool_decide (Number.of_spec (SFmul 53 1024 (Number.to_spec x) (Number.to_spec y))
                       = Number.mul x y)
       && Bool.eqb (SFltb (Number.to_spec x) (Number.to_spec y)) (Number.ltb x y)
       && Bool.eqb (SFleb (Number.to_spec x) (Number.to_spec y)) (Number.leb x y)
       && Bool.eqb (SFeqb (Number.to_spec x) (Number.to_spec y)) (Number.eqb x y))
    (list_prod Number.samples Number.samples)
  = true
  /\ length (list_prod Number.samples Number.samples) = 400%nat.
Proof. split; by_evaluation. Qed.

Example number_toString :
  map Number.toString
      [Number.of_Z 0; Number.of_Z 100; Number.of_Z (-89); Wallet.defaultFee;
       Number.of_ratio false 3 2; Number.of_Z (10 ^ 21);
       Number.of_Z 123456789012345680000; Number.of_ratio false 1 10000000;
       Number.of_ratio true 1234 1000000000; Number.of_Z (2 ^ 53);
       Number.Finite false 1 0; Number.NaN; Number.Infinity true]
  = ["0"; "100"; "-89"; "0.001"; "1.5"; "1e+21"; "123456789012345680000";
     "1e-7"; "-0.000001234"; "9007199254740992"; "5e-324"; "NaN"; "-Infinity"]
  /\ map Number.stringify [Number.of_Z 5; Number.NaN; Number.Infinity false]
     = ["5"; "null"; "null"].
Proof. split; by_evaluation. Qed.

Module NumberFacts.
Import Number.

Lemma normalize_spec (p : positive) (e : Z) :
  Z.pos p = Z.pos (fst (normalize p e)) * 2 ^ (snd (normalize p e) - e)
  /\ e <= snd (normalize p e).
Proof.
  revert e. induction p as [p IH|p IH|]; intros e; cbn [normalize fst snd].
  - rewrite Z.sub_diag. cbn. lia.
  - destruct (IH (e + 1)) as [Hv He]. split; [|lia].
    replace (snd (normalize p (e + 1)) - e)
      with (Z.succ (snd (normalize p (e + 1)) - (e + 1))) by lia.
    rewrite Z.pow_succ_r by lia. lia.
  - rewrite Z.sub_diag. cbn. lia.
Qed.

Lemma finite_shift (negative : bool) (p : positive) (k e : Z) :
  0 <= k ->
  finite negative (Z.pos p * 2 ^ k) e = finite negative (Z.pos p) (e + k).
Proof.
  intros Hk. revert p e. pattern k. apply natlike_ind; [| |exact Hk].
  - intros p e. rewrite Z.mul_1_r, Z.add_0_r. reflexivity.
  - intros k' Hk' IH p e. rewrite Z.pow_succ_r by lia.
    replace (Z.pos p * (2 * 2 ^ k')) with (Z.pos p~0 * 2 ^ k') by lia.
    rewrite IH. cbn [finite normalize].
    replace (e + k' + 1) with (e + Z.succ k') by lia. reflexivity.
Qed.

Lemma log2_le_53 (p : positive) :
  Z.pos p <= 2 ^ 53 -> Z.log2 (Z.pos p) <= 53.
Proof.
  intros Hp. apply Z.log2_le_mono in Hp.
  rewrite Z.log2_pow2 in Hp by lia. exact Hp.
Qed.

Lemma log2_bounds (p : positive) :
  2 ^ Z.log2 (Z.pos p) <= Z.pos p < 2 ^ (Z.log2 (Z.pos p) + 1)
  /\ 0 <= Z.log2 (Z.pos p).
Proof.
  pose proof (Z.log2_spec (Z.pos p) ltac:(lia)) as H.
  pose proof (Z.log2_nonneg (Z.pos p)).
  replace (Z.succ (Z.log2 (Z.pos p))) with (Z.log2 (Z.pos p) + 1) in H by lia.
  lia.
Qed.

Lemma floor_log2_integer (p : positive) : floor_log2 p 1 = Z.log2 (Z.pos p).
Proof.
  destruct (log2_bounds p) as [[Hlo Hhi] H0].
  unfold floor_log2, ge_pow2. change (Z.log2 1) with 0. rewrite Z.sub_0_r.
  rewrite (Z.max_r 0 _), (Z.max_l 0 (- _)) by lia.
  change (2 ^ 0) with 1.
  destruct (Z.leb_spec (1 * 2 ^ Z.log2 (Z.pos p)) (Z.pos p * 1)); [reflexivity | lia].
Qed.

Lemma nearest_integer (num : Z) : nearest num 1 = num.
Proof.
  unfold nearest. rewrite Z.div_1_r, Z.mod_1_r. reflexivity.
Qed.

(** An integer up to [2^53] is the number nearest to it. *)
Lemma of_ratio_integer (negative : bool) (p : positive) :
  Z.pos p <= 2 ^ 53 ->
  of_ratio negative p 1 = finite negative (Z.pos p) 0.
Proof.
  intros Hp. destruct (log2_bounds p) as [[Hlo Hhi] H0].
  pose proof (log2_le_53 p Hp) as HL.
  unfold of_ratio. rewrite floor_log2_integer.
  set (L := Z.log2 (Z.pos p)) in *.
  destruct (Z.eq_dec L 53) as [E|NE].
  - assert (Z.pos p = 2 ^ 53) by (rewrite E in Hlo; lia).
    rewrite E. replace p with (Z.to_pos (2 ^ 53)) by lia.
    vm_compute. reflexivity.
  - rewrite (Z.max_l (L - 52) (-1074)) by lia.
    rewrite (Z.max_r 0 (- (L - 52))) by lia.
    rewrite (Z.max_l 0 (L - 52)) by lia.
    change (1 * 2 ^ 0) with 1. rewrite nearest_integer.
    rewrite finite_shift by lia. f_equal. lia.
Qed.

Lemma of_Z_pos (p : positive) :
  Z.pos p <= 2 ^ 53 -> of_Z (Z.pos p) = finite false (Z.pos p) 0.
Proof.
  intros Hp. unfold of_Z, of_dyadic. cbn [Z.max Z.opp Z.compare].
  change (2 ^ 0) with 1. rewrite Z.mul_1_r. cbn [Z.to_pos].
  now apply of_ratio_integer.
Qed.

Lemma of_Z_neg (p : positive) :
  Z.pos p <= 2 ^ 53 -> of_Z (Z.neg p) = finite true (Z.pos p) 0.
Proof.
  intros Hp. unfold of_Z, of_dyadic. cbn [Z.max Z.opp Z.compare].
  change (2 ^ 0) with 1. rewrite Z.mul_1_r. cbn [Z.to_pos].
  now apply of_ratio_integer.
Qed.

(** The form of the number of an integer. *)
Lemma finite_view (negative : bool) (p : positive) :
  Z.pos p <= 2 ^ 53 ->
  exists m e,
    finite negative (Z.pos p) 0 = Finite negative m e
    /\ Z.pos m * 2 ^ (Z.of_N e - 1074) = Z.pos p
    /\ 1074 <= Z.of_N e.
Proof.
  intros Hp. unfold finite.
  destruct (normalize_spec p 0) as [Hv He].
  destruct (normalize p 0) as [m e'] eqn:E. cbn [fst snd] in Hv, He.
  rewrite Z.sub_0_r in Hv.
  assert (Z.log2 (Z.pos m) + e' = Z.log2 (Z.pos p)) as Hlog.
  { rewrite Hv. rewrite Z.log2_mul_pow2 by lia. lia. }
  pose proof (log2_le_53 p Hp).
  destruct (Z.leb_spec 1024 (Z.log2 (Z.pos m) + e')); [lia |].
  exists m, (Z.to_N (e' + 1074)). split; [reflexivity |].
  rewrite Z2N.id by lia. split; [|lia].
  replace (e' + 1074 - 1074) with e' by lia. lia.
Qed.

Lemma of_Z_view (a : Z) :
  safe a -> a <> 0 ->
  exists m e,
    of_Z a = Finite (a <? 0) m e
    /\ signed (a <? 0) m * 2 ^ (Z.of_N e - 1074) = a
    /\ 1074 <= Z.of_N e.
Proof.
  unfold safe. intros Hs Ha. destruct a as [|p|p]; [congruence | |].
  - rewrite of_Z_pos by lia.
    destruct (finite_view false p ltac:(lia)) as (m & e & -> & Hv & He).
    exists m, e. cbn. auto.
  - rewrite of_Z_neg by lia.
    destruct (finite_view true p ltac:(lia)) as (m & e & -> & Hv & He).
    exists m, e. cbn [Z.ltb Z.compare signed]. split_and!; auto.
    change (Z.neg m) with (- Z.pos m). lia.
Qed.

(** A multiple of a power of two with a natural exponent is rounded as the
    integer that it is. *)
Lemma of_dyadic_integer (M e : Z) :
  0 <= e -> of_dyadic M e = of_Z (M * 2 ^ e).
Proof.
  intros He. assert (0 < 2 ^ e) by (apply Z.pow_pos_nonneg; lia).
  unfold of_Z. destruct M as [|p|p]; [reflexivity | |].
  - destruct (Z.pos p * 2 ^ e) as [|q|q] eqn:E; try lia.
    unfold of_dyadic. rewrite (Z.max_r 0 e), (Z.max_l 0 (- e)) by lia.
    rewrite E. cbn [Z.max Z.opp Z.compare]. change (2 ^ 0) with 1.
    now rewrite Z.mul_1_r.
  - destruct (Z.neg p * 2 ^ e) as [|q|q] eqn:E; try lia.
    unfold of_dyadic. rewrite (Z.max_r 0 e), (Z.max_l 0 (- e)) by lia.
    replace (Z.pos p * 2 ^ e) with (Z.pos q) by lia.
    cbn [Z.max Z.opp Z.compare]. change (2 ^ 0) with 1.
    now rewrite Z.mul_1_r.
Qed.

Lemma pow_split (a b : N) :
  2 ^ Z.of_N (a - N.min a b) * 2 ^ (Z.of_N (N.min a b) - 1074)
  = 2 ^ (Z.of_N a - 1074) \/ Z.of_N (N.min a b) < 1074.
Proof.
  destruct (Z.le_gt_cases 1074 (Z.of_N (N.min a b))); [left | now right].
  rewrite <- Z.pow_add_r by lia. f_equal. lia.
Qed.

(** The sum of two integers up to [2^53] is the number nearest to their
    sum. *)
Lemma add_of_Z (a b : Z) :
  safe a -> safe b -> add (of_Z a) (of_Z b) = of_Z (a + b).
Proof.
  intros Ha Hb.
  destruct (Z.eq_dec a 0) as [->|Na].
  { destruct (Z.eq_dec b 0) as [->|Nb]; [reflexivity |].
    destruct (of_Z_view b Hb Nb) as (m & e & E & _).
    change (0 + b) with b. rewrite E. reflexivity. }
  destruct (of_Z_view a Ha Na) as (m1 & e1 & E1 & V1 & L1).
  destruct (Z.eq_dec b 0) as [->|Nb].
  { rewrite E1, Z.add_0_r, E1. reflexivity. }
  destruct (of_Z_view b Hb Nb) as (m2 & e2 & E2 & V2 & L2).
  rewrite E1, E2. cbn [add]. unfold exponent.
  rewrite of_dyadic_integer by lia. f_equal.
  rewrite Z.mul_add_distr_r.
  rewrite <- !Z.mul_assoc.
  destruct (pow_split e1 e2) as [->|]; [|lia].
  rewrite (N.min_comm e1 e2).
  destruct (pow_split e2 e1) as [->|]; [|lia].
  lia.
Qed.

Lemma opp_of_Z (a : Z) : safe a -> a <> 0 -> opp (of_Z a) = of_Z (- a).
Proof.
  intros Ha Na. unfold safe in Ha.
  destruct a as [|p|p]; [congruence | |].
  - change (- Z.pos p) with (Z.neg p).
    rewrite of_Z_pos, of_Z_neg by lia.
    unfold finite. destruct (normalize p 0) as [m' e'].
    now destruct (1024 <=? _).
  - change (- Z.neg p) with (Z.pos p).
    rewrite of_Z_pos, of_Z_neg by lia.
    unfold finite. destruct (normalize p 0) as [m' e'].
    now destruct (1024 <=? _).
Qed.

(** The difference of two integers up to [2^53] is the number nearest to
    their difference. *)
Lemma sub_of_Z (a b : Z) :
  safe a -> safe b -> sub (of_Z a) (of_Z b) = of_Z (a - b).
Proof.
  intros Ha Hb. unfold sub.
  destruct (Z.eq_dec b 0) as [->|Nb].
  - rewrite Z.sub_0_r. change (opp (of_Z 0)) with (Zero true).
    destruct (Z.eq_dec a 0) as [->|Na]; [reflexivity |].
    destruct (of_Z_view a Ha Na) as (m & e & -> & _). reflexivity.
  - rewrite opp_of_Z by assumption.
    rewrite add_of_Z; [f_equal; lia | assumption | unfold safe in *; lia].
Qed.

Lemma compare_scaled (x y k : Z) : 0 < k -> (x * k ?= y * k) = (x ?= y).
Proof.
  intros Hk. destruct (Z.compare_spec x y) as [->| |].
  - apply Z.compare_refl.
  - apply Z.compare_lt_iff. nia.
  - apply Z.compare_gt_iff. nia.
Qed.

(** Integers up to [2^53] are compared as integers. *)
Lemma compare_of_Z (a b : Z) :
  safe a -> safe b -> compare (of_Z a) (of_Z b) = Some (a ?= b).
Proof.
  intros Ha Hb.
  destruct (Z.eq_dec a 0) as [->|Na].
  { destruct (Z.eq_dec b 0) as [->|Nb]; [reflexivity |].
    destruct (of_Z_view b Hb Nb) as (m & e & E & _). rewrite E.
    change (of_Z 0) with (Zero false). cbn [compare].
    destruct b; try congruence; reflexivity. }
  destruct (of_Z_view a Ha Na) as (m1 & e1 & E1 & V1 & L1).
  destruct (Z.eq_dec b 0) as [->|Nb].
  { rewrite E1. change (of_Z 0) with (Zero false). cbn [compare].
    destruct a; try congruence; reflexivity. }
  destruct (of_Z_view b Hb Nb) as (m2 & e2 & E2 & V2 & L2).
  rewrite E1, E2. cbn [compare]. f_equal.
  rewrite <- V1 at 2. rewrite <- V2 at 2.
  destruct (pow_split e1 e2) as [<-|]; [|lia].
  rewrite (N.min_comm e1 e2) at 3.
  destruct (pow_split e2 e1) as [<-|]; [|lia].
  rewrite (N.min_comm e2 e1).
  rewrite !Z.mul_assoc.
  symmetry. apply compare_scaled.
  apply Z.pow_pos_nonneg; lia.
Qed.

Lemma ltb_of_Z (a b : Z) :
  safe a -> safe b -> ltb (of_Z a) (of_Z b) = (a <? b).
Proof.
  intros Ha Hb. unfold ltb. rewrite compare_of_Z by assumption.
  unfold Z.ltb. now destruct (a ?= b).
Qed.

Lemma leb_of_Z (a b : Z) :
  safe a -> safe b -> leb (of_Z a) (of_Z b) = (a <=? b).
Proof.
  intros Ha Hb. unfold leb. rewrite compare_of_Z by assumption.
  unfold Z.leb. now destruct (a ?= b).
Qed.

Lemma eqb_of_Z (a b : Z) :
  safe a -> safe b -> eqb (of_Z a) (of_Z b) = (a =? b).
Proof.
  intros Ha Hb. unfold eqb. rewrite compare_of_Z by assumption.
  destruct (Z.eqb_spec a b) as [->|Hne].
  - now rewrite Z.compare_refl.
  - destruct (a ?= b) eqn:E; try reflexivity.
    apply Z.compare_eq in E. contradiction.
Qed.

(** ** The order of the numbers *)

Lemma pow_N_split (a b : N) :
  2 ^ Z.of_N (a - N.min a b) * 2 ^ Z.of_N (N.min a b) = 2 ^ Z.of_N a.
Proof. rewrite <- Z.pow_add_r by lia. f_equal. lia. Qed.

Lemma signed_sign (a : bool) (m : positive) (e : N) :
  if a then signed a m * 2 ^ Z.of_N e < 0 else 0 < signed a m * 2 ^ Z.of_N e.
Proof.
  assert (0 < 2 ^ Z.of_N e) by (apply Z.pow_pos_nonneg; lia).
  destruct a; cbn [signed]; nia.
Qed.

Lemma compare_Finite (a b : bool) (m1 m2 : positive) (e1 e2 : N) :
  compare (Finite a m1 e1) (Finite b m2 e2)
  = Some (scaled (Finite a m1 e1) ?= scaled (Finite b m2 e2)).
Proof.
  cbn [compare scaled]. f_equal.
  rewrite <- (pow_N_split e1 e2), <- (pow_N_split e2 e1).
  rewrite (N.min_comm e2 e1), !Z.mul_assoc.
  symmetry. apply compare_scaled. apply Z.pow_pos_nonneg; lia.
Qed.

Ltac pick_order :=
  solve [ left; split; [reflexivity | lia]
        | right; left; split; [reflexivity | lia]
        | right; right; split; [reflexivity | lia] ].

Lemma compare_spec (x y : number) :
  x <> NaN -> y <> NaN ->
  (compare x y = Some Lt /\ before x y)
  \/ (compare x y = Some Eq /\ level x y)
  \/ (compare x y = Some Gt /\ before y x).
Proof.
  intros Hx Hy. unfold before, level.
  destruct x as [|a|a|a m1 e1], y as [|b|b|b m2 e2]; try congruence;
    try (destruct a; cbn; pick_order);
    try (destruct b; cbn; pick_order);
    try (destruct a, b; cbn; pick_order).
  all: try (pose proof (signed_sign b m2 e2);
            destruct b; cbn [compare tier scaled] in *; pick_order).
  all: try (pose proof (signed_sign a m1 e1);
            destruct a; cbn [compare tier scaled] in *; pick_order).
  rewrite compare_Finite. cbn [tier].
  destruct (Z.compare_spec (scaled (Finite a m1 e1)) (scaled (Finite b m2 e2)));
    pick_order.
Qed.

Lemma ltb_before (x y : number) :
  x <> NaN -> y <> NaN -> ltb x y = true <-> before x y.
Proof.
  intros Hx Hy. unfold ltb.
  destruct (compare_spec x y Hx Hy) as [[-> H]|[[-> H]|[-> H]]];
    unfold before, level in *; intuition (try discriminate; lia).
Qed.

Lemma leb_not_before (x y : number) :
  x <> NaN -> y <> NaN -> leb x y = true <-> ~ before y x.
Proof.
  intros Hx Hy. unfold leb.
  destruct (compare_spec x y Hx Hy) as [[-> H]|[[-> H]|[-> H]]];
    unfold before, level in *; intuition (try discriminate; lia).
Qed.

Lemma eqb_level (x y : number) :
  x <> NaN -> y <> NaN -> eqb x y = true <-> level x y.
Proof.
  intros Hx Hy. unfold eqb.
  destruct (compare_spec x y Hx Hy) as [[-> H]|[[-> H]|[-> H]]];
    unfold before, level in *; intuition (try discriminate; lia).
Qed.

(** ** The sign of a difference *)

Lemma ge_pow2_mono (n d a a' : Z) :
  0 < n -> 0 < d -> a' <= a -> ge_pow2 n d a = true -> ge_pow2 n d a' = true.
Proof.
  unfold ge_pow2. intros Hn Hd Ha H. apply Z.leb_le in H. apply Z.leb_le.
  assert (P : forall k, 0 <= k -> 0 < 2 ^ k) by (intros; apply Z.pow_pos_nonneg; lia).
  assert (M : forall j k, 0 <= j <= k -> 2 ^ j <= 2 ^ k)
    by (intros; apply Z.pow_le_mono_r; lia).
  destruct (Z.le_gt_cases 0 a'), (Z.le_gt_cases 0 a).
  - rewrite (Z.max_r 0 a), (Z.max_l 0 (- a)) in H by lia.
    rewrite (Z.max_r 0 a'), (Z.max_l 0 (- a')) by lia.
    pose proof (M a' a ltac:(lia)). pose proof (P a' ltac:(lia)).
    change (2 ^ 0) with 1 in *. nia.
  - lia.
  - rewrite (Z.max_r 0 a), (Z.max_l 0 (- a)) in H by lia.
    rewrite (Z.max_l 0 a'), (Z.max_r 0 (- a')) by lia.
    pose proof (P a ltac:(lia)). pose proof (P (- a') ltac:(lia)).
    change (2 ^ 0) with 1 in *. nia.
  - rewrite (Z.max_l 0 a), (Z.max_r 0 (- a)) in H by lia.
    rewrite (Z.max_l 0 a'), (Z.max_r 0 (- a')) by lia.
    pose proof (M (- a) (- a') ltac:(lia)).
    change (2 ^ 0) with 1 in *. nia.
Qed.

Lemma floor_log2_spec (n d : positive) :
  ge_pow2 (Z.pos n) (Z.pos d) (floor_log2 n d) = true.
Proof.
  unfold floor_log2.
  destruct (ge_pow2 _ _ (Z.log2 (Z.pos n) - Z.log2 (Z.pos d))) eqn:E;
    [exact E |].
  destruct (log2_bounds n) as [[Hn1 Hn2] Hn0].
  destruct (log2_bounds d) as [[Hd1 Hd2] Hd0].
  set (Ln := Z.log2 (Z.pos n)) in *. set (Ld := Z.log2 (Z.pos d)) in *.
  unfold ge_pow2. apply Z.leb_le.
  assert (P : forall k, 0 <= k -> 0 < 2 ^ k) by (intros; apply Z.pow_pos_nonneg; lia).
  destruct (Z.le_gt_cases 0 (Ln - Ld - 1)).
  - rewrite (Z.max_r 0 _), (Z.max_l 0 (- _)) by lia. change (2 ^ 0) with 1.
    assert (2 ^ (Ld + 1) * 2 ^ (Ln - Ld - 1) = 2 ^ Ln)
      by (rewrite <- Z.pow_add_r by lia; f_equal; lia).
    pose proof (P (Ln - Ld - 1) ltac:(lia)). nia.
  - rewrite (Z.max_l 0 _), (Z.max_r 0 (- _)) by lia. change (2 ^ 0) with 1.
    assert (2 ^ Ln * 2 ^ (- (Ln - Ld - 1)) = 2 ^ (Ld + 1))
      by (rewrite <- Z.pow_add_r by lia; f_equal; lia).
    pose proof (P (- (Ln - Ld - 1)) ltac:(lia)). nia.
Qed.

Lemma nearest_positive (num den : Z) :
  0 < den <= num -> 0 < nearest num den.
Proof.
  intros H. assert (0 < num / den) by (apply Z.div_str_pos; lia).
  unfold nearest. destruct (_ || _); lia.
Qed.

Lemma finite_positive (negative : bool) (M q : Z) :
  0 < M ->
  finite negative M q = Infinity negative
  \/ exists m e, finite negative M q = Finite negative m e.
Proof.
  intros HM. destruct M as [|p|p]; try lia. unfold finite.
  destruct (normalize p q) as [m e']. destruct (1024 <=? _); eauto.
Qed.

(** A ratio of at least [2^(-1074)] is not rounded to zero. *)
Lemma of_ratio_positive (negative : bool) (n d : positive) :
  Z.pos d <= Z.pos n * 2 ^ 1074 ->
  of_ratio negative n d = Infinity negative
  \/ exists m e, of_ratio negative n d = Finite negative m e.
Proof.
  intros H. unfold of_ratio. apply finite_positive, nearest_positive.
  pose proof (floor_log2_spec n d) as Hf.
  set (q := Z.max (floor_log2 n d - 52) (-1074)).
  assert (Hq : ge_pow2 (Z.pos n) (Z.pos d) q = true).
  { destruct (Z.max_spec (floor_log2 n d - 52) (-1074)) as [[_ E]|[_ E]];
      fold q in E; rewrite E.
    - unfold ge_pow2. apply Z.leb_le.
      change (Z.max 0 (-1074)) with 0. change (Z.max 0 (- -1074)) with 1074.
      change (2 ^ 0) with 1. lia.
    - apply (ge_pow2_mono _ _ (floor_log2 n d)); [lia | lia | lia | exact Hf]. }
  unfold ge_pow2 in Hq. apply Z.leb_le in Hq.
  split; [|exact Hq].
  apply Z.mul_pos_pos; [lia | apply Z.pow_pos_nonneg; lia].
Qed.

Lemma ltb_zero_finite (negative : bool) (M q : Z) :
  0 < M -> ltb zero (finite negative M q) = negb negative.
Proof.
  intros HM.
  destruct (finite_positive negative M q HM) as [->|(m & e & ->)];
    now destruct negative.
Qed.

Lemma ltb_zero_of_dyadic (M : Z) (e : N) :
  ltb zero (of_dyadic M (exponent e)) = (0 <? M).
Proof.
  assert (P : forall k, 0 <= k -> 0 < 2 ^ k) by (intros; apply Z.pow_pos_nonneg; lia).
  assert (H : forall negative p,
             ltb zero
               (of_ratio negative
                  (Z.to_pos (Z.pos p * 2 ^ Z.max 0 (exponent e)))
                  (Z.to_pos (2 ^ Z.max 0 (- exponent e))))
             = negb negative).
  { intros negative p.
    destruct (of_ratio_positive negative
                (Z.to_pos (Z.pos p * 2 ^ Z.max 0 (exponent e)))
                (Z.to_pos (2 ^ Z.max 0 (- exponent e)))) as [->|(m & e' & ->)];
      try now destruct negative.
    pose proof (P (Z.max 0 (exponent e)) ltac:(lia)).
    pose proof (P (Z.max 0 (- exponent e)) ltac:(lia)).
    rewrite !Z2Pos.id by nia.
    assert (2 ^ Z.max 0 (- exponent e) <= 2 ^ 1074)
      by (apply Z.pow_le_mono_r; unfold exponent; lia).
    pose proof (P 1074 ltac:(lia)). nia. }
  destruct M as [|p|p]; [reflexivity | apply H | apply H].
Qed.

(** The difference [y - x] is positive exactly when [x < y]. *)
Lemma ltb_zero_sub (x y : number) :
  x <> NaN -> y <> NaN -> ltb zero (sub y x) = ltb x y.
Proof.
  intros Hx Hy.
  destruct x as [|a|a|a m1 e1], y as [|b|b|b m2 e2]; try congruence;
    try (destruct a; reflexivity);
    try (destruct b; reflexivity);
    try (destruct a, b; reflexivity).
  unfold sub. cbn [opp add]. rewrite ltb_zero_of_dyadic.
  unfold ltb. cbn [compare]. rewrite (N.min_comm e2 e1).
  set (X := signed a m1 * 2 ^ Z.of_N (e1 - N.min e1 e2)).
  set (Y := signed b m2 * 2 ^ Z.of_N (e2 - N.min e1 e2)).
  replace (signed (negb a) m1 * 2 ^ Z.of_N (e1 - N.min e1 e2)) with (- X)
    by (unfold X; destruct a; cbn [signed negb]; lia).
  destruct (Z.compare_spec X Y); destruct (Z.ltb_spec 0 (Y + - X)); lia.
Qed.

End NumberFacts.

(* ===================================================================== *)
(** * Facts about the hash and the ordered maps                           *)
(* ===================================================================== *)

Example sha256_constants :
  length K = 64%nat /\ nth 0 K 0 = 0x428a2f98 /\ nth 63 K 0 = 0xc67178f2
  /\ nth 0 H0 0 = 0x6a09e667 /\ nth 7 H0 0 = 0x5be0cd19.
Proof. vm_compute. repeat split. Qed.

Example sha256_empty :
  sha256 EmptyString = "e3b0c44298fc1c149afbf4c8996fb92427ae41e4649b934ca495991b7852b855".
Proof. vm_compute. reflexivity. Qed.

Example sha256_abc :
  sha256 "abc" = "ba7816bf8f01cfea414140de5dae2223b00361a396177a9cb410ff61f20015ad".
Proof. vm_compute. reflexivity. Qed.

Example sha256_two_blocks :
  sha256 "abcdbcdecdefdefgefghfghighijhijkijkljklmklmnlmnomnopnopq"
  = "248d6a61d20638b8e5c026930c3e6039a33ce45964ff2167f6ecedd419db06c1".
Proof. vm_compute. reflexivity. Qed.

Section OMapFacts.
Context {V : Type}.
Implicit Types (m : omap V) (k : string) (v : V).

Lemma oget_oset_eq k v m : oget k (oset k v m) = Some v.
Proof.
  induction m as [|[k' v'] rest IH]; cbn.
  - destruct (decide (k = k)); congruence.
  - destruct (decide (k = k')) as [->|Hne]; cbn.
    + destruct (decide (k' = k')); congruence.
    + destruct (decide (k = k')); [contradiction | exact IH].
Qed.

Lemma oget_oset_ne k k' v m : k <> k' -> oget k' (oset k v m) = oget k' m.
Proof.
  intros Hne. induction m as [|[k0 v0] rest IH]; cbn.
  - destruct (decide (k' = k)); congruence.
  - destruct (decide (k = k0)) as [->|Hk]; cbn.
    + destruct (decide (k' = k0)); congruence.
    + destruct (decide (k' = k0)); [reflexivity | exact IH].
Qed.

Lemma oget_Some_In k v m : oget k m = Some v -> In v (ovalues m).
Proof.
  induction m as [|[k' v'] rest IH]; cbn; [discriminate |].
  destruct (decide (k = k')); intros H.
  - left. congruence.
  - right. auto.
Qed.

Lemma oget_None_keys k m : oget k m = None <-> ~ In k (okeys m).
Proof.
  induction m as [|[k' v'] rest IH]; cbn; [tauto |].
  destruct (decide (k = k')) as [->|Hne].
  - split; [discriminate | tauto].
  - rewrite IH. split; [intros H [E|E]; [congruence | tauto] | tauto].
Qed.

End OMapFacts.

(* ===================================================================== *)
(** * Merkle root                                                         *)
(* ===================================================================== *)



Lemma calculateTransactionHash_signature (s : option string) (tx : Transaction) :
  Merkle.calculateTransactionHash (set_signature s tx)
  = Merkle.calculateTransactionHash tx.
Proof. reflexivity. Qed.




Example merkle_root_of_three :
  Merkle.calculateMerkleRoot
    [ mkTransaction "t1" REGULAR "alice" "bob" 10 1 1700000000000 (Some "sig") None 0;
      mkTransaction "t1" REGULAR "alice" "bob" 10 1 1700000000000 (Some "sig") None 1;
      mkTransaction "t1" REGULAR "alice" "bob" 10 1 1700000000000 (Some "sig") None 2 ]
  = "a8928042920f503199d2c4aafb89061e4639e3aa7c536a8344b34e573c5bc820".
Proof. vm_compute. reflexivity. Qed.

(* ===================================================================== *)
(** * Block and transaction validation                                    *)
(* ===================================================================== *)

Lemma getLatestBlock_nonempty (st : Blockchain) :
  chain st <> [] -> exists b, getLatestBlock st = Some b.
Proof.
  unfold getLatestBlock. intros Hne.
  destruct (chain st) as [|b0 rest] using rev_ind; [congruence |].
  exists b0. apply last_snoc.
Qed.

Lemma isValidBlock_returns (st : Blockchain) (block : Block) :
  chain st <> [] -> exists v, isValidBlock st block = Ok v.
Proof.
  intros Hne. destruct (getLatestBlock_nonempty st Hne) as [b Hb].
  unfold isValidBlock. rewrite Hb.
  repeat match goal with
         | |- context [if ?c then _ else _] => destruct c
         end; eauto.
Qed.

Lemma isValidBlock_transactions (st : Blockchain) (block : Block) :
  isValidBlock st block = Ok true ->
  forallb (isValidTransaction st) (transactions block) = true.
Proof.
  unfold isValidBlock. destruct (getLatestBlock st); [|discriminate].
  repeat match goal with
         | |- context [if ?c then _ else _] => destruct c
         end; congruence.
Qed.

Lemma addBlock_accepted_valid (now : Z) (block : Block) (st st' : Blockchain) :
  addBlock now block st = Ok (true, st') -> isValidBlock st block = Ok true.
Proof.
  unfold addBlock. destruct (isValidBlock st block) as [[|]|]; cbn; congruence.
Qed.

Lemma addBlock_invalid (now : Z) (block : Block) (st : Blockchain) :
  isValidBlock st block = Ok false -> addBlock now block st = Ok (false, st).
Proof. unfold addBlock. now intros ->. Qed.

(** A transaction that is not a reward of the network is only valid with
    the sequence number of its sender's account. *)
Lemma isValidTransaction_nonce (st : Blockchain) (tx : Transaction) :
  isNetworkReward tx = false ->
  isValidTransaction st tx = true ->
  exists sender, accounts st !! tx_from tx = Some sender
                 /\ tx_nonce tx = acc_nonce sender.
Proof.
  unfold isValidTransaction. intros ->.
  destruct (negb (verifyTransactionSignature tx)); [discriminate |].
  destruct (accounts st !! tx_from tx) as [sender|]; [|discriminate].
  destruct (negb _); [discriminate |].
  destruct (tx_nonce tx =? acc_nonce sender) eqn:E; [|discriminate].
  intros _. exists sender. split; [reflexivity | lia].
Qed.

(** ** Processing never throws on a chain that has a block *)

Lemma chain_update_account a f st : chain (update_account a f st) = chain st.
Proof. reflexivity. Qed.

Lemma chain_getOrCreateAccount a st : chain (getOrCreateAccount a st) = chain st.
Proof. unfold getOrCreateAccount. now destruct (accounts st !! a). Qed.

Lemma chain_update_validator a f st : chain (update_validator a f st) = chain st.
Proof. unfold update_validator. now destruct (oget a (validators st)). Qed.

Lemma chain_processRegularTransaction tx st :
  chain (processRegularTransaction tx st) = chain st.
Proof.
  unfold processRegularTransaction.
  now rewrite !chain_update_account, !chain_getOrCreateAccount.
Qed.

Lemma chain_processRewardTransaction tx st :
  chain (processRewardTransaction tx st) = chain st.
Proof.
  unfold processRewardTransaction.
  now rewrite chain_update_account, chain_getOrCreateAccount.
Qed.

Lemma chain_processUnstakeTransaction tx st :
  chain (processUnstakeTransaction tx st) = chain st.
Proof.
  unfold processUnstakeTransaction.
  destruct (ohas _ _); rewrite ?chain_update_validator;
    now rewrite !chain_update_account, chain_getOrCreateAccount.
Qed.

Lemma registerValidator_returns now a s st :
  chain st <> [] ->
  exists b st', registerValidator now a s st = Ok (b, st') /\ chain st' = chain st.
Proof.
  intros Hne. unfold registerValidator.
  destruct (Number.ltb s (minStake (chainParams st))); [now eauto |].
  destruct (ohas a (validators st)); cbn.
  - eexists _, _. split; [reflexivity |]. cbn. apply chain_update_validator.
  - unfold latestHeader.
    destruct (getLatestBlock_nonempty st Hne) as [b ->]. cbn.
    eexists _, _. split; reflexivity.
Qed.

Lemma processTransaction_returns now tx st :
  chain st <> [] ->
  exists st', processTransaction now tx st = Ok st' /\ chain st' = chain st.
Proof.
  intros Hne. unfold processTransaction.
  destruct (tx_type tx);
    eauto using chain_processRegularTransaction, chain_processRewardTransaction,
                chain_processUnstakeTransaction.
  unfold processStakeTransaction.
  match goal with
  | |- context [registerValidator ?n ?a ?s ?st0] =>
      destruct (registerValidator_returns n a s st0) as (b & st' & -> & Hc)
  end.
  - now rewrite !chain_update_account, chain_getOrCreateAccount.
  - cbn. exists st'. split; [reflexivity |].
    now rewrite Hc, !chain_update_account, chain_getOrCreateAccount.
Qed.

Lemma processTransactions_returns now txs st :
  chain st <> [] ->
  exists st', processTransactions now txs st = Ok st' /\ chain st' = chain st.
Proof.
  revert st. induction txs as [|tx txs IH]; intros st Hne; cbn; [now eauto |].
  destruct (processTransaction_returns now tx st Hne) as (st1 & -> & Hc). cbn.
  destruct (IH st1) as (st2 & -> & Hc2); [congruence |].
  exists st2. split; [reflexivity | congruence].
Qed.

(** [addBlock] returns whenever the chain has a block (as it has from the
    constructor on): the only exception is the read of the latest block of
    an empty chain, before anything is written. *)
Lemma addBlock_returns now block st :
  chain st <> [] -> exists b st', addBlock now block st = Ok (b, st').
Proof.
  intros Hne. unfold addBlock.
  destruct (isValidBlock_returns st block Hne) as [v ->]. cbn.
  destruct v; cbn; [|now eauto].
  unfold processBlockTransactions.
  match goal with
  | |- context [processTransactions ?n ?t ?s] =>
      destruct (processTransactions_returns n t s) as (st1 & -> & _)
  end.
  - cbn. now destruct (chain st).
  - cbn. eauto.
Qed.

(** C10: a block that [addBlock] rejects and a transaction that
    [addTransaction] rejects leave the ledger as it was: the chain, the
    accounts, the validators and the pending pool (and the emitted events)
    are those of the state before the call. *)
Theorem rejection_leaves_state_unchanged :
  (forall now block st st',
      addBlock now block st = Ok (false, st') ->
      st' = st
      /\ chain st' = chain st /\ accounts st' = accounts st
      /\ validators st' = validators st
      /\ pendingTransactions st' = pendingTransactions st)
  /\ (forall transaction st st',
         addTransaction st transaction = (false, st') ->
         st' = st /\ pendingTransactions st' = pendingTransactions st).
Proof.
  split.
  - intros now block st st' H.
    assert (st' = st) as ->; [|now repeat split].
    unfold addBlock in H.
    destruct (isValidBlock st block) as [[|]|]; cbn in H; [|congruence | discriminate].
    destruct (processBlockTransactions _ _ _); cbn in H; discriminate.
  - intros tx st st' H.
    assert (st' = st) as ->; [|now split].
    unfold addTransaction in H.
    destruct (negb (isValidTransaction st tx)); [congruence | discriminate].
Qed.

Lemma rejection_leaves_state_unchanged_witness :
  (addBlock Scenario.t0 Scenario.bad_block Scenario.s2 = Ok (false, Scenario.s2)
   /\ Scenario.s2 = Scenario.s2
      /\ chain Scenario.s2 = chain Scenario.s2
      /\ accounts Scenario.s2 = accounts Scenario.s2
      /\ validators Scenario.s2 = validators Scenario.s2
      /\ pendingTransactions Scenario.s2 = pendingTransactions Scenario.s2)
  /\ (addTransaction Scenario.s2 Scenario.overdraft = (false, Scenario.s2)
      /\ Scenario.s2 = Scenario.s2
         /\ pendingTransactions Scenario.s2 = pendingTransactions Scenario.s2).
Proof.
  assert (H1 : addBlock Scenario.t0 Scenario.bad_block Scenario.s2
               = Ok (false, Scenario.s2)) by (vm_compute; reflexivity).
  assert (H2 : addTransaction Scenario.s2 Scenario.overdraft
               = (false, Scenario.s2)) by (vm_compute; reflexivity).
  split; (split; [assumption |]).
  - exact (proj1 rejection_leaves_state_unchanged _ _ _ _ H1).
  - exact (proj2 rejection_leaves_state_unchanged _ _ _ H2).
Defined.

(** ** Blocks are validated against the state before the block *)

(** C1 (as the code has it): every transaction of a block that [addBlock]
    accepts is valid in the state before the block, transaction by
    transaction and without any of them applied; hence a block with two
    transactions of one sender that carry the sequence numbers [n] and
    [n + 1], [n] being the sender's sequence before the block, is rejected
    and changes nothing. *)
Theorem addBlock_validates_against_previous_state :
  (forall now block st st',
      addBlock now block st = Ok (true, st') ->
      Forall (fun tx => isValidTransaction st tx = true) (transactions block))
  /\ (forall now block st t1 t2 sender,
         chain st <> [] ->
         In t1 (transactions block) -> In t2 (transactions block) ->
         tx_from t1 = tx_from t2 ->
         isNetworkReward t2 = false ->
         accounts st !! tx_from t2 = Some sender ->
         tx_nonce t1 = acc_nonce sender ->
         tx_nonce t2 = acc_nonce sender + 1 ->
         addBlock now block st = Ok (false, st)).
Proof.
  split.
  - intros now block st st' H.
    apply addBlock_accepted_valid, isValidBlock_transactions in H.
    rewrite forallb_forall in H. apply List.Forall_forall. exact H.
  - intros now block st t1 t2 sender Hne _ Hin _ Hnr Hacc _ Hn.
    apply addBlock_invalid.
    destruct (isValidBlock_returns st block Hne) as [[|] Hv]; [|exact Hv].
    exfalso. apply isValidBlock_transactions in Hv.
    rewrite forallb_forall in Hv. specialize (Hv t2 Hin).
    destruct (isValidTransaction_nonce st t2 Hnr Hv) as (sender' & Hacc' & Hn').
    rewrite Hacc in Hacc'. injection Hacc' as <-. lia.
Qed.

Lemma addBlock_validates_against_previous_state_witness :
  Forall (fun tx => isValidTransaction Scenario.s1 tx = true)
         (transactions (Scenario.next_block Scenario.s1 [Scenario.fund_alice]))
  /\ addBlock Scenario.t0 (Scenario.next_block Scenario.s2 Scenario.consecutive)
              Scenario.s2
     = Ok (false, Scenario.s2).
Proof.
  split.
  - apply (proj1 addBlock_validates_against_previous_state Scenario.t0 _ _ Scenario.s2).
    vm_compute. reflexivity.
  - apply (proj2 addBlock_validates_against_previous_state Scenario.t0 _ Scenario.s2
             (Scenario.transfer "tx-a" "aur1bob" 10 1 0)
             (Scenario.transfer "tx-b" "aur1bob" 10 1 1)
             (mkAccount "aur1alice" (Number.of_Z 100) 0 Number.zero)).
    + vm_compute. discriminate.
    + vm_compute. auto.
    + vm_compute. auto.
    + reflexivity.
    + reflexivity.
    + vm_compute. reflexivity.
    + reflexivity.
    + reflexivity.
Defined.

(** C1 (as the spec has it) fails on the ledger [Scenario.s2], where
    [aur1alice] holds 100 and has the sequence number 0: the block of her
    transfers number 0 and 1 is rejected; the block of two transfers
    number 0 of 100 each is accepted although the second one is not valid
    once the first is applied, and leaves her balance at -100. *)
Lemma addBlock_sequential_validation_counterexample :
  getAddressBalance Scenario.s2 "aur1alice" = 100
  /\ sequenceOf Scenario.s2 "aur1alice" = 0
  /\ addBlock Scenario.t0 (Scenario.next_block Scenario.s2 Scenario.consecutive)
              Scenario.s2
     = Ok (false, Scenario.s2)
  /\ (exists st',
         addBlock Scenario.t0 (Scenario.next_block Scenario.s2 Scenario.double_spend)
                  Scenario.s2
         = Ok (true, st')
         /\ isValidTransaction
              (processRegularTransaction
                 (Scenario.transfer "tx-c" "aur1bob" 100 0 0) Scenario.s2)
              (Scenario.transfer "tx-d" "aur1carol" 100 0 0)
            = false
         /\ getAddressBalance st' "aur1alice" = -100).
Proof.
  split; [vm_compute; reflexivity |].
  split; [vm_compute; reflexivity |].
  split; [vm_compute; reflexivity |].
  eexists. split; [vm_compute; reflexivity |].
  split; vm_compute; reflexivity.
Qed.

(* ===================================================================== *)
(** * The effect of a transaction on the accounts                         *)
(* ===================================================================== *)

Lemma lookup_getOrCreateAccount (a b : string) (st : Blockchain) :
  accounts (getOrCreateAccount a st) !! b
  = if decide (a = b) then Some (account_or_new st a) else accounts st !! b.
Proof.
  unfold getOrCreateAccount, account_or_new.
  destruct (accounts st !! a) as [acc|] eqn:E; cbn.
  - destruct (decide (a = b)) as [<-|]; [exact E | reflexivity].
  - rewrite lookup_insert. destruct (decide (a = b)); reflexivity.
Qed.

Lemma lookup_update_account (a b : string) (f : Account -> Account)
  (st : Blockchain) :
  accounts (update_account a f st) !! b
  = if decide (a = b) then f <$> accounts st !! a else accounts st !! b.
Proof. unfold update_account. cbn. apply lookup_alter. Qed.

Lemma getAddressBalance_account_or_new (st : Blockchain) (a : string) :
  getAddressBalance st a = balance (account_or_new st a).
Proof.
  unfold getAddressBalance, account_or_new. now destruct (accounts st !! a).
Qed.

Lemma sequenceOf_account_or_new (st : Blockchain) (a : string) :
  sequenceOf st a = acc_nonce (account_or_new st a).
Proof.
  unfold sequenceOf, account_or_new. now destruct (accounts st !! a).
Qed.

Lemma account_or_new_getOrCreateAccount (a b : string) (st : Blockchain) :
  account_or_new (getOrCreateAccount a st) b = account_or_new st b.
Proof.
  unfold account_or_new at 1. rewrite lookup_getOrCreateAccount.
  destruct (decide (a = b)) as [<-|]; reflexivity.
Qed.

Ltac lookup_accounts :=
  repeat (rewrite ?lookup_update_account, ?lookup_getOrCreateAccount,
                  ?account_or_new_getOrCreateAccount;
          repeat case_decide; try congruence; cbn [fmap option_fmap option_map]).

(** The entries of the sender and of the recipient after a transfer. *)
Lemma processRegularTransaction_sender (tx : Transaction) (st : Blockchain) :
  accounts (processRegularTransaction tx st) !! tx_from tx
  = Some (let a := account_or_new st (tx_from tx) in
          mkAccount (acc_address a)
                    (if decide (tx_from tx = tx_to tx)
                     then Number.add
                            (Number.sub (balance a)
                               (Number.add (tx_amount tx) (tx_fee tx)))
                            (tx_amount tx)
                     else Number.sub (balance a)
                            (Number.add (tx_amount tx) (tx_fee tx)))
                    (acc_nonce a + 1) (stake a)).
Proof.
  unfold processRegularTransaction.
  destruct (decide (tx_from tx = tx_to tx)) as [<-|Hne];
    lookup_accounts; reflexivity.
Qed.

Lemma processRegularTransaction_recipient (tx : Transaction) (st : Blockchain) :
  tx_from tx <> tx_to tx ->
  accounts (processRegularTransaction tx st) !! tx_to tx
  = Some (let a := account_or_new st (tx_to tx) in
          mkAccount (acc_address a) (Number.add (balance a) (tx_amount tx))
                    (acc_nonce a) (stake a)).
Proof.
  intros Hne. unfold processRegularTransaction. lookup_accounts; reflexivity.
Qed.

Lemma processRegularTransaction_others (tx : Transaction) (st : Blockchain)
  (a : string) :
  a <> tx_from tx -> a <> tx_to tx ->
  accounts (processRegularTransaction tx st) !! a = accounts st !! a.
Proof.
  intros H1 H2. unfold processRegularTransaction. lookup_accounts; reflexivity.
Qed.

Lemma accounts_processRegularTransaction_ext (tx : Transaction)
  (st1 st2 : Blockchain) :
  accounts st1 = accounts st2 ->
  accounts (processRegularTransaction tx st1)
  = accounts (processRegularTransaction tx st2).
Proof.
  intros E. apply map_eq. intros a.
  assert (Ha : forall b, account_or_new st1 b = account_or_new st2 b)
    by (intros b; unfold account_or_new; now rewrite E).
  destruct (decide (a = tx_from tx)) as [->|Hf].
  - now rewrite !processRegularTransaction_sender, Ha.
  - destruct (decide (a = tx_to tx)) as [->|Ht].
    + rewrite !processRegularTransaction_recipient by congruence. now rewrite Ha.
    + rewrite !processRegularTransaction_others by assumption. now rewrite E.
Qed.

Lemma accounts_update_validator a f st :
  accounts (update_validator a f st) = accounts st.
Proof. unfold update_validator. now destruct (oget a (validators st)). Qed.

(** What validation asks of the sender of a transfer. *)
Lemma isValidTransaction_regular (st : Blockchain) (tx : Transaction) :
  tx_type tx = REGULAR ->
  isValidTransaction st tx = true ->
  exists sender,
    accounts st !! tx_from tx = Some sender
    /\ Number.ltb (balance sender) (Number.add (tx_amount tx) (tx_fee tx))
       = false
    /\ tx_nonce tx = acc_nonce sender.
Proof.
  intros Ht. unfold isValidTransaction, isNetworkReward. rewrite Ht. cbn.
  destruct (negb (verifyTransactionSignature tx)); [discriminate |].
  destruct (accounts st !! tx_from tx) as [sender|]; [|discriminate].
  destruct (Number.ltb (balance sender) _) eqn:Eb; [discriminate |].
  cbn. destruct (tx_nonce tx =? acc_nonce sender) eqn:En; [|discriminate].
  intros _. exists sender. split_and!; [reflexivity | exact Eb | lia].
Qed.

(** A block of one transfer: the accounts after the block are those after
    the transfer. *)
Lemma addBlock_single_regular now block st st' tx :
  addBlock now block st = Ok (true, st') ->
  transactions block = [tx] ->
  tx_type tx = REGULAR ->
  accounts st' = accounts (processRegularTransaction tx st).
Proof.
  intros H Htx Hty. unfold addBlock in H.
  destruct (isValidBlock st block) as [[|]|]; cbn in H; try discriminate.
  unfold processBlockTransactions in H. rewrite Htx in H.
  cbn [processTransactions] in H. unfold processTransaction in H.
  rewrite Hty in H. cbn in H. injection H as <-.
  cbn [accounts emit].
  destruct (ohas _ _); rewrite ?accounts_update_validator;
    now apply accounts_processRegularTransaction_ext.
Qed.

(** C3 (as the code has it): a transfer is only valid, and so only part of
    an accepted block, if its sender has an account in the state before the
    block whose balance is not below the sum [amount + fee], a sum of
    numbers that is rounded.  Processing it raises the sender's sequence by
    one; when the recipient is another address the sender's balance
    becomes the rounded difference of the balance and the sum, and the
    recipient's the rounded sum of its balance and the amount; when the
    sender pays itself both assignments go to the one account, the credit
    after the debit; no other account changes.  The accounts after an
    accepted block of one transfer are those after the transfer.  For
    integers up to [2^53], sums up to [2^53] included, nothing is rounded:
    the transfer is only valid if [amount + fee <= balance], the sender's
    balance falls by [amount + fee] and the recipient's rises by [amount],
    and a sender that pays itself loses [fee]. *)
Theorem transfer_validation_and_effect :
  (forall now block st st' tx,
      addBlock now block st = Ok (true, st') ->
      In tx (transactions block) ->
      tx_type tx = REGULAR ->
      is_Some (accounts st !! tx_from tx)
      /\ Number.ltb (getAddressBalance st (tx_from tx))
                    (Number.add (tx_amount tx) (tx_fee tx)) = false)
  /\ (forall st tx,
         let st' := processRegularTransaction tx st in
         sequenceOf st' (tx_from tx) = sequenceOf st (tx_from tx) + 1
         /\ (tx_from tx <> tx_to tx ->
             getAddressBalance st' (tx_from tx)
             = Number.sub (getAddressBalance st (tx_from tx))
                          (Number.add (tx_amount tx) (tx_fee tx))
             /\ getAddressBalance st' (tx_to tx)
                = Number.add (getAddressBalance st (tx_to tx)) (tx_amount tx))
         /\ (tx_from tx = tx_to tx ->
             getAddressBalance st' (tx_from tx)
             = Number.add
                 (Number.sub (getAddressBalance st (tx_from tx))
                             (Number.add (tx_amount tx) (tx_fee tx)))
                 (tx_amount tx))
         /\ (forall a, a <> tx_from tx -> a <> tx_to tx ->
                       accounts st' !! a = accounts st !! a))
  /\ (forall now block st st' tx,
         addBlock now block st = Ok (true, st') ->
         transactions block = [tx] ->
         tx_type tx = REGULAR ->
         accounts st' = accounts (processRegularTransaction tx st))
  /\ (forall st tx held credit amount fee,
         let st' := processRegularTransaction tx st in
         getAddressBalance st (tx_from tx) = Number.of_Z held ->
         getAddressBalance st (tx_to tx) = Number.of_Z credit ->
         tx_amount tx = Number.of_Z amount ->
         tx_fee tx = Number.of_Z fee ->
         Number.safe held -> Number.safe credit ->
         Number.safe amount -> Number.safe fee ->
         Number.safe (amount + fee) -> Number.safe (held - (amount + fee)) ->
         (Number.ltb (getAddressBalance st (tx_from tx))
                     (Number.add (tx_amount tx) (tx_fee tx)) = false
          <-> amount + fee <= held)
         /\ (tx_from tx <> tx_to tx ->
             getAddressBalance st' (tx_from tx)
             = Number.of_Z (held - (amount + fee))
             /\ getAddressBalance st' (tx_to tx)
                = Number.of_Z (credit + amount))
         /\ (tx_from tx = tx_to tx ->
             getAddressBalance st' (tx_from tx) = Number.of_Z (held - fee))).
Proof.
  assert (Effect : forall st tx,
    let st' := processRegularTransaction tx st in
    sequenceOf st' (tx_from tx) = sequenceOf st (tx_from tx) + 1
    /\ (tx_from tx <> tx_to tx ->
        getAddressBalance st' (tx_from tx)
        = Number.sub (getAddressBalance st (tx_from tx))
                     (Number.add (tx_amount tx) (tx_fee tx))
        /\ getAddressBalance st' (tx_to tx)
           = Number.add (getAddressBalance st (tx_to tx)) (tx_amount tx))
    /\ (tx_from tx = tx_to tx ->
        getAddressBalance st' (tx_from tx)
        = Number.add
            (Number.sub (getAddressBalance st (tx_from tx))
                        (Number.add (tx_amount tx) (tx_fee tx)))
            (tx_amount tx))
    /\ (forall a, a <> tx_from tx -> a <> tx_to tx ->
                  accounts st' !! a = accounts st !! a)).
  { intros st tx st'. subst st'.
    unfold sequenceOf at 1. unfold getAddressBalance at 1 3 5.
    rewrite processRegularTransaction_sender.
    rewrite sequenceOf_account_or_new, !getAddressBalance_account_or_new.
    split; [reflexivity |]. split; [|split].
    + intros Hne. rewrite processRegularTransaction_recipient by assumption.
      cbn. destruct (decide (tx_from tx = tx_to tx)); [contradiction |].
      split; reflexivity.
    + intros He. cbn.
      destruct (decide (tx_from tx = tx_to tx)); [reflexivity | contradiction].
    + intros a H1 H2. now apply processRegularTransaction_others. }
  split_and!.
  - intros now block st st' tx H Hin Hty.
    apply addBlock_accepted_valid, isValidBlock_transactions in H.
    rewrite forallb_forall in H. specialize (H tx Hin).
    destruct (isValidTransaction_regular st tx Hty H) as (sender & Hs & Hb & _).
    unfold getAddressBalance. rewrite Hs. split; [eauto | exact Hb].
  - exact Effect.
  - exact addBlock_single_regular.
  - intros st tx held credit amount fee st' Hh Hc Ha Hf Sh Sc Sa Sf Saf Sd.
    destruct (Effect st tx) as (_ & Hne & Heq & _). fold st' in Hne, Heq.
    split_and!.
    + rewrite Hh, Ha, Hf, NumberFacts.add_of_Z, NumberFacts.ltb_of_Z
        by assumption.
      destruct (Z.ltb_spec held (amount + fee)); split; intros; (lia || congruence).
    + intros Hd. destruct (Hne Hd) as [-> ->].
      rewrite Hh, Hc, Ha, Hf.
      now rewrite !NumberFacts.add_of_Z, NumberFacts.sub_of_Z by assumption.
    + intros Hd. rewrite (Heq Hd), Hh, Ha, Hf.
      rewrite NumberFacts.add_of_Z, NumberFacts.sub_of_Z,
        NumberFacts.add_of_Z by assumption.
      f_equal. lia.
Qed.

Lemma transfer_validation_and_effect_witness :
  let tx := Scenario.pay_bob in
  let blk := Scenario.next_block Scenario.s2 [tx] in
  let st' := Scenario.state_of (addBlock Scenario.t0 blk Scenario.s2) in
  (is_Some (accounts Scenario.s2 !! tx_from tx)
   /\ Number.ltb (getAddressBalance Scenario.s2 (tx_from tx))
                 (Number.add (tx_amount tx) (tx_fee tx)) = false)
  /\ (getAddressBalance (processRegularTransaction tx Scenario.s2) (tx_from tx)
      = Number.sub (getAddressBalance Scenario.s2 (tx_from tx))
                   (Number.add (tx_amount tx) (tx_fee tx))
      /\ getAddressBalance (processRegularTransaction tx Scenario.s2) (tx_to tx)
         = Number.add (getAddressBalance Scenario.s2 (tx_to tx)) (tx_amount tx))
  /\ accounts st' = accounts (processRegularTransaction tx Scenario.s2)
  /\ (getAddressBalance (processRegularTransaction tx Scenario.s2) (tx_from tx)
      = Number.of_Z 89
      /\ getAddressBalance (processRegularTransaction tx Scenario.s2) (tx_to tx)
         = Number.of_Z 10)
  /\ getAddressBalance
       (processRegularTransaction Scenario.self_transfer Scenario.s2) "aur1alice"
     = Number.of_Z (100 - 1).
Proof.
  intros tx blk st'.
  assert (H : addBlock Scenario.t0 blk Scenario.s2 = Ok (true, st'))
    by (vm_compute; reflexivity).
  assert (Hin : In tx (transactions blk)) by (left; reflexivity).
  assert (Hne : tx_from tx <> tx_to tx) by (vm_compute; discriminate).
  split; [|split; [|split; [|split]]].
  - exact (proj1 transfer_validation_and_effect
             Scenario.t0 blk Scenario.s2 st' tx H Hin eq_refl).
  - exact (proj1 (proj2 (proj1 (proj2 transfer_validation_and_effect)
                                Scenario.s2 tx)) Hne).
  - exact (proj1 (proj2 (proj2 transfer_validation_and_effect))
             Scenario.t0 blk Scenario.s2 st' tx H eq_refl eq_refl).
  - refine (proj1 (proj2 (proj2 (proj2 (proj2 transfer_validation_and_effect))
                            Scenario.s2 tx 100 0 10 1 _ _ _ _ _ _ _ _ _ _)) Hne);
      first [by_evaluation | unfold Number.safe; lia].
  - refine (proj2 (proj2 (proj2 (proj2 (proj2 transfer_validation_and_effect))
                            Scenario.s2 Scenario.self_transfer 100 100 10 1
                            _ _ _ _ _ _ _ _ _ _)) eq_refl);
      first [by_evaluation | unfold Number.safe; lia].
Defined.

(** C3 (as the spec has it) fails on a transfer to oneself: on the ledger
    [Scenario.s2], where [aur1alice] holds 100, the block of her transfer
    of 10 with fee 1 to herself is accepted and leaves her 99, not
    [100 - (10 + 1)]. *)
Lemma transfer_to_self_counterexample :
  exists st',
    addBlock Scenario.t0
             (Scenario.next_block Scenario.s2 [Scenario.self_transfer])
             Scenario.s2
    = Ok (true, st')
    /\ tx_type Scenario.self_transfer = REGULAR
    /\ tx_from Scenario.self_transfer = "aur1alice"
    /\ Number.add (tx_amount Scenario.self_transfer)
                  (tx_fee Scenario.self_transfer) = Number.of_Z 11
    /\ getAddressBalance Scenario.s2 "aur1alice" = Number.of_Z 100
    /\ getAddressBalance st' "aur1alice" = Number.of_Z 99.
Proof.
  eexists. split; [vm_compute; reflexivity |].
  split_and!; by_evaluation.
Qed.

(** Beyond [2^53] the sum [amount + fee] is rounded: on a ledger where
    [aur1alice] holds [2^53], her transfer of [2^53] with fee 1 is valid,
    although [2^53 + 1] is more than she holds, and the block of it leaves
    her 0 and the recipient [2^53]: no fee is taken. *)
Example transfer_rounded :
  let st := Scenario.state_of
              (addBlock Scenario.t0
                 (Scenario.next_block Scenario.s1 [Scenario.fund_alice_2_53])
                 Scenario.s1) in
  let tx := Scenario.transfer "tx-r" "aur1bob" (Number.of_Z (2 ^ 53))
                              (Number.of_Z 1) 0 in
  let st' := Scenario.state_of
               (addBlock Scenario.t0 (Scenario.next_block st [tx]) st) in
  getAddressBalance st "aur1alice" = Number.of_Z (2 ^ 53)
  /\ Number.add (tx_amount tx) (tx_fee tx) = Number.of_Z (2 ^ 53)
  /\ isValidTransaction st tx = true
  /\ addBlock Scenario.t0 (Scenario.next_block st [tx]) st = Ok (true, st')
  /\ getAddressBalance st' "aur1alice" = Number.of_Z 0
  /\ getAddressBalance st' "aur1bob" = Number.of_Z (2 ^ 53).
Proof. cbv zeta. split_and!; by_evaluation. Qed.

(* ===================================================================== *)
(** * Unstaking                                                           *)
(* ===================================================================== *)

Lemma validators_update_account a f st :
  validators (update_account a f st) = validators st.
Proof. reflexivity. Qed.

Lemma validators_getOrCreateAccount a st :
  validators (getOrCreateAccount a st) = validators st.
Proof. unfold getOrCreateAccount. now destruct (accounts st !! a). Qed.

Lemma chainParams_getOrCreateAccount a st :
  chainParams (getOrCreateAccount a st) = chainParams st.
Proof. unfold getOrCreateAccount. now destruct (accounts st !! a). Qed.

(** The validator record that an unstake of [amount] leaves. *)
Lemma processUnstakeTransaction_validator (tx : Transaction) (st : Blockchain)
  (v : Validator) :
  getValidator st (tx_from tx) = Some v ->
  getValidator (processUnstakeTransaction tx st) (tx_from tx)
  = Some (if Number.ltb (Number.sub (val_stake v) (tx_amount tx))
                        (minStake (chainParams st))
          then set_isActive false
                 (set_val_stake (Number.sub (val_stake v) (tx_amount tx)) v)
          else set_val_stake (Number.sub (val_stake v) (tx_amount tx)) v).
Proof.
  unfold getValidator, processUnstakeTransaction. intros Hv.
  unfold ohas, update_validator.
  rewrite !validators_update_account, validators_getOrCreateAccount, Hv.
  cbn [validators with_validators]. rewrite oget_oset_eq.
  cbn [chainParams update_account with_accounts val_stake set_val_stake].
  now rewrite chainParams_getOrCreateAccount.
Qed.

Lemma processUnstakeTransaction_sender (tx : Transaction) (st : Blockchain) :
  accounts (processUnstakeTransaction tx st) !! tx_from tx
  = Some (let a := account_or_new st (tx_from tx) in
          mkAccount (acc_address a)
                    (Number.add (Number.sub (balance a) (tx_fee tx))
                                (tx_amount tx))
                    (acc_nonce a + 1)
                    (Number.sub (stake a) (tx_amount tx))).
Proof.
  unfold processUnstakeTransaction.
  destruct (ohas _ _); rewrite ?accounts_update_validator;
    lookup_accounts; reflexivity.
Qed.

Lemma isValidTransaction_unstake (st : Blockchain) (tx : Transaction) :
  tx_type tx = UNSTAKE ->
  isValidTransaction st tx = true ->
  exists sender,
    accounts st !! tx_from tx = Some sender
    /\ Number.ltb (stake sender) (tx_amount tx) = false
    /\ Number.ltb (balance sender) (tx_fee tx) = false
    /\ tx_nonce tx = acc_nonce sender.
Proof.
  intros Ht. unfold isValidTransaction, isNetworkReward. rewrite Ht. cbn.
  destruct (negb (verifyTransactionSignature tx)); [discriminate |].
  destruct (accounts st !! tx_from tx) as [sender|]; [|discriminate].
  destruct (Number.ltb (stake sender) _) eqn:Es; [discriminate |].
  destruct (Number.ltb (balance sender) _) eqn:Eb; [discriminate |].
  cbn. destruct (tx_nonce tx =? acc_nonce sender) eqn:En; [|discriminate].
  intros _. exists sender. split_and!; [reflexivity | exact Es | exact Eb | lia].
Qed.

Lemma getAddressStake_account_or_new (st : Blockchain) (a : string) :
  getAddressStake st a = stake (account_or_new st a).
Proof.
  unfold getAddressStake, account_or_new. now destruct (accounts st !! a).
Qed.

(** C5 (as the code has it): an unstake is only valid, and so only part of
    an accepted block, if its sender has an account in the state before the
    block whose stake is not below [amount] and whose balance is not below
    [fee].  Processing it takes [fee] from the sender's balance and then
    adds [amount] to it, two operations on numbers that are each rounded,
    takes [amount] from its stake and raises its sequence by one; and when
    the sender is a registered validator whose stake, reduced by [amount],
    is below [minStake] (1000 in the node's parameters), the validator's
    record is kept with the reduced stake and with [isActive] false.  For
    integers up to [2^53] the tests are [amount <= stake] and
    [fee <= balance], and the balance becomes the number nearest to
    [balance + (amount - fee)], which is that integer when it is at most
    [2^53], and the stake [stake - amount]. *)
Theorem unstake_validation_and_effect :
  (forall now block st st' tx,
      addBlock now block st = Ok (true, st') ->
      In tx (transactions block) ->
      tx_type tx = UNSTAKE ->
      is_Some (accounts st !! tx_from tx)
      /\ Number.ltb (getAddressStake st (tx_from tx)) (tx_amount tx) = false
      /\ Number.ltb (getAddressBalance st (tx_from tx)) (tx_fee tx) = false)
  /\ (forall st tx,
         let st' := processUnstakeTransaction tx st in
         getAddressBalance st' (tx_from tx)
         = Number.add (Number.sub (getAddressBalance st (tx_from tx)) (tx_fee tx))
                      (tx_amount tx)
         /\ getAddressStake st' (tx_from tx)
            = Number.sub (getAddressStake st (tx_from tx)) (tx_amount tx)
         /\ sequenceOf st' (tx_from tx) = sequenceOf st (tx_from tx) + 1
         /\ (forall v,
                getValidator st (tx_from tx) = Some v ->
                Number.ltb (Number.sub (val_stake v) (tx_amount tx))
                           (minStake (chainParams st)) = true ->
                exists v',
                  getValidator st' (tx_from tx) = Some v'
                  /\ isActive v' = false
                  /\ val_stake v' = Number.sub (val_stake v) (tx_amount tx)))
  /\ minStake Scenario.params = Number.of_Z 1000
  /\ (forall st tx held staked amount fee,
         let st' := processUnstakeTransaction tx st in
         getAddressBalance st (tx_from tx) = Number.of_Z held ->
         getAddressStake st (tx_from tx) = Number.of_Z staked ->
         tx_amount tx = Number.of_Z amount ->
         tx_fee tx = Number.of_Z fee ->
         Number.safe held -> Number.safe staked ->
         Number.safe amount -> Number.safe fee ->
         Number.safe (held - fee) ->
         (Number.ltb (getAddressStake st (tx_from tx)) (tx_amount tx) = false
          <-> amount <= staked)
         /\ (Number.ltb (getAddressBalance st (tx_from tx)) (tx_fee tx) = false
             <-> fee <= held)
         /\ getAddressBalance st' (tx_from tx)
            = Number.of_Z (held + (amount - fee))
         /\ getAddressStake st' (tx_from tx) = Number.of_Z (staked - amount)
         /\ forall v stake,
              getValidator st (tx_from tx) = Some v ->
              val_stake v = Number.of_Z stake ->
              Number.safe stake ->
              Number.safe (stake - amount) ->
              minStake (chainParams st) = Number.of_Z 1000 ->
              stake - amount < 1000 ->
              exists v',
                getValidator st' (tx_from tx) = Some v'
                /\ isActive v' = false
                /\ val_stake v' = Number.of_Z (stake - amount)).
Proof.
  assert (Effect : forall st tx,
    let st' := processUnstakeTransaction tx st in
    getAddressBalance st' (tx_from tx)
    = Number.add (Number.sub (getAddressBalance st (tx_from tx)) (tx_fee tx))
                 (tx_amount tx)
    /\ getAddressStake st' (tx_from tx)
       = Number.sub (getAddressStake st (tx_from tx)) (tx_amount tx)
    /\ sequenceOf st' (tx_from tx) = sequenceOf st (tx_from tx) + 1
    /\ (forall v,
           getValidator st (tx_from tx) = Some v ->
           Number.ltb (Number.sub (val_stake v) (tx_amount tx))
                      (minStake (chainParams st)) = true ->
           exists v',
             getValidator st' (tx_from tx) = Some v'
             /\ isActive v' = false
             /\ val_stake v' = Number.sub (val_stake v) (tx_amount tx))).
  { intros st tx st'. subst st'.
    unfold sequenceOf at 1. unfold getAddressBalance at 1.
    unfold getAddressStake at 1.
    rewrite processUnstakeTransaction_sender.
    rewrite sequenceOf_account_or_new, getAddressBalance_account_or_new,
      getAddressStake_account_or_new.
    cbn. split_and!; try reflexivity.
    intros v Hv Hlt. rewrite (processUnstakeTransaction_validator tx st v Hv).
    rewrite Hlt. eexists. split_and!; reflexivity. }
  split_and!.
  - intros now block st st' tx H Hin Hty.
    apply addBlock_accepted_valid, isValidBlock_transactions in H.
    rewrite forallb_forall in H. specialize (H tx Hin).
    destruct (isValidTransaction_unstake st tx Hty H) as (sender & Hs & Hk & Hb & _).
    unfold getAddressStake, getAddressBalance. rewrite Hs. eauto.
  - exact Effect.
  - reflexivity.
  - intros st tx held staked amount fee st' Hh Hs Ha Hf Sh Ss Sa Sf Sd.
    destruct (Effect st tx) as (Hb & Hk & _ & Hv). fold st' in Hb, Hk, Hv.
    split_and!.
    + rewrite Hs, Ha, NumberFacts.ltb_of_Z by assumption.
      destruct (Z.ltb_spec staked amount); split; intros; (lia || congruence).
    + rewrite Hh, Hf, NumberFacts.ltb_of_Z by assumption.
      destruct (Z.ltb_spec held fee); split; intros; (lia || congruence).
    + rewrite Hb, Hh, Ha, Hf.
      rewrite NumberFacts.sub_of_Z, NumberFacts.add_of_Z by assumption.
      f_equal. lia.
    + rewrite Hk, Hs, Ha. now rewrite NumberFacts.sub_of_Z.
    + intros v stake Hg Hvs Sv Svd Hm Hlt.
      destruct (Hv v Hg) as (v' & Hg' & Hact & Hst).
      { rewrite Hvs, Ha, Hm, NumberFacts.sub_of_Z, NumberFacts.ltb_of_Z;
          try assumption; [now apply Z.ltb_lt | unfold Number.safe; lia]. }
      exists v'. split_and!; [exact Hg' | exact Hact |].
      rewrite Hst, Hvs, Ha. now rewrite NumberFacts.sub_of_Z.
Qed.

Lemma unstake_validation_and_effect_witness :
  let tx := Scenario.carol_unstakes in
  let blk := Scenario.next_block Scenario.s4 [tx] in
  let st' := Scenario.state_of (addBlock Scenario.t0 blk Scenario.s4) in
  (is_Some (accounts Scenario.s4 !! tx_from tx)
   /\ Number.ltb (getAddressStake Scenario.s4 (tx_from tx)) (tx_amount tx) = false
   /\ Number.ltb (getAddressBalance Scenario.s4 (tx_from tx)) (tx_fee tx) = false)
  /\ (exists v',
         getValidator (processUnstakeTransaction tx Scenario.s4) (tx_from tx)
         = Some v'
         /\ isActive v' = false
         /\ val_stake v' = Number.sub (Number.of_Z 1500) (tx_amount tx))
  /\ getValidator Scenario.s4 "aur1carol"
     = Some (mkValidator "aur1carol" 1500 true 2 0 "aur1carol" Scenario.t0)
  /\ getValidator st' "aur1carol"
     = Some (mkValidator "aur1carol" 900 false 2 0 "aur1carol" Scenario.t0)
  /\ getAddressBalance (processUnstakeTransaction tx Scenario.s4) (tx_from tx)
     = Number.of_Z (3499 + (600 - 1))
  /\ getAddressStake (processUnstakeTransaction tx Scenario.s4) (tx_from tx)
     = Number.of_Z (1500 - 600)
  /\ (exists v',
         getValidator (processUnstakeTransaction tx Scenario.s4) (tx_from tx)
         = Some v'
         /\ isActive v' = false
         /\ val_stake v' = Number.of_Z (1500 - 600)).
Proof.
  intros tx blk st'.
  assert (H : addBlock Scenario.t0 blk Scenario.s4 = Ok (true, st'))
    by (vm_compute; reflexivity).
  assert (Hin : In tx (transactions blk)) by (left; reflexivity).
  assert (Hv : getValidator Scenario.s4 (tx_from tx)
               = Some (mkValidator "aur1carol" 1500 true 2 0 "aur1carol" Scenario.t0))
    by (vm_compute; reflexivity).
  assert (Hlt : Number.ltb (Number.sub (Number.of_Z 1500) (tx_amount tx))
                           (minStake (chainParams Scenario.s4)) = true)
    by (vm_compute; reflexivity).
  assert (Hint :
    getAddressBalance (processUnstakeTransaction tx Scenario.s4) (tx_from tx)
    = Number.of_Z (3499 + (600 - 1))
    /\ getAddressStake (processUnstakeTransaction tx Scenario.s4) (tx_from tx)
       = Number.of_Z (1500 - 600)
    /\ (exists v',
           getValidator (processUnstakeTransaction tx Scenario.s4) (tx_from tx)
           = Some v'
           /\ isActive v' = false
           /\ val_stake v' = Number.of_Z (1500 - 600))).
  { destruct (proj2 (proj2 (proj2 unstake_validation_and_effect))
                Scenario.s4 tx 3499 1500 600 1)
      as (_ & _ & Hb & Hk & Hval);
      try first [by_evaluation | unfold Number.safe; lia].
    split; [exact Hb |]. split; [exact Hk |].
    apply (Hval _ 1500 Hv eq_refl);
      first [by_evaluation | unfold Number.safe; lia]. }
  split; [|split; [|split; [|split]]].
  - exact (proj1 unstake_validation_and_effect
             Scenario.t0 blk Scenario.s4 st' tx H Hin eq_refl).
  - exact (proj2 (proj2 (proj2 (proj1 (proj2 unstake_validation_and_effect)
                                       Scenario.s4 tx))) _ Hv Hlt).
  - exact Hv.
  - vm_compute. reflexivity.
  - exact Hint.
Defined.

(** C5 (as the spec has it) fails where the two assignments to the balance
    are rounded: on a ledger where [aur1carol] holds [2^53] and has staked
    1500, the block of her unstake of 2 with fee 1 is accepted and leaves
    her balance at [2^53], as it was, and not higher by [amount - fee = 1]:
    the balance less the fee is [2^53 - 1], and [2^53 + 1] is no number, so
    that the sum with the amount is rounded to [2^53]. *)
Lemma unstake_rounding_counterexample :
  let st := Scenario.s7 in
  let tx := Scenario.carol_unstakes_2 in
  exists st',
    addBlock Scenario.t0 (Scenario.next_block st [tx]) st = Ok (true, st')
    /\ tx_type tx = UNSTAKE
    /\ tx_from tx = "aur1carol"
    /\ tx_amount tx = Number.of_Z 2
    /\ tx_fee tx = Number.of_Z 1
    /\ getAddressBalance st "aur1carol" = Number.of_Z (2 ^ 53)
    /\ getAddressStake st "aur1carol" = Number.of_Z 1500
    /\ Number.sub (getAddressBalance st "aur1carol") (tx_fee tx)
       = Number.of_Z (2 ^ 53 - 1)
    /\ getAddressBalance st' "aur1carol" = Number.of_Z (2 ^ 53)
    /\ getAddressStake st' "aur1carol" = Number.of_Z 1498
    /\ Number.ltb (Number.of_Z (2 ^ 53)) (Number.of_Z (2 ^ 53 + 2)) = true
    /\ Number.eqb (Number.of_Z (2 ^ 53 - 1 + 2)) (Number.of_Z (2 ^ 53)) = true.
Proof.
  cbv zeta. eexists. split; [vm_compute; reflexivity |].
  split_and!; by_evaluation.
Qed.

(* ===================================================================== *)
(** * Rewards of the network and the signature check                      *)
(* ===================================================================== *)

Lemma isNetworkReward_spec (tx : Transaction) :
  isNetworkReward tx = true <-> tx_type tx = REWARD /\ tx_from tx = "NETWORK".
Proof.
  unfold isNetworkReward.
  rewrite andb_true_iff, !bool_decide_eq_true. reflexivity.
Qed.

Lemma present_spec (x : option string) :
  present x = true <-> exists s, x = Some s /\ s <> EmptyString.
Proof.
  destruct x as [s|]; cbn.
  - rewrite negb_true_iff, bool_decide_eq_false. split.
    + intros H. exists s. now split.
    + intros (s' & [= <-] & H). exact H.
  - split; [discriminate | intros (s & [=] & _)].
Qed.

(** C6 (as the code has it): a transaction of type [REWARD] whose sender is
    the string NETWORK, in upper case, passes [verifyTransactionSignature]
    and [isValidTransaction] in every state whatever its signature, also
    none; [addValidatorReward] puts such a transaction into the pool.  Any
    other transaction that [isValidTransaction] accepts has passed
    [verifyTransactionSignature], which asks for a signature that is
    present and not empty. *)
Theorem network_reward_exemption :
  (forall st tx,
      tx_type tx = REWARD -> tx_from tx = "NETWORK" ->
      forall s, verifyTransactionSignature (set_signature s tx) = true
                /\ isValidTransaction st (set_signature s tx) = true)
  /\ (forall st tx,
         ~ (tx_type tx = REWARD /\ tx_from tx = "NETWORK") ->
         isValidTransaction st tx = true ->
         verifyTransactionSignature tx = true
         /\ exists s, tx_signature tx = Some s /\ s <> EmptyString)
  /\ (forall now validatorAddress st,
         exists tx,
           pendingTransactions (addValidatorReward now validatorAddress st)
           = (pendingTransactions st ++ [tx])%list
           /\ tx_type tx = REWARD /\ tx_from tx = "NETWORK"
           /\ tx_to tx = validatorAddress
           /\ tx_amount tx = blockReward (chainParams st)
           /\ forall st', isValidTransaction st' tx = true).
Proof.
  split; [|split].
  - intros st tx Hty Hfrom s.
    assert (Hr : isNetworkReward (set_signature s tx) = true)
      by (apply isNetworkReward_spec; now split).
    unfold verifyTransactionSignature, isValidTransaction. rewrite Hr. now split.
  - intros st tx Hnot Hvalid.
    assert (Hr : isNetworkReward tx = false).
    { destruct (isNetworkReward tx) eqn:E; [|reflexivity].
      apply isNetworkReward_spec in E. contradiction. }
    unfold isValidTransaction in Hvalid. rewrite Hr in Hvalid.
    destruct (verifyTransactionSignature tx) eqn:Hsig; [|discriminate].
    split; [reflexivity |].
    unfold verifyTransactionSignature in Hsig. rewrite Hr in Hsig.
    now apply present_spec.
  - intros now a st. eexists. split; [reflexivity |].
    repeat split.
Qed.

Lemma network_reward_exemption_witness :
  (verifyTransactionSignature (set_signature None Scenario.fund_alice) = true
   /\ isValidTransaction Scenario.s1 (set_signature None Scenario.fund_alice) = true)
  /\ (verifyTransactionSignature Scenario.pay_bob = true
      /\ exists s, tx_signature Scenario.pay_bob = Some s /\ s <> EmptyString).
Proof.
  assert (Hv : isValidTransaction Scenario.s2 Scenario.pay_bob = true)
    by (vm_compute; reflexivity).
  assert (Hn : ~ (tx_type Scenario.pay_bob = REWARD
                  /\ tx_from Scenario.pay_bob = "NETWORK"))
    by (intros [Hty _]; discriminate Hty).
  split.
  - exact (proj1 network_reward_exemption Scenario.s1 Scenario.fund_alice
             eq_refl eq_refl None).
  - exact (proj1 (proj2 network_reward_exemption) Scenario.s2 Scenario.pay_bob Hn Hv).
Defined.

(** C6 (as the spec has it) fails for the sender written in lower case: a
    reward from the string network is not exempt.  Without signature it
    fails [verifyTransactionSignature]; with one it is looked up like any
    sender and rejected on the ledger [Scenario.s2], which has no such
    account. *)
Lemma lowercase_network_reward_counterexample :
  tx_type Scenario.lowercase_reward = REWARD
  /\ tx_from Scenario.lowercase_reward = "network"
  /\ verifyTransactionSignature Scenario.lowercase_reward = false
  /\ isValidTransaction Scenario.s2 Scenario.lowercase_reward = false
  /\ isValidTransaction Scenario.s2
       (set_signature (Some "NETWORK_REWARD") Scenario.lowercase_reward) = false.
Proof. split_and!; by_evaluation. Qed.

(* ===================================================================== *)
(** * Proposer election                                                   *)
(* ===================================================================== *)

(** C2 (what the code does instead): [selectValidator] does not read the
    chain, so the header of the prior block is no input of it, and its
    result follows the draw of [Math.random]: on the ledger [Scenario.s4],
    with the two active validators [aur1validator] (stake 1000) and
    [aur1carol] (stake 1500), the draw 0.1 elects the first and the draw
    0.9 the second. *)
Theorem selectValidator_follows_the_draw :
  (forall random c st, selectValidator random (with_chain c st)
                       = selectValidator random st)
  /\ map (fun v => (val_address v, val_stake v, isActive v))
         (getValidators Scenario.s4)
     = [("aur1validator", Number.of_Z 1000, true);
        ("aur1carol", Number.of_Z 1500, true)]
  /\ Number.toString Scenario.draw_01 = "0.1"
  /\ Number.toString Scenario.draw_09 = "0.9"
  /\ selectValidator Scenario.draw_01 Scenario.s4 = Ok "aur1validator"
  /\ selectValidator Scenario.draw_09 Scenario.s4 = Ok "aur1carol".
Proof.
  split; [reflexivity |].
  split_and!; by_evaluation.
Qed.

(* ===================================================================== *)
(** * Keystore                                                            *)
(* ===================================================================== *)

Lemma hex_val_hex_digit (d : Z) :
  0 <= d < 16 -> Keys.hex_val (hex_digit d) = Some d.
Proof.
  intros H.
  assert (d = 0 \/ d = 1 \/ d = 2 \/ d = 3 \/ d = 4 \/ d = 5 \/ d = 6 \/ d = 7
          \/ d = 8 \/ d = 9 \/ d = 10 \/ d = 11 \/ d = 12 \/ d = 13 \/ d = 14
          \/ d = 15) as Hd by lia.
  repeat (destruct Hd as [->|Hd]; [reflexivity |]). subst d. reflexivity.
Qed.

Lemma byte_split (b : Z) :
  0 <= b < 256 ->
  0 <= Z.shiftr b 4 < 16 /\ 0 <= Z.land b 15 < 16
  /\ 16 * Z.shiftr b 4 + Z.land b 15 = b.
Proof.
  intros H. rewrite Z.shiftr_div_pow2 by lia.
  change 15 with (Z.ones 4). rewrite Z.land_ones by lia.
  change (2 ^ 4) with 16.
  pose proof (Z.div_mod b 16 ltac:(lia)).
  pose proof (Z.mod_pos_bound b 16 ltac:(lia)).
  assert (0 <= b / 16 < 16) by (split; [apply Z.div_pos | apply Z.div_lt_upper_bound]; lia).
  lia.
Qed.

Lemma bytes_of_hex_of_bytes (bs : list Z) :
  is_bytes bs -> Keys.bytes_of_hex (hex_of_bytes bs) = bs.
Proof.
  induction 1 as [|b bs Hb _ IH]; [reflexivity |].
  destruct (byte_split b Hb) as (H1 & H2 & H3).
  cbn [hex_of_bytes Keys.bytes_of_hex].
  rewrite !hex_val_hex_digit by assumption. now rewrite IH, H3.
Qed.

Lemma lower_hex_digit_val (c : ascii) :
  lower_hex_digit c = true ->
  exists x, 0 <= x < 16 /\ Keys.hex_val c = Some x /\ hex_digit x = c.
Proof.
  destruct c as [[] [] [] [] [] [] [] []]; intros H;
    try discriminate H; eexists; (split; [|split; reflexivity]); cbn; lia.
Qed.

Lemma hex_of_pair (x y : Z) :
  0 <= x < 16 -> 0 <= y < 16 ->
  Z.shiftr (16 * x + y) 4 = x /\ Z.land (16 * x + y) 15 = y.
Proof.
  intros Hx Hy. rewrite Z.shiftr_div_pow2 by lia.
  change 15 with (Z.ones 4). rewrite Z.land_ones by lia.
  change (2 ^ 4) with 16. split.
  - symmetry. apply (Z.div_unique (16 * x + y) 16 x y); lia.
  - symmetry. apply (Z.mod_unique (16 * x + y) 16 x y); lia.
Qed.

Lemma hex_of_bytes_of_hex (s : string) :
  canonical_hex s = true -> hex_of_bytes (Keys.bytes_of_hex s) = s.
Proof.
  enough (H : (canonical_hex s = true -> hex_of_bytes (Keys.bytes_of_hex s) = s)
              /\ (forall a, canonical_hex (String a s) = true ->
                            hex_of_bytes (Keys.bytes_of_hex (String a s))
                            = String a s)) by apply H.
  induction s as [|b s [IH1 IH2]].
  - split; [reflexivity | discriminate].
  - split; [apply IH2 |].
    intros a H. cbn [canonical_hex] in H.
    apply andb_true_iff in H as [H Hs]. apply andb_true_iff in H as [Ha Hb].
    destruct (lower_hex_digit_val a Ha) as (x & Hx & Hxa & Hxd).
    destruct (lower_hex_digit_val b Hb) as (y & Hy & Hyb & Hyd).
    cbn [Keys.bytes_of_hex]. rewrite Hxa, Hyb. cbn [hex_of_bytes].
    destruct (hex_of_pair x y Hx Hy) as [-> ->].
    now rewrite Hxd, Hyd, IH1.
Qed.

Lemma xor_bytes_length (xs ys : list Z) :
  (length xs <= length ys)%nat -> length (Keys.xor_bytes xs ys) = length xs.
Proof.
  intros H. unfold Keys.xor_bytes.
  rewrite length_map, length_combine. lia.
Qed.

Lemma xor_bytes_involutive (xs ys : list Z) :
  (length xs <= length ys)%nat ->
  Keys.xor_bytes (Keys.xor_bytes xs ys) ys = xs.
Proof.
  revert ys. induction xs as [|x xs IH]; intros [|y ys] H; cbn in *;
    try reflexivity; try lia.
  rewrite Z.lxor_assoc, Z.lxor_nilpotent, Z.lxor_0_r.
  f_equal. apply IH. lia.
Qed.

Lemma lxor_byte (x y : Z) :
  0 <= x < 256 -> 0 <= y < 256 -> 0 <= Z.lxor x y < 256.
Proof.
  intros Hx Hy.
  assert (0 <= Z.lxor x y) by (apply Z.lxor_nonneg; lia).
  split; [assumption |].
  destruct (Z.eq_dec (Z.lxor x y) 0) as [->|Hnz]; [lia |].
  apply (Z.log2_lt_pow2 _ 8); [lia |].
  pose proof (Z.log2_lxor x y ltac:(lia) ltac:(lia)).
  assert (Z.log2 x < 8).
  { destruct (Z.eq_dec x 0) as [->|]; [cbn; lia |]. apply Z.log2_lt_pow2; lia. }
  assert (Z.log2 y < 8).
  { destruct (Z.eq_dec y 0) as [->|]; [cbn; lia |]. apply Z.log2_lt_pow2; lia. }
  lia.
Qed.

Lemma is_bytes_xor (xs ys : list Z) :
  is_bytes xs -> is_bytes ys -> is_bytes (Keys.xor_bytes xs ys).
Proof.
  unfold is_bytes, Keys.xor_bytes. intros Hx. revert ys.
  induction Hx as [|x xs Hx _ IH]; intros ys Hy; [constructor |].
  destruct Hy as [|y ys Hy Hys]; [constructor |].
  cbn. constructor; [now apply lxor_byte | now apply IH].
Qed.

Lemma is_bytes_bytes_of_hex (s : string) : is_bytes (Keys.bytes_of_hex s).
Proof.
  enough (H : is_bytes (Keys.bytes_of_hex s)
              /\ forall a, is_bytes (Keys.bytes_of_hex (String a s))) by apply H.
  induction s as [|b s [IH1 IH2]].
  - split; [constructor | intros a; constructor].
  - split; [apply IH2 |]. intros a. cbn [Keys.bytes_of_hex].
    destruct (Keys.hex_val a) as [x|] eqn:Ea; [|constructor].
    destruct (Keys.hex_val b) as [y|] eqn:Eb; [|constructor].
    constructor; [|exact IH1].
    assert (Hv : forall c v, Keys.hex_val c = Some v -> 0 <= v < 16).
    { intros c v. unfold Keys.hex_val.
      repeat match goal with
             | |- context [if ?t then _ else _] => destruct t eqn:?
             end; intros [= <-]; lia. }
    pose proof (Hv a x Ea). pose proof (Hv b y Eb). lia.
Qed.

Section KeystoreFacts.

Variable scrypt : string -> list Z -> nat -> Z -> Z -> Z -> result (list Z).
Variable aes256 : list Z -> list Z -> list Z.

(** The block function returns 16 bytes. *)
Hypothesis aes256_block :
  forall key block, length (aes256 key block) = 16%nat
                    /\ is_bytes (aes256 key block).

(** With the parameters that [encryptPrivateKey] writes into the keystore,
    [scrypt] derives a key of the 32 bytes asked for, whatever the password
    and the salt. *)
Hypothesis scrypt_derives :
  forall password salt,
    exists key, scrypt password salt 32 16384 8 1 = Ok key
                /\ length key = 32%nat.

Lemma keystream_length (key : list Z) (counter : Z) (blocks : nat) :
  length (Keys.keystream aes256 key counter blocks) = (16 * blocks)%nat.
Proof.
  revert counter. induction blocks as [|b IH]; intros counter; [reflexivity |].
  cbn [Keys.keystream]. rewrite length_app, IH.
  destruct (aes256_block key (be_bytes 16 counter)) as [-> _]. lia.
Qed.

Lemma keystream_bytes (key : list Z) (counter : Z) (blocks : nat) :
  is_bytes (Keys.keystream aes256 key counter blocks).
Proof.
  revert counter. induction blocks as [|b IH]; intros counter; [constructor |].
  cbn [Keys.keystream]. apply Forall_app. split; [|apply IH].
  apply aes256_block.
Qed.

Lemma keystream_covers (key : list Z) (counter : Z) (data : list Z) :
  (length data
   <= length (Keys.keystream aes256 key counter (S (length data / 16))))%nat.
Proof.
  rewrite keystream_length.
  pose proof (Nat.div_mod_eq (length data) 16).
  pose proof (Nat.mod_upper_bound (length data) 16). lia.
Qed.

(** The counter mode with a key of 32 bytes and an [iv] of 16 bytes: it
    returns, keeps the length, and undoes itself. *)
Lemma aes_256_ctr_returns (key iv data : list Z) :
  length key = 32%nat -> length iv = 16%nat ->
  exists out,
    Keys.aes_256_ctr aes256 key iv data = Ok out
    /\ length out = length data
    /\ (is_bytes data -> is_bytes out)
    /\ Keys.aes_256_ctr aes256 key iv out = Ok data.
Proof.
  intros Hk Hi. unfold Keys.aes_256_ctr. rewrite Hk, Hi. cbn [Nat.eqb negb].
  eexists. split; [reflexivity |].
  pose proof (keystream_covers key (Keys.int_of_bytes iv) data) as Hc.
  rewrite xor_bytes_length by exact Hc.
  split; [reflexivity | split].
  - intros Hd. apply is_bytes_xor; [exact Hd | apply keystream_bytes].
  - now rewrite xor_bytes_involutive.
Qed.

Lemma length_hex_of_bytes (bs : list Z) :
  String.length (hex_of_bytes bs) = (2 * length bs)%nat.
Proof. induction bs as [|b bs IH]; cbn [hex_of_bytes String.length length]; lia. Qed.

(** What [encryptPrivateKey] returns and what [decryptPrivateKey] makes of
    it, with the password of the encryption and with any password. *)
Lemma keystore_entry (salt iv : list Z) (privateKey password : string) :
  is_bytes salt -> is_bytes iv -> length iv = 16%nat ->
  exists encrypted options,
    Keys.encryptPrivateKey scrypt aes256 salt iv privateKey password
    = Ok (encrypted, options)
    /\ Keys.decryptPrivateKey scrypt aes256 encrypted password options
       = Ok (hex_of_bytes (Keys.bytes_of_hex privateKey))
    /\ (canonical_hex privateKey = true ->
        Keys.decryptPrivateKey scrypt aes256 encrypted password options
        = Ok privateKey)
    /\ (forall other,
           exists returned,
             Keys.decryptPrivateKey scrypt aes256 encrypted other options
             = Ok returned
             /\ String.length returned
                = String.length (hex_of_bytes (Keys.bytes_of_hex privateKey))).
Proof.
  intros Hsalt Hiv Hlen.
  destruct (scrypt_derives password salt) as (key & Hs & Hk).
  destruct (aes_256_ctr_returns key iv (Keys.bytes_of_hex privateKey) Hk Hlen)
    as (enc & He & Hl & Hb & Hd).
  specialize (Hb (is_bytes_bytes_of_hex privateKey)).
  unfold Keys.encryptPrivateKey. rewrite Hs. cbn. rewrite He. cbn.
  eexists _, _. split; [reflexivity |].
  assert (Hdec : Keys.decryptPrivateKey scrypt aes256 (hex_of_bytes enc) password
                   (Keys.mkKeystoreOptions "scrypt"
                      (Keys.mkKdfparams 32 (hex_of_bytes salt) 16384 8 1)
                      "aes-256-ctr" (Keys.mkCipherparams (hex_of_bytes iv)))
                 = Ok (hex_of_bytes (Keys.bytes_of_hex privateKey))).
  { unfold Keys.decryptPrivateKey. cbn.
    rewrite !bytes_of_hex_of_bytes by assumption.
    rewrite Hs. cbn. rewrite Hd. reflexivity. }
  split; [exact Hdec | split].
  - intros Hc. rewrite Hdec. now rewrite hex_of_bytes_of_hex.
  - intros other.
    destruct (scrypt_derives other salt) as (key' & Hs' & Hk').
    destruct (aes_256_ctr_returns key' iv enc Hk' Hlen) as (out & Ho & Hol & _ & _).
    exists (hex_of_bytes out). split.
    + unfold Keys.decryptPrivateKey. cbn.
      rewrite !bytes_of_hex_of_bytes by assumption.
      rewrite Hs'. cbn. rewrite Ho. reflexivity.
    + rewrite !length_hex_of_bytes. lia.
Qed.

(** C7 (as the code has it): with [salt] and [iv] as [randomBytes] gives
    them, [encryptPrivateKey] returns a keystore entry from which
    [decryptPrivateKey] with the same password returns the private key,
    for every private key written as an even number of lower-case
    hexadecimal digits; and with any other password [decryptPrivateKey]
    throws nothing: it returns a string of the same length. *)
Theorem keystore_round_trip (salt iv : list Z) (privateKey password : string) :
  is_bytes salt -> is_bytes iv -> length iv = 16%nat ->
  canonical_hex privateKey = true ->
  exists encrypted options,
    Keys.encryptPrivateKey scrypt aes256 salt iv privateKey password
    = Ok (encrypted, options)
    /\ Keys.decryptPrivateKey scrypt aes256 encrypted password options
       = Ok privateKey
    /\ (forall other,
           other <> password ->
           exists returned,
             Keys.decryptPrivateKey scrypt aes256 encrypted other options
             = Ok returned
             /\ String.length returned = String.length privateKey).
Proof.
  intros Hsalt Hiv Hlen Hc.
  destruct (keystore_entry salt iv privateKey password Hsalt Hiv Hlen)
    as (encrypted & options & He & _ & Hd & Ho).
  exists encrypted, options. split; [exact He |]. split; [exact (Hd Hc) |].
  intros other _. destruct (Ho other) as (returned & Hr & Hl).
  exists returned. split; [exact Hr |].
  now rewrite Hl, hex_of_bytes_of_hex.
Qed.

End KeystoreFacts.

Lemma stub_aes256_block (key block : list Z) :
  length (Stub.aes256 key block) = 16%nat /\ is_bytes (Stub.aes256 key block).
Proof.
  unfold Stub.aes256. split; [apply repeat_length |].
  apply List.Forall_forall. intros b Hb. apply repeat_spec in Hb. subst b.
  apply Z.mod_pos_bound. lia.
Qed.

Lemma stub_scrypt_derives (password : string) (salt : list Z) :
  exists key, Stub.scrypt password salt 32 16384 8 1 = Ok key
              /\ length key = 32%nat.
Proof.
  eexists. split; [reflexivity |].
  rewrite length_firstn, length_app, repeat_length. lia.
Qed.

Lemma keystore_round_trip_witness :
  exists encrypted options,
    Keys.encryptPrivateKey Stub.scrypt Stub.aes256 Stub.salt Stub.iv
                           Stub.privateKey Stub.password
    = Ok (encrypted, options)
    /\ Keys.decryptPrivateKey Stub.scrypt Stub.aes256 encrypted Stub.password
                              options
       = Ok Stub.privateKey
    /\ (forall other,
           other <> Stub.password ->
           exists returned,
             Keys.decryptPrivateKey Stub.scrypt Stub.aes256 encrypted other
                                    options
             = Ok returned
             /\ String.length returned = String.length Stub.privateKey).
Proof.
  apply (keystore_round_trip Stub.scrypt Stub.aes256
           stub_aes256_block stub_scrypt_derives).
  - apply List.Forall_forall. intros b Hb. apply repeat_spec in Hb. subst b. lia.
  - apply List.Forall_forall. intros b Hb. apply repeat_spec in Hb. subst b. lia.
  - reflexivity.
  - reflexivity.
Defined.

(** C7 (as the spec has it) fails on a wrong password: whatever [scrypt]
    and the block function compute, decrypting the entry of a private key
    with another password than the one of the encryption returns a string;
    nothing is thrown. *)
Lemma wrong_password_counterexample :
  exists privateKey password other,
    privateKey = Stub.privateKey /\ password = "correct horse"
    /\ other = "wrong" /\ other <> password
    /\ forall (scrypt : string -> list Z -> nat -> Z -> Z -> Z -> result (list Z))
              (aes256 : list Z -> list Z -> list Z) (salt iv : list Z),
         (forall key block, length (aes256 key block) = 16%nat
                            /\ is_bytes (aes256 key block)) ->
         (forall password salt,
             exists key, scrypt password salt 32%nat 16384 8 1 = Ok key
                         /\ length key = 32%nat) ->
         is_bytes salt -> is_bytes iv -> length iv = 16%nat ->
         exists encrypted options returned,
           Keys.encryptPrivateKey scrypt aes256 salt iv privateKey password
           = Ok (encrypted, options)
           /\ Keys.decryptPrivateKey scrypt aes256 encrypted other options
              = Ok returned.
Proof.
  exists Stub.privateKey, "correct horse", "wrong".
  split_and!; try reflexivity; [discriminate |].
  intros scrypt aes256 salt iv Haes Hscrypt Hsalt Hiv Hlen.
  destruct (keystore_entry scrypt aes256 Haes Hscrypt salt iv
              Stub.privateKey "correct horse" Hsalt Hiv Hlen)
    as (encrypted & options & He & _ & _ & Ho).
  destruct (Ho "wrong") as (returned & Hr & _).
  now exists encrypted, options, returned.
Qed.

(** With the stand-ins, the wrong password returns another key. *)
Example wrong_password_returns_another_key :
  exists encrypted options,
    Keys.encryptPrivateKey Stub.scrypt Stub.aes256 Stub.salt Stub.iv
                           Stub.privateKey Stub.password
    = Ok (encrypted, options)
    /\ Keys.decryptPrivateKey Stub.scrypt Stub.aes256 encrypted "wrong" options
       = Ok "0b0a09080f0e0d0c03020100070605041b1a19181f1e1d1c1312111017161514".
Proof.
  eexists _, _. split.
  - by_evaluation.
  - by_evaluation.
Qed.

(* ===================================================================== *)
(** * Wallet                                                              *)
(* ===================================================================== *)

Section WalletFacts.

Variable scrypt : string -> list Z -> nat -> Z -> Z -> Z -> result (list Z).
Variable aes256 : list Z -> list Z -> list Z.
Variable ecdsaSign : list Z -> list Z -> result (list Z * Z).
Variable walletDir : gmap string Wallet.WalletFile.

(** [sign] returns for no data and no key: either [ecdsaSign] throws, or
    the call of [copy] does. *)
Lemma sign_throws (data : string) (privateKey : list Z) :
  Wallet.sign ecdsaSign data privateKey = Throw "Failed to sign data".
Proof. unfold Wallet.sign. now destruct (ecdsaSign _ _). Qed.

Lemma signMessage_throws (message : Transaction) (privateKey : string) :
  Wallet.signMessage ecdsaSign message privateKey
  = Throw "Failed to sign message".
Proof. unfold Wallet.signMessage. now rewrite sign_throws. Qed.

Lemma wallet_createTransaction_throws (now : Z)
  (request : Wallet.TransactionRequest) (password : string)
  (type : TransactionType) :
  Wallet.createTransaction scrypt aes256 ecdsaSign walletDir
                           now request password type
  = Throw "Failed to create transaction".
Proof.
  unfold Wallet.createTransaction.
  destruct (Wallet.loadWallet _ _ _ _ _) as [wallet|]; [|reflexivity].
  cbn. now rewrite signMessage_throws.
Qed.

(** C8 (what the code does instead): [createTransaction] returns no
    transaction, for no request and no password: where the wallet is
    loaded, the signing throws, and the call throws the error [Failed to
    create transaction].  The transaction that it has built by then
    carries the sequence number 0, a literal, whatever the sender's account
    says; under any signature it is rejected by [isValidTransaction] in
    every state in which the sender's sequence is not 0, as it is after one
    confirmed transaction. *)
Theorem createTransaction_throws_and_nonce_is_zero (now : Z)
  (request : Wallet.TransactionRequest) (password : string)
  (type : TransactionType) :
  Wallet.createTransaction scrypt aes256 ecdsaSign walletDir
                           now request password type
  = Throw "Failed to create transaction"
  /\ tx_nonce (Wallet.unsignedTransaction now request type) = 0
  /\ tx_from (Wallet.unsignedTransaction now request type)
     = Wallet.req_from request
  /\ tx_type (Wallet.unsignedTransaction now request type) = type
  /\ forall st sender sig,
       accounts st !! Wallet.req_from request = Some sender ->
       acc_nonce sender <> 0 ->
       ~ (type = REWARD /\ Wallet.req_from request = "NETWORK") ->
       isValidTransaction st
         (set_signature sig (Wallet.unsignedTransaction now request type))
       = false.
Proof.
  split_and!; try reflexivity; [apply wallet_createTransaction_throws |].
  intros st sender sig Hacc Hn Hnot.
  match goal with |- isValidTransaction st ?t = false =>
    destruct (isValidTransaction st t) eqn:E; [exfalso | reflexivity];
    destruct (isValidTransaction_nonce st t) as (sender' & Hacc' & Hn')
  end.
  - destruct (isNetworkReward _) eqn:Er; [|reflexivity].
    apply isNetworkReward_spec in Er. contradiction.
  - exact E.
  - cbn in Hacc', Hn'. congruence.
Qed.

End WalletFacts.

Lemma createTransaction_throws_and_nonce_is_zero_witness :
  let tx := Wallet.unsignedTransaction Scenario.t0 Stub.request REGULAR in
  Wallet.createTransaction Stub.scrypt Stub.aes256 Stub.ecdsaSign
                           Stub.walletDir Scenario.t0 Stub.request
                           Stub.password REGULAR
  = Throw "Failed to create transaction"
  /\ tx_nonce tx = 0
  /\ sequenceOf Scenario.s2 "aur1alice" = 0
  /\ isValidTransaction Scenario.s2 (set_signature (Some "sig") tx) = true
  /\ sequenceOf Scenario.s5 "aur1alice" = 1
  /\ isValidTransaction Scenario.s5 (set_signature (Some "sig") tx) = false.
Proof.
  intros tx.
  assert (Hacc : accounts Scenario.s5 !! Wallet.req_from Stub.request
                 = Some (mkAccount "aur1alice" 89 1 0)) by by_evaluation.
  destruct (createTransaction_throws_and_nonce_is_zero
              Stub.scrypt Stub.aes256 Stub.ecdsaSign Stub.walletDir
              Scenario.t0 Stub.request Stub.password REGULAR)
    as (Hc & Hn & _ & _ & Hrej).
  split; [exact Hc |]. split; [exact Hn |].
  split; [by_evaluation |]. split; [by_evaluation |]. split; [by_evaluation |].
  apply (Hrej Scenario.s5 (mkAccount "aur1alice" 89 1 0) (Some "sig") Hacc).
  - discriminate.
  - intros [Hty _]. discriminate Hty.
Defined.

(* ===================================================================== *)
(** * Peer handshake                                                      *)
(* ===================================================================== *)

Lemma getPeers_oget (svc : P2P.P2PService) (peerId : string)
  (socket : P2P.WebSocket) (peer : P2P.Peer) :
  oget peerId (P2P.peers svc) = Some (socket, peer) ->
  In peer (P2P.getPeers svc).
Proof.
  intros H. unfold P2P.getPeers.
  change peer with (snd (socket, peer)). apply in_map.
  exact (oget_Some_In _ _ _ H).
Qed.

(** C9: a handshake whose [networkId] is not the one of the node's
    configuration is answered with a [DISCONNECT] message on the same
    socket, the socket is closed, and the peer table, hence [getPeers], is
    as before: a peer that was not listed is not listed afterwards.  A
    handshake with the node's [networkId] stores the peer under its
    [nodeId], so [getPeers] lists it, and the socket stays open. *)
Theorem handleHandshake_networkId (now : Z) (socket : P2P.WebSocket)
  (nodeId version : string) (port : Z) (networkId : string)
  (svc : P2P.P2PService) :
  let svc' := P2P.handleHandshake now socket nodeId version port networkId svc in
  (networkId <> P2P.networkId (P2P.config svc) ->
   P2P.sent svc'
   = (P2P.sent svc
      ++ [(socket,
           P2P.mkP2PMessage P2P.DISCONNECT
             (P2P.DisconnectData "Network ID mismatch") (P2P.nodeId svc) now)])%list
   /\ P2P.closed svc' = (P2P.closed svc ++ [socket])%list
   /\ P2P.peers svc' = P2P.peers svc
   /\ P2P.getPeers svc' = P2P.getPeers svc
   /\ P2P.emitted svc' = P2P.emitted svc
   /\ ((forall p, In p (P2P.getPeers svc) -> P2P.id p <> nodeId) ->
       forall p, In p (P2P.getPeers svc') -> P2P.id p <> nodeId))
  /\ (networkId = P2P.networkId (P2P.config svc) ->
      exists peer,
        oget nodeId (P2P.peers svc') = Some (socket, peer)
        /\ P2P.id peer = nodeId
        /\ In peer (P2P.getPeers svc')
        /\ P2P.closed svc' = P2P.closed svc
        /\ P2P.emitted svc' = (P2P.emitted svc ++ [P2P.peer_connected peer])%list
        /\ P2P.sent svc'
           = (P2P.sent svc
              ++ [(socket,
                   P2P.mkP2PMessage P2P.GET_PEERS P2P.EmptyData
                                    (P2P.nodeId svc) now)])%list).
Proof.
  intros svc'. subst svc'. unfold P2P.handleHandshake. split.
  - intros Hne. rewrite bool_decide_eq_false_2 by exact Hne. cbn.
    split_and!; try reflexivity. auto.
  - intros He. rewrite bool_decide_eq_true_2 by exact He.
    cbv zeta. cbn [negb].
    eexists. split; [apply oget_oset_eq |].
    split; [reflexivity |]. split; [|split_and!; reflexivity].
    eapply getPeers_oget.
    cbn [P2P.peers P2P.sendMessage P2P.emit P2P.with_peers].
    apply oget_oset_eq.
Qed.

Lemma handleHandshake_networkId_witness :
  (forall p,
      In p (P2P.getPeers
              (P2P.handleHandshake 1700000000000 Session.socket "aurum-2c7"
                 "0.1.0" 30304 "other" Session.node)) ->
      P2P.id p <> "aurum-2c7")
  /\ exists peer,
       oget "aurum-2c7"
            (P2P.peers
               (P2P.handleHandshake 1700000000000 Session.socket "aurum-2c7"
                  "0.1.0" 30304 "aurum-mainnet" Session.node))
       = Some (Session.socket, peer)
       /\ In peer
            (P2P.getPeers
               (P2P.handleHandshake 1700000000000 Session.socket "aurum-2c7"
                  "0.1.0" 30304 "aurum-mainnet" Session.node)).
Proof.
  split.
  - apply (proj1 (handleHandshake_networkId 1700000000000 Session.socket
                    "aurum-2c7" "0.1.0" 30304 "other" Session.node)).
    + discriminate.
    + intros p [].
  - destruct (proj2 (handleHandshake_networkId 1700000000000 Session.socket
                       "aurum-2c7" "0.1.0" 30304 "aurum-mainnet" Session.node)
                eq_refl) as (peer & Hp & _ & Hin & _).
    exists peer. split; assumption.
Defined.

Example mismatched_handshake :
  let svc' := P2P.handleHandshake 1700000000000 Session.socket "aurum-2c7"
                "0.1.0" 30304 "other" Session.node in
  P2P.getPeers svc' = []
  /\ P2P.closed svc' = [Session.socket]
  /\ P2P.getPeers (P2P.handleDisconnect Session.socket svc') = [].
Proof. split_and!; by_evaluation. Qed.

Example matching_handshake :
  P2P.getPeers
    (P2P.handleHandshake 1700000000000 Session.socket "aurum-2c7" "0.1.0"
                         30304 "aurum-mainnet" Session.node)
  = [P2P.mkPeer "aurum-2c7" "unknown" 30304 1700000000000 "0.1.0" []].
Proof. by_evaluation. Qed.

(* ===================================================================== *)
(** * Validator registry                                                  *)
(* ===================================================================== *)

Lemma ohas_oget {V : Type} (k : string) (m : omap V) :
  ohas k m = true <-> exists v, oget k m = Some v.
Proof.
  unfold ohas. destruct (oget k m) as [v|].
  - split; [eauto | reflexivity].
  - split; [discriminate | intros [v [=]]].
Qed.

(** What [registerValidator] does with a stake that is not below
    [minStake], on a chain that has a block. *)
Lemma registerValidator_accepts (now : Z) (address : string) (amount : number)
  (st : Blockchain) :
  Number.ltb amount (minStake (chainParams st)) = false ->
  chain st <> [] ->
  exists st' v,
    registerValidator now address amount st = Ok (true, st')
    /\ getValidator st' address = Some v
    /\ isActive v = true
    /\ val_stake v = match getValidator st address with
                     | Some registered => Number.add (val_stake registered) amount
                     | None => amount
                     end
    /\ (forall a, a <> address -> getValidator st' a = getValidator st a)
    /\ accounts st' = accounts st
    /\ chain st' = chain st
    /\ pendingTransactions st' = pendingTransactions st
    /\ chainParams st' = chainParams st.
Proof.
  intros Hmin Hne. unfold registerValidator, getValidator. rewrite Hmin.
  unfold ohas, update_validator.
  destruct (oget address (validators st)) as [v|] eqn:Hv; cbn.
  - eexists _, _. split; [reflexivity |]. cbn.
    rewrite oget_oset_eq. split_and!; try reflexivity.
    intros a Ha. now apply oget_oset_ne.
  - unfold latestHeader.
    destruct (getLatestBlock_nonempty st Hne) as [b ->]. cbn.
    eexists _, _. split; [reflexivity |]. cbn.
    rewrite oget_oset_eq. split_and!; try reflexivity.
    intros a Ha. now apply oget_oset_ne.
Qed.

(** X1: [registerValidator] refuses a stake below [minStake] and changes
    nothing; with a stake that is not below [minStake], on a chain that has
    a block, it returns true and leaves the address registered and active,
    with the sum of the stake it had recorded before and the new stake, or
    with the new stake if it was not registered, every other validator, the
    accounts, the chain and the pool being as before.  The accounts are
    not consulted.  For integers up to [2^53] the stake is refused exactly
    when it is less than [minStake], and the stake recorded for a
    registered address is the number nearest to the sum of the two
    integers. *)
Theorem registerValidator_below_and_above_minStake (now : Z)
  (address : string) (amount : number) (st : Blockchain) :
  (Number.ltb amount (minStake (chainParams st)) = true ->
   registerValidator now address amount st = Ok (false, st))
  /\ (Number.ltb amount (minStake (chainParams st)) = false ->
      chain st <> [] ->
      exists st' v,
        registerValidator now address amount st = Ok (true, st')
        /\ getValidator st' address = Some v
        /\ isActive v = true
        /\ val_stake v
           = match getValidator st address with
             | Some registered => Number.add (val_stake registered) amount
             | None => amount
             end
        /\ (forall a, a <> address -> getValidator st' a = getValidator st a)
        /\ accounts st' = accounts st
        /\ chain st' = chain st
        /\ pendingTransactions st' = pendingTransactions st)
  /\ (forall staked least,
         amount = Number.of_Z staked ->
         minStake (chainParams st) = Number.of_Z least ->
         Number.safe staked -> Number.safe least ->
         (Number.ltb amount (minStake (chainParams st)) = true
          <-> staked < least)
         /\ forall registered recorded,
              getValidator st address = Some registered ->
              val_stake registered = Number.of_Z recorded ->
              Number.safe recorded ->
              Number.add (val_stake registered) amount
              = Number.of_Z (recorded + staked)).
Proof.
  split_and!.
  - intros Hlt. unfold registerValidator. now rewrite Hlt.
  - intros Hmin Hne.
    destruct (registerValidator_accepts now address amount st Hmin Hne)
      as (st' & v & H). exists st', v. tauto.
  - intros staked least -> -> Ss Sl. split.
    + rewrite NumberFacts.ltb_of_Z by assumption. apply Z.ltb_lt.
    + intros registered recorded _ -> Sr. now apply NumberFacts.add_of_Z.
Qed.

Lemma registerValidator_below_and_above_minStake_witness :
  registerValidator Scenario.t0 "aur1dave" (Number.of_Z 999) Scenario.s4
  = Ok (false, Scenario.s4)
  /\ (exists st' v,
       registerValidator Scenario.t0 "aur1carol" (Number.of_Z 1000) Scenario.s4
       = Ok (true, st')
       /\ getValidator st' "aur1carol" = Some v
       /\ isActive v = true
       /\ val_stake v
          = match getValidator Scenario.s4 "aur1carol" with
            | Some registered =>
                Number.add (val_stake registered) (Number.of_Z 1000)
            | None => Number.of_Z 1000
            end
       /\ (forall a, a <> "aur1carol" ->
                     getValidator st' a = getValidator Scenario.s4 a)
       /\ accounts st' = accounts Scenario.s4
       /\ chain st' = chain Scenario.s4
       /\ pendingTransactions st' = pendingTransactions Scenario.s4)
  /\ Number.add (Number.of_Z 1500) (Number.of_Z 1000) = Number.of_Z (1500 + 1000).
Proof.
  assert (H1 : Number.ltb (Number.of_Z 999) (minStake (chainParams Scenario.s4))
               = true) by by_evaluation.
  assert (H2 : Number.ltb (Number.of_Z 1000) (minStake (chainParams Scenario.s4))
               = false) by by_evaluation.
  assert (H3 : chain Scenario.s4 <> []) by (vm_compute; discriminate).
  assert (H4 : getValidator Scenario.s4 "aur1carol"
               = Some (mkValidator "aur1carol" 1500 true 2 0 "aur1carol"
                                   Scenario.t0)) by by_evaluation.
  split; [|split].
  - exact (proj1 (registerValidator_below_and_above_minStake
                    Scenario.t0 "aur1dave" (Number.of_Z 999) Scenario.s4) H1).
  - exact (proj1 (proj2 (registerValidator_below_and_above_minStake
                    Scenario.t0 "aur1carol" (Number.of_Z 1000) Scenario.s4))
             H2 H3).
  - refine (proj2 (proj2 (proj2 (registerValidator_below_and_above_minStake
                    Scenario.t0 "aur1carol" (Number.of_Z 1000) Scenario.s4))
                    1000 1000 eq_refl _ _ _) _ 1500 H4 eq_refl _);
      first [by_evaluation | unfold Number.safe; lia].
Defined.

(* ===================================================================== *)
(** * Staking and rewards                                                 *)
(* ===================================================================== *)

Lemma isValidTransaction_stake (st : Blockchain) (tx : Transaction) :
  tx_type tx = STAKE ->
  isValidTransaction st tx = true ->
  exists sender,
    accounts st !! tx_from tx = Some sender
    /\ Number.ltb (balance sender) (Number.add (tx_amount tx) (tx_fee tx))
       = false
    /\ Number.ltb (tx_amount tx) (minStake (chainParams st)) = false
    /\ tx_nonce tx = acc_nonce sender.
Proof.
  intros Ht. unfold isValidTransaction, isNetworkReward. rewrite Ht. cbn.
  destruct (negb (verifyTransactionSignature tx)); [discriminate |].
  destruct (accounts st !! tx_from tx) as [sender|]; [|discriminate].
  destruct (Number.ltb (balance sender) _) eqn:Eb; [discriminate |].
  destruct (Number.ltb (tx_amount tx) _) eqn:Em; [discriminate |].
  cbn. destruct (tx_nonce tx =? acc_nonce sender) eqn:En; [|discriminate].
  intros _. exists sender. split_and!; first [reflexivity | assumption | lia].
Qed.

Lemma staked_account_lookup (tx : Transaction) (st : Blockchain) (a : string) :
  accounts (staked_account tx st) !! a
  = if decide (tx_from tx = a)
    then Some (let acc := account_or_new st (tx_from tx) in
               mkAccount (acc_address acc)
                         (Number.sub (balance acc)
                            (Number.add (tx_amount tx) (tx_fee tx)))
                         (acc_nonce acc + 1)
                         (Number.add (stake acc) (tx_amount tx)))
    else accounts st !! a.
Proof.
  unfold staked_account. lookup_accounts; reflexivity.
Qed.

(** X2: a stake is only valid, and so only part of an accepted block, if
    its sender has an account whose balance is not below the rounded sum
    [amount + fee], and [amount] is not below [minStake], in the state
    before the block.  Processing such a stake returns (it throws nothing
    on a chain that has a block), takes the sum [amount + fee] from the
    sender's balance, adds [amount] to its stake, raises its sequence by
    one, leaves every other account as it was, and leaves the sender
    registered as an active validator whose recorded stake has grown by
    [amount], or is [amount] if the sender was not registered.  For
    integers up to [2^53], sums up to [2^53] included, the tests are
    [amount + fee <= balance] and [minStake <= amount], and the balance and
    the stake become the numbers nearest to [balance - (amount + fee)] and
    to [stake + amount]. *)
Theorem stake_validation_and_effect :
  (forall now block st st' tx,
      addBlock now block st = Ok (true, st') ->
      In tx (transactions block) ->
      tx_type tx = STAKE ->
      is_Some (accounts st !! tx_from tx)
      /\ Number.ltb (getAddressBalance st (tx_from tx))
                    (Number.add (tx_amount tx) (tx_fee tx)) = false
      /\ Number.ltb (tx_amount tx) (minStake (chainParams st)) = false)
  /\ (forall now st tx,
         chain st <> [] ->
         Number.ltb (tx_amount tx) (minStake (chainParams st)) = false ->
         exists st' v,
           processStakeTransaction now tx st = Ok st'
           /\ getAddressBalance st' (tx_from tx)
              = Number.sub (getAddressBalance st (tx_from tx))
                           (Number.add (tx_amount tx) (tx_fee tx))
           /\ getAddressStake st' (tx_from tx)
              = Number.add (getAddressStake st (tx_from tx)) (tx_amount tx)
           /\ sequenceOf st' (tx_from tx) = sequenceOf st (tx_from tx) + 1
           /\ (forall a, a <> tx_from tx -> accounts st' !! a = accounts st !! a)
           /\ getValidator st' (tx_from tx) = Some v
           /\ isActive v = true
           /\ val_stake v
              = match getValidator st (tx_from tx) with
                | Some registered =>
                    Number.add (val_stake registered) (tx_amount tx)
                | None => tx_amount tx
                end)
  /\ (forall st tx held staked amount fee least,
         getAddressBalance st (tx_from tx) = Number.of_Z held ->
         getAddressStake st (tx_from tx) = Number.of_Z staked ->
         tx_amount tx = Number.of_Z amount ->
         tx_fee tx = Number.of_Z fee ->
         minStake (chainParams st) = Number.of_Z least ->
         Number.safe held -> Number.safe staked -> Number.safe amount ->
         Number.safe fee -> Number.safe least -> Number.safe (amount + fee) ->
         (Number.ltb (getAddressBalance st (tx_from tx))
                     (Number.add (tx_amount tx) (tx_fee tx)) = false
          <-> amount + fee <= held)
         /\ (Number.ltb (tx_amount tx) (minStake (chainParams st)) = false
             <-> least <= amount)
         /\ Number.sub (getAddressBalance st (tx_from tx))
                       (Number.add (tx_amount tx) (tx_fee tx))
            = Number.of_Z (held - (amount + fee))
         /\ Number.add (getAddressStake st (tx_from tx)) (tx_amount tx)
            = Number.of_Z (staked + amount)).
Proof.
  split_and!.
  - intros now block st st' tx H Hin Hty.
    apply addBlock_accepted_valid, isValidBlock_transactions in H.
    rewrite forallb_forall in H. specialize (H tx Hin).
    destruct (isValidTransaction_stake st tx Hty H) as (sender & Hs & Hb & Hm & _).
    unfold getAddressBalance. rewrite Hs. eauto.
  - intros now st tx Hne Hmin.
    unfold processStakeTransaction. fold (staked_account tx st).
    destruct (registerValidator_accepts now (tx_from tx) (tx_amount tx)
                (staked_account tx st))
      as (st' & v & Hr & Hv & Hact & Hstake & _ & Hacc & _).
    { unfold staked_account. cbn. now rewrite chainParams_getOrCreateAccount. }
    { unfold staked_account. cbn. now rewrite chain_getOrCreateAccount. }
    assert (Hother : forall a, a <> tx_from tx ->
                       accounts (staked_account tx st) !! a = accounts st !! a).
    { intros a Ha. rewrite staked_account_lookup.
      destruct (decide (tx_from tx = a)); [congruence | reflexivity]. }
    exists st', v. rewrite Hr. cbn. split; [reflexivity |].
    unfold getAddressBalance at 1, getAddressStake at 1, sequenceOf at 1.
    rewrite Hacc, staked_account_lookup.
    destruct (decide (tx_from tx = tx_from tx)) as [_|]; [|contradiction].
    rewrite getAddressBalance_account_or_new, getAddressStake_account_or_new,
      sequenceOf_account_or_new. cbn.
    split_and!; try reflexivity; try assumption; try exact Hother.
    rewrite Hstake. unfold getValidator, staked_account. cbn.
    now rewrite validators_getOrCreateAccount.
  - intros st tx held staked amount fee least -> -> -> -> -> Sh Ss Sa Sf Sl Saf.
    rewrite !NumberFacts.add_of_Z, NumberFacts.sub_of_Z,
      !NumberFacts.ltb_of_Z by assumption.
    split_and!; try reflexivity.
    + destruct (Z.ltb_spec held (amount + fee)); split; intros; (lia || congruence).
    + destruct (Z.ltb_spec amount least); split; intros; (lia || congruence).
Qed.

Lemma stake_validation_and_effect_witness :
  let tx := Scenario.carol_stakes in
  let blk := Scenario.next_block Scenario.s3 [tx] in
  (is_Some (accounts Scenario.s3 !! tx_from tx)
   /\ Number.ltb (getAddressBalance Scenario.s3 (tx_from tx))
                 (Number.add (tx_amount tx) (tx_fee tx)) = false
   /\ Number.ltb (tx_amount tx) (minStake (chainParams Scenario.s3)) = false)
  /\ (exists st' v,
       processStakeTransaction Scenario.t0 tx Scenario.s3 = Ok st'
       /\ getAddressBalance st' (tx_from tx)
          = Number.sub (getAddressBalance Scenario.s3 (tx_from tx))
                       (Number.add (tx_amount tx) (tx_fee tx))
       /\ getAddressStake st' (tx_from tx)
          = Number.add (getAddressStake Scenario.s3 (tx_from tx)) (tx_amount tx)
       /\ sequenceOf st' (tx_from tx) = sequenceOf Scenario.s3 (tx_from tx) + 1
       /\ (forall a, a <> tx_from tx ->
                     accounts st' !! a = accounts Scenario.s3 !! a)
       /\ getValidator st' (tx_from tx) = Some v
       /\ isActive v = true
       /\ val_stake v
          = match getValidator Scenario.s3 (tx_from tx) with
            | Some registered =>
                Number.add (val_stake registered) (tx_amount tx)
            | None => tx_amount tx
            end)
  /\ Number.sub (getAddressBalance Scenario.s3 (tx_from tx))
                (Number.add (tx_amount tx) (tx_fee tx))
     = Number.of_Z (5000 - (1500 + 1))
  /\ Number.add (getAddressStake Scenario.s3 (tx_from tx)) (tx_amount tx)
     = Number.of_Z (0 + 1500).
Proof.
  intros tx blk.
  assert (H : addBlock Scenario.t0 blk Scenario.s3 = Ok (true, Scenario.s4))
    by by_evaluation.
  assert (Hin : In tx (transactions blk)) by (left; reflexivity).
  assert (Hne : chain Scenario.s3 <> []) by (vm_compute; discriminate).
  assert (Hmin : Number.ltb (tx_amount tx) (minStake (chainParams Scenario.s3))
                 = false) by by_evaluation.
  split; [|split].
  - exact (proj1 stake_validation_and_effect
             Scenario.t0 blk Scenario.s3 Scenario.s4 tx H Hin eq_refl).
  - exact (proj1 (proj2 stake_validation_and_effect)
             Scenario.t0 Scenario.s3 tx Hne Hmin).
  - refine (proj2 (proj2 (proj2 (proj2 stake_validation_and_effect)
                            Scenario.s3 tx 5000 0 1500 1 1000
                            _ _ _ _ _ _ _ _ _ _ _)));
      first [by_evaluation | unfold Number.safe; lia].
Defined.

Lemma processRewardTransaction_lookup (tx : Transaction) (st : Blockchain)
  (a : string) :
  accounts (processRewardTransaction tx st) !! a
  = if decide (tx_to tx = a)
    then Some (set_balance
                 (Number.add (balance (account_or_new st (tx_to tx)))
                             (tx_amount tx))
                 (account_or_new st (tx_to tx)))
    else accounts st !! a.
Proof.
  unfold processRewardTransaction. lookup_accounts; reflexivity.
Qed.

(** X3: a reward of the network is valid in every state with any amount and
    any recipient; processing a reward adds the whole amount to the
    recipient's balance, a sum of numbers that is rounded, and changes
    nothing else: no other account (none is created for the sender, and
    none is debited), no sequence number, no stake, no validator.  For
    integers up to [2^53] the balance becomes the number nearest to
    [balance + amount]. *)
Theorem reward_validation_and_effect (st : Blockchain) (tx : Transaction) :
  let st' := processRewardTransaction tx st in
  (tx_type tx = REWARD -> tx_from tx = "NETWORK" ->
   isValidTransaction st tx = true)
  /\ getAddressBalance st' (tx_to tx)
     = Number.add (getAddressBalance st (tx_to tx)) (tx_amount tx)
  /\ sequenceOf st' (tx_to tx) = sequenceOf st (tx_to tx)
  /\ getAddressStake st' (tx_to tx) = getAddressStake st (tx_to tx)
  /\ (forall a, a <> tx_to tx -> accounts st' !! a = accounts st !! a)
  /\ validators st' = validators st
  /\ chain st' = chain st
  /\ pendingTransactions st' = pendingTransactions st
  /\ (forall held amount,
         getAddressBalance st (tx_to tx) = Number.of_Z held ->
         tx_amount tx = Number.of_Z amount ->
         Number.safe held -> Number.safe amount ->
         getAddressBalance st' (tx_to tx) = Number.of_Z (held + amount)).
Proof.
  intros st'. subst st'.
  assert (Hbal : getAddressBalance (processRewardTransaction tx st) (tx_to tx)
                 = Number.add (getAddressBalance st (tx_to tx)) (tx_amount tx)).
  { unfold getAddressBalance at 1. rewrite processRewardTransaction_lookup.
    destruct (decide (tx_to tx = tx_to tx)) as [_|]; [|contradiction].
    now rewrite getAddressBalance_account_or_new. }
  split.
  - intros Hty Hfrom. unfold isValidTransaction.
    assert (isNetworkReward tx = true) as -> by (apply isNetworkReward_spec; now split).
    reflexivity.
  - assert (Hother : forall a, a <> tx_to tx ->
                       accounts (processRewardTransaction tx st) !! a
                       = accounts st !! a).
    { intros a Ha. rewrite processRewardTransaction_lookup.
      destruct (decide (tx_to tx = a)); [congruence | reflexivity]. }
    split; [exact Hbal |].
    unfold sequenceOf at 1, getAddressStake at 1.
    rewrite processRewardTransaction_lookup.
    destruct (decide (tx_to tx = tx_to tx)) as [_|]; [|contradiction].
    rewrite getAddressStake_account_or_new, sequenceOf_account_or_new.
    cbn [set_balance balance acc_nonce stake].
    split_and!; try reflexivity; try exact Hother.
    + unfold processRewardTransaction.
      now rewrite validators_update_account, validators_getOrCreateAccount.
    + apply chain_processRewardTransaction.
    + unfold processRewardTransaction, getOrCreateAccount.
      now destruct (accounts st !! tx_to tx).
    + intros held amount Hh Ha Sh Sa.
      rewrite Hbal, Hh, Ha. now apply NumberFacts.add_of_Z.
Qed.

Lemma reward_validation_and_effect_witness :
  isValidTransaction Scenario.s1 Scenario.fund_alice = true
  /\ (forall a, a <> tx_to Scenario.fund_alice ->
                accounts (processRewardTransaction Scenario.fund_alice Scenario.s1) !! a
                = accounts Scenario.s1 !! a)
  /\ getAddressBalance (processRewardTransaction Scenario.fund_alice Scenario.s1)
                       (tx_to Scenario.fund_alice)
     = Number.of_Z (0 + 100).
Proof.
  split; [|split].
  - exact (proj1 (reward_validation_and_effect Scenario.s1 Scenario.fund_alice)
             eq_refl eq_refl).
  - exact (proj1 (proj2 (proj2 (proj2 (proj2
             (reward_validation_and_effect Scenario.s1 Scenario.fund_alice)))))).
  - refine (proj2 (proj2 (proj2 (proj2 (proj2 (proj2 (proj2 (proj2
             (reward_validation_and_effect Scenario.s1 Scenario.fund_alice))))))))
             0 100 _ _ _ _);
      first [by_evaluation | unfold Number.safe; lia].
Defined.

(* ===================================================================== *)
(** * What processing leaves alone                                        *)
(* ===================================================================== *)

Lemma same_frame_refl st : same_frame st st.
Proof. now repeat split. Qed.

Lemma same_frame_trans st1 st2 st3 :
  same_frame st1 st2 -> same_frame st2 st3 -> same_frame st1 st3.
Proof. unfold same_frame. intros (A & B & C) (D & E & F). split_and!; congruence. Qed.

Lemma same_frame_getOrCreateAccount a st : same_frame st (getOrCreateAccount a st).
Proof. unfold getOrCreateAccount. destruct (accounts st !! a); now repeat split. Qed.

Lemma same_frame_update_account a f st : same_frame st (update_account a f st).
Proof. now repeat split. Qed.

Lemma same_frame_update_validator a f st : same_frame st (update_validator a f st).
Proof. unfold update_validator. destruct (oget a (validators st)); now repeat split. Qed.

Lemma same_frame_registerValidator now a s st b st' :
  registerValidator now a s st = Ok (b, st') -> same_frame st st'.
Proof.
  unfold registerValidator. destruct (Number.ltb s _); [intros [= <- <-]; apply same_frame_refl |].
  destruct (ohas a (validators st)); cbn.
  - intros [= <- <-]. unfold update_validator.
    destruct (oget a (validators st)); now repeat split.
  - destruct (latestHeader st); cbn; [|discriminate].
    intros [= <- <-]. now repeat split.
Qed.

Lemma same_frame_processTransaction now tx st st' :
  processTransaction now tx st = Ok st' -> same_frame st st'.
Proof.
  unfold processTransaction. destruct (tx_type tx).
  - intros [= <-]. unfold processRegularTransaction.
    repeat (eapply same_frame_trans; [|apply same_frame_update_account]).
    eapply same_frame_trans; apply same_frame_getOrCreateAccount.
  - intros [= <-]. unfold processRewardTransaction.
    eapply same_frame_trans; [|apply same_frame_update_account].
    apply same_frame_getOrCreateAccount.
  - unfold processStakeTransaction.
    match goal with
    | |- context [registerValidator ?n ?a ?s ?st0] =>
        destruct (registerValidator n a s st0) as [[b st1]|] eqn:Hr
    end; cbn; [|discriminate].
    intros [= <-]. apply same_frame_registerValidator in Hr.
    eapply same_frame_trans; [|exact Hr].
    repeat (eapply same_frame_trans; [|apply same_frame_update_account]).
    apply same_frame_getOrCreateAccount.
  - intros [= <-]. unfold processUnstakeTransaction.
    destruct (ohas _ _).
    + eapply same_frame_trans; [|apply same_frame_update_validator].
      repeat (eapply same_frame_trans; [|apply same_frame_update_account]).
      apply same_frame_getOrCreateAccount.
    + repeat (eapply same_frame_trans; [|apply same_frame_update_account]).
      apply same_frame_getOrCreateAccount.
  - intros [= <-]. apply same_frame_refl.
  - intros [= <-]. apply same_frame_refl.
Qed.

Lemma same_frame_processTransactions now txs st st' :
  processTransactions now txs st = Ok st' -> same_frame st st'.
Proof.
  revert st. induction txs as [|tx txs IH]; intros st; cbn.
  - intros [= <-]. apply same_frame_refl.
  - destruct (processTransaction now tx st) as [st1|] eqn:H1; cbn; [|discriminate].
    intros H2. eapply same_frame_trans.
    + eapply same_frame_processTransaction; eassumption.
    + now apply IH.
Qed.

Lemma validators_kept_refl st : validators_kept st st.
Proof. intros a v H. eauto. Qed.

Lemma validators_kept_trans st1 st2 st3 :
  validators_kept st1 st2 -> validators_kept st2 st3 -> validators_kept st1 st3.
Proof.
  intros H12 H23 a v Hv.
  destruct (H12 a v Hv) as (v2 & Hv2 & E1 & E2).
  destruct (H23 a v2 Hv2) as (v3 & Hv3 & E3 & E4).
  exists v3. split_and!; congruence.
Qed.

Lemma validators_kept_same st st' :
  validators st' = validators st -> validators_kept st st'.
Proof. intros E a v H. exists v. unfold getValidator in *. now rewrite E. Qed.

(** An assignment to the fields [stake] and [isActive] of a validator. *)
Lemma validators_kept_update_validator a f st :
  (forall v, lastBlockValidated (f v) = lastBlockValidated v
             /\ totalBlocksValidated (f v) = totalBlocksValidated v) ->
  validators_kept st (update_validator a f st).
Proof.
  intros Hf b v Hv. unfold update_validator, getValidator in *.
  destruct (oget a (validators st)) as [va|] eqn:Ha; [|eauto].
  cbn. destruct (decide (a = b)) as [->|Hne].
  - rewrite oget_oset_eq. exists (f va). split; [reflexivity |].
    assert (va = v) as -> by congruence. apply Hf.
  - rewrite oget_oset_ne by exact Hne. eauto.
Qed.

Lemma validators_kept_registerValidator now a s st b st' :
  registerValidator now a s st = Ok (b, st') -> validators_kept st st'.
Proof.
  unfold registerValidator.
  destruct (Number.ltb s _); [intros [= <- <-]; apply validators_kept_refl |].
  destruct (ohas a (validators st)) eqn:Hh; cbn.
  - intros [= <- <-].
    eapply validators_kept_trans;
      [apply (validators_kept_update_validator a)|apply validators_kept_same; reflexivity].
    intros v. now split.
  - destruct (latestHeader st); cbn; [|discriminate].
    intros [= <- <-]. intros c v Hv. unfold getValidator in *. cbn.
    assert (a <> c).
    { intros ->. unfold ohas in Hh. now rewrite Hv in Hh. }
    rewrite oget_oset_ne by assumption. eauto.
Qed.

Lemma validators_kept_processTransaction now tx st st' :
  processTransaction now tx st = Ok st' -> validators_kept st st'.
Proof.
  unfold processTransaction. destruct (tx_type tx).
  - intros [= <-]. apply validators_kept_same. unfold processRegularTransaction.
    now rewrite !validators_update_account, !validators_getOrCreateAccount.
  - intros [= <-]. apply validators_kept_same. unfold processRewardTransaction.
    now rewrite validators_update_account, validators_getOrCreateAccount.
  - unfold processStakeTransaction.
    match goal with
    | |- context [registerValidator ?n ?a ?s ?st0] =>
        destruct (registerValidator n a s st0) as [[b st1]|] eqn:Hr
    end; cbn; [|discriminate].
    intros [= <-]. apply validators_kept_registerValidator in Hr.
    eapply validators_kept_trans; [|exact Hr].
    apply validators_kept_same.
    now rewrite !validators_update_account, validators_getOrCreateAccount.
  - intros [= <-]. unfold processUnstakeTransaction.
    destruct (ohas _ _).
    + eapply validators_kept_trans;
        [|apply validators_kept_update_validator].
      * apply validators_kept_same.
        now rewrite !validators_update_account, validators_getOrCreateAccount.
      * intros v. cbn. destruct (Number.ltb _ _); now split.
    + apply validators_kept_same.
      now rewrite !validators_update_account, validators_getOrCreateAccount.
  - intros [= <-]. apply validators_kept_refl.
  - intros [= <-]. apply validators_kept_refl.
Qed.

Lemma validators_kept_processTransactions now txs st st' :
  processTransactions now txs st = Ok st' -> validators_kept st st'.
Proof.
  revert st. induction txs as [|tx txs IH]; intros st; cbn.
  - intros [= <-]. apply validators_kept_refl.
  - destruct (processTransaction now tx st) as [st1|] eqn:H1; cbn; [|discriminate].
    intros H2. eapply validators_kept_trans.
    + eapply validators_kept_processTransaction; eassumption.
    + now apply IH.
Qed.

(* ===================================================================== *)
(** * Accepted blocks                                                     *)
(* ===================================================================== *)

(** The state that [addBlock] returns with an accepted block. *)
Lemma addBlock_accepted_shape now block st st' :
  addBlock now block st = Ok (true, st') ->
  exists st2,
    processTransactions now (transactions block)
      (with_pendingTransactions
         (filter (fun tx => tx_id tx ∉ map tx_id (transactions block))
                 (pendingTransactions st))
         (with_chain (chain st ++ [block]) st))
    = Ok st2
    /\ st' = emit (blockAdded block)
               (if ohas (validator (header block)) (validators st2)
                then update_validator (validator (header block))
                       (fun v =>
                          set_totalBlocksValidated (totalBlocksValidated v + 1)
                            (set_lastBlockValidated (index (header block)) v))
                       st2
                else st2).
Proof.
  unfold addBlock.
  destruct (isValidBlock st block) as [[|]|]; cbn; try discriminate.
  unfold processBlockTransactions.
  destruct (processTransactions _ _ _) as [st2|]; cbn; [|discriminate].
  intros [= <-]. eauto.
Qed.

(** X4: an accepted block becomes the last block of the chain, which is
    otherwise as before; the pool loses exactly the transactions whose id
    is the id of a transaction of the block; the parameters stay; every
    validator stays registered, and the record of produced blocks changes
    for the block's validator only: its last block is this one and its
    count is one higher. *)
Theorem addBlock_accepted_effect (now : Z) (block : Block)
  (st st' : Blockchain) :
  addBlock now block st = Ok (true, st') ->
  chain st' = (chain st ++ [block])%list
  /\ getLatestBlock st' = Some block
  /\ pendingTransactions st'
     = filter (fun tx => tx_id tx ∉ map tx_id (transactions block))
              (pendingTransactions st)
  /\ chainParams st' = chainParams st
  /\ forall a v,
       getValidator st a = Some v ->
       exists v',
         getValidator st' a = Some v'
         /\ lastBlockValidated v'
            = (if decide (a = validator (header block))
               then index (header block) else lastBlockValidated v)
         /\ totalBlocksValidated v'
            = (if decide (a = validator (header block))
               then totalBlocksValidated v + 1 else totalBlocksValidated v).
Proof.
  intros H. destruct (addBlock_accepted_shape now block st st' H) as (st2 & Hp & ->).
  pose proof (same_frame_processTransactions _ _ _ _ Hp) as (Hc & Hq & Hk).
  pose proof (validators_kept_processTransactions _ _ _ _ Hp) as Hv.
  cbn in Hc, Hq, Hk.
  assert (Hchain : chain (emit (blockAdded block)
             (if ohas (validator (header block)) (validators st2)
              then update_validator (validator (header block))
                     (fun v => set_totalBlocksValidated (totalBlocksValidated v + 1)
                                 (set_lastBlockValidated (index (header block)) v)) st2
              else st2)) = (chain st ++ [block])%list).
  { cbn. destruct (ohas _ _); rewrite ?chain_update_validator; exact Hc. }
  split; [exact Hchain |].
  split; [unfold getLatestBlock; rewrite Hchain; apply last_snoc |].
  split; [|split].
  - cbn. destruct (ohas _ _); [|exact Hq].
    destruct (same_frame_update_validator (validator (header block))
                (fun v => set_totalBlocksValidated (totalBlocksValidated v + 1)
                            (set_lastBlockValidated (index (header block)) v)) st2)
      as (_ & -> & _). exact Hq.
  - cbn. destruct (ohas _ _); [|exact Hk].
    destruct (same_frame_update_validator (validator (header block))
                (fun v => set_totalBlocksValidated (totalBlocksValidated v + 1)
                            (set_lastBlockValidated (index (header block)) v)) st2)
      as (_ & _ & ->). exact Hk.
  - intros a v Ha. destruct (Hv a v Ha) as (v2 & Hv2 & E1 & E2).
    unfold getValidator in *. cbn in Hv2. cbn [validators emit].
    destruct (decide (a = validator (header block))) as [->|Hne].
    + unfold ohas, update_validator. rewrite Hv2. cbn.
      rewrite oget_oset_eq. eexists. split; [reflexivity |]. cbn.
      split; congruence.
    + destruct (ohas _ _).
      * unfold update_validator.
        destruct (oget (validator (header block)) (validators st2)); cbn.
        -- rewrite oget_oset_ne by congruence. eauto.
        -- eauto.
      * eauto.
Qed.

Lemma addBlock_accepted_effect_witness :
  let blk := Scenario.next_block Scenario.s3 [Scenario.carol_stakes] in
  chain Scenario.s4 = (chain Scenario.s3 ++ [blk])%list
  /\ getLatestBlock Scenario.s4 = Some blk
  /\ pendingTransactions Scenario.s4
     = filter (fun tx => tx_id tx ∉ map tx_id (transactions blk))
              (pendingTransactions Scenario.s3)
  /\ chainParams Scenario.s4 = chainParams Scenario.s3
  /\ forall a v,
       getValidator Scenario.s3 a = Some v ->
       exists v',
         getValidator Scenario.s4 a = Some v'
         /\ lastBlockValidated v'
            = (if decide (a = validator (header blk))
               then index (header blk) else lastBlockValidated v)
         /\ totalBlocksValidated v'
            = (if decide (a = validator (header blk))
               then totalBlocksValidated v + 1 else totalBlocksValidated v).
Proof.
  intros blk.
  assert (H : addBlock Scenario.t0 blk Scenario.s3 = Ok (true, Scenario.s4))
    by by_evaluation.
  exact (addBlock_accepted_effect Scenario.t0 blk Scenario.s3 Scenario.s4 H).
Defined.

(** What [isValidBlock] checks, check by check. *)
Lemma isValidBlock_checks (st : Blockchain) (block previousBlock : Block) :
  getLatestBlock st = Some previousBlock ->
  (isValidBlock st block = Ok true
   <-> index (header block) = index (header previousBlock) + 1
       /\ previousHash (header block) = calculateBlockHash previousBlock
       /\ merkleRoot (header block)
          = Merkle.calculateMerkleRoot (transactions block)
       /\ (index (header block) = 0
           \/ (exists v, getValidator st (validator (header block)) = Some v)
              /\ exists s, signature block = Some s /\ s <> EmptyString)
       /\ Forall (fun tx => isValidTransaction st tx = true)
                 (transactions block))
  /\ (isValidBlock st block = Ok true \/ isValidBlock st block = Ok false).
Proof.
  intros Hl. unfold isValidBlock. rewrite Hl.
  assert (Hsig : verifyBlockSignature st block = true
                 <-> index (header block) = 0
                     \/ (exists v, getValidator st (validator (header block)) = Some v)
                        /\ exists s, signature block = Some s /\ s <> EmptyString).
  { unfold verifyBlockSignature, getValidator.
    destruct (index (header block) =? 0) eqn:E0.
    - split; [left; lia | reflexivity].
    - destruct (oget _ _) as [v|].
      + rewrite present_spec. split.
        * intros H. right. eauto.
        * intros [H|[_ H]]; [lia | exact H].
      + split; [discriminate |]. intros [H|[[v [=]] _]]. lia. }
  rewrite <- Hsig. rewrite List.Forall_forall, <- forallb_forall.
  destruct (index (header block) =? index (header previousBlock) + 1) eqn:E1; cbn.
  2: { split; [|now right]. split; [discriminate | lia]. }
  destruct (bool_decide (previousHash (header block) = calculateBlockHash previousBlock))
    eqn:E2; cbn.
  2: { apply bool_decide_eq_false in E2. split; [|now right].
       split; [discriminate | tauto]. }
  destruct (bool_decide (merkleRoot (header block)
                         = Merkle.calculateMerkleRoot (transactions block)))
    eqn:E3; cbn.
  2: { apply bool_decide_eq_false in E3. split; [|now right].
       split; [discriminate | tauto]. }
  apply bool_decide_eq_true in E2, E3.
  destruct (verifyBlockSignature st block) eqn:E4; cbn.
  2: { split; [|now right]. split; [discriminate |].
       intros (_ & _ & _ & H & _). discriminate H. }
  split.
  - split.
    + intros [= H]. split_and!; try assumption; try reflexivity. lia.
    + intros (_ & _ & _ & _ & H). now rewrite H.
  - destruct (forallb _ _); auto.
Qed.

(** X5: [isValidBlock] accepts a block exactly when its height is one more
    than the height of the latest block, it names the hash of the latest
    block's header, its Merkle root is the root of its transactions, its
    validator is registered and its signature is present and not empty
    (a block of height 0 needs neither), and each of its transactions is
    valid in the current state.  Nothing else is consulted: not the
    validator's active flag, not the election, not the timestamp. *)
Theorem isValidBlock_accepts_iff (st : Blockchain) (block previousBlock : Block) :
  getLatestBlock st = Some previousBlock ->
  (isValidBlock st block = Ok true
   <-> index (header block) = index (header previousBlock) + 1
       /\ previousHash (header block) = calculateBlockHash previousBlock
       /\ merkleRoot (header block)
          = Merkle.calculateMerkleRoot (transactions block)
       /\ (index (header block) = 0
           \/ (exists v, getValidator st (validator (header block)) = Some v)
              /\ exists s, signature block = Some s /\ s <> EmptyString)
       /\ Forall (fun tx => isValidTransaction st tx = true)
                 (transactions block))
  /\ (isValidBlock st block = Ok true \/ isValidBlock st block = Ok false).
Proof. exact (isValidBlock_checks st block previousBlock). Qed.

Lemma isValidBlock_accepts_iff_witness :
  let blk := Scenario.next_block Scenario.s3 [Scenario.carol_stakes] in
  (isValidBlock Scenario.s3 blk = Ok true
   <-> index (header blk)
       = index (header (Scenario.next_block Scenario.s1 [Scenario.fund_carol])) + 1
       /\ previousHash (header blk)
          = calculateBlockHash (Scenario.next_block Scenario.s1 [Scenario.fund_carol])
       /\ merkleRoot (header blk) = Merkle.calculateMerkleRoot (transactions blk)
       /\ (index (header blk) = 0
           \/ (exists v, getValidator Scenario.s3 (validator (header blk)) = Some v)
              /\ exists s, signature blk = Some s /\ s <> EmptyString)
       /\ Forall (fun tx => isValidTransaction Scenario.s3 tx = true)
                 (transactions blk))
  /\ (isValidBlock Scenario.s3 blk = Ok true
      \/ isValidBlock Scenario.s3 blk = Ok false).
Proof.
  intros blk.
  assert (H : getLatestBlock Scenario.s3
              = Some (Scenario.next_block Scenario.s1 [Scenario.fund_carol]))
    by by_evaluation.
  exact (isValidBlock_accepts_iff Scenario.s3 blk _ H).
Defined.

(* ===================================================================== *)
(** * The chain of a ledger                                               *)
(* ===================================================================== *)

Lemma isValidBlock_true_inv (st : Blockchain) (block : Block) :
  isValidBlock st block = Ok true ->
  exists previousBlock,
    getLatestBlock st = Some previousBlock
    /\ index (header block) = index (header previousBlock) + 1
    /\ previousHash (header block) = calculateBlockHash previousBlock
    /\ merkleRoot (header block)
       = Merkle.calculateMerkleRoot (transactions block)
    /\ verifyBlockSignature st block = true.
Proof.
  unfold isValidBlock. destruct (getLatestBlock st) as [p|]; [|discriminate].
  destruct (index (header block) =? index (header p) + 1) eqn:E1; cbn; [|discriminate].
  destruct (bool_decide (previousHash (header block) = _)) eqn:E2; cbn; [|discriminate].
  destruct (bool_decide (merkleRoot (header block) = _)) eqn:E3; cbn; [|discriminate].
  destruct (verifyBlockSignature st block) eqn:E4; cbn; [|discriminate].
  intros _. exists p. apply bool_decide_eq_true in E2, E3.
  split_and!; try assumption; try reflexivity. lia.
Qed.

Lemma addBlock_rejected_same now block st st' :
  addBlock now block st = Ok (false, st') -> st' = st.
Proof.
  unfold addBlock.
  destruct (isValidBlock st block) as [[|]|]; cbn; [|congruence | discriminate].
  destruct (processBlockTransactions _ _ _); cbn; discriminate.
Qed.

Lemma linked_snoc (previous : Block) (rest : list Block) (tip block : Block) :
  linked previous rest ->
  last (previous :: rest) = Some tip ->
  index (header block) = index (header tip) + 1 ->
  previousHash (header block) = calculateBlockHash tip ->
  linked previous (rest ++ [block]).
Proof.
  revert previous. induction rest as [|b rest IH]; intros previous Hl Ht Hi Hp.
  - cbn in Ht. injection Ht as <-. cbn. auto.
  - cbn [linked app] in *. destruct Hl as (H1 & H2 & H3).
    split_and!; [assumption .. |]. apply IH; assumption.
Qed.

Lemma well_formed_chain_snoc (c : list Block) (tip block : Block) :
  well_formed_chain c ->
  last c = Some tip ->
  index (header block) = index (header tip) + 1 ->
  previousHash (header block) = calculateBlockHash tip ->
  well_formed_chain (c ++ [block]).
Proof.
  destruct c as [|g rest]; [intros []|]. cbn [well_formed_chain app].
  intros [H0 Hl] Ht Hi Hp. split; [exact H0 |]. eapply linked_snoc; eassumption.
Qed.

Lemma linked_heights (previous : Block) (rest : list Block) (i : nat) (b : Block) :
  linked previous rest ->
  rest !! i = Some b ->
  index (header b) = index (header previous) + 1 + Z.of_nat i.
Proof.
  revert previous i. induction rest as [|x rest IH]; intros previous i Hl Hb.
  - discriminate.
  - destruct Hl as (H1 & _ & H3). destruct i as [|i]; cbn in Hb.
    + injection Hb as <-. lia.
    + rewrite (IH x i H3 Hb). lia.
Qed.

Lemma well_formed_chain_heights (c : list Block) (i : nat) (b : Block) :
  well_formed_chain c -> c !! i = Some b -> index (header b) = Z.of_nat i.
Proof.
  destruct c as [|g rest]; [intros []|]. intros [H0 Hl] Hb.
  destruct i as [|i]; cbn in Hb.
  - injection Hb as <-. exact H0.
  - rewrite (linked_heights g rest i b Hl Hb). lia.
Qed.

Lemma addBlock_well_formed now block accepted st st' :
  addBlock now block st = Ok (accepted, st') ->
  well_formed_chain (chain st) -> well_formed_chain (chain st').
Proof.
  intros H Hw. destruct accepted.
  - destruct (isValidBlock_true_inv st block (addBlock_accepted_valid _ _ _ _ H))
      as (p & Hp & Hi & Hh & _).
    destruct (addBlock_accepted_shape now block st st' H) as (st2 & Hproc & ->).
    pose proof (same_frame_processTransactions _ _ _ _ Hproc) as (Hc & _).
    cbn in Hc. cbn [chain emit].
    assert (chain (if ohas (validator (header block)) (validators st2)
                   then update_validator (validator (header block))
                          (fun v => set_totalBlocksValidated (totalBlocksValidated v + 1)
                                      (set_lastBlockValidated (index (header block)) v)) st2
                   else st2) = chain st2) as ->
      by (destruct (ohas _ _); rewrite ?chain_update_validator; reflexivity).
    rewrite Hc. eapply well_formed_chain_snoc; eassumption.
  - now rewrite (addBlock_rejected_same _ _ _ _ H).
Qed.

Lemma createBlock_chain now nonce validatorAddress signature st :
  well_formed_chain (chain st) ->
  well_formed_chain
    (chain (snd (createBlock now nonce validatorAddress signature st))).
Proof.
  intros Hw. unfold createBlock.
  destruct (getLatestBlock st) as [p|]; [|exact Hw]. cbv zeta.
  match goal with
  | |- context [addBlock ?n ?b ?s] => destruct (addBlock n b s) as [[[|] st']|] eqn:H
  end; cbn [snd]; [| |exact Hw].
  - unfold addValidatorReward. cbn [chain with_pendingTransactions].
    eapply addBlock_well_formed; eassumption.
  - eapply addBlock_well_formed; eassumption.
Qed.

Lemma reachable_well_formed (params : ChainParams) (st : Blockchain) :
  reachable params st -> well_formed_chain (chain st).
Proof.
  induction 1 as [|st tx _ IH|st now block accepted st' _ IH H
                  |st now address stake registered st' _ IH H
                  |st now nonce validatorAddress signature _ IH].
  - cbn. split; reflexivity.
  - unfold addTransaction. destruct (negb _); exact IH.
  - eapply addBlock_well_formed; eassumption.
  - destruct (same_frame_registerValidator _ _ _ _ _ _ H) as (-> & _). exact IH.
  - now apply createBlock_chain.
Qed.

(** X6: in every ledger that the constructor and the methods [addBlock],
    [createBlock], [addTransaction] and [registerValidator] produce, the
    chain starts with a block of height 0 and every later block is one
    higher than the block before it and names the hash of that block's
    header.  So [getBlockByIndex(i)] is the block of height [i] for every
    [i] from 0 to the height of the latest block, and [undefined] for
    every other [i]. *)
Theorem reachable_chain_heights (params : ChainParams) (st : Blockchain) :
  reachable params st ->
  well_formed_chain (chain st)
  /\ (exists tip,
         getLatestBlock st = Some tip
         /\ index (header tip) = Z.of_nat (length (chain st)) - 1)
  /\ (forall i,
         0 <= i <= Z.of_nat (length (chain st)) - 1 ->
         exists b, getBlockByIndex st i = Some b /\ index (header b) = i)
  /\ (forall i,
         i < 0 \/ Z.of_nat (length (chain st)) - 1 < i ->
         getBlockByIndex st i = None).
Proof.
  intros Hr. pose proof (reachable_well_formed params st Hr) as Hw.
  split; [exact Hw |]. split; [|split].
  - unfold getLatestBlock.
    destruct (chain st) as [|g rest] eqn:Hc using rev_ind; [destruct Hw |].
    exists g. rewrite last_snoc. split; [reflexivity |].
    clear IHrest.
    rewrite (well_formed_chain_heights _ (length rest) g Hw).
    + rewrite length_app. cbn. lia.
    + rewrite lookup_app_r by lia. now rewrite Nat.sub_diag.
  - intros i Hi. unfold getBlockByIndex.
    destruct (i <? 0) eqn:E1; [lia |].
    destruct (Z.of_nat (length (chain st)) <=? i) eqn:E2; [lia |]. cbn.
    destruct (chain st !! Z.to_nat i) as [b|] eqn:Hb.
    + exists b. split; [reflexivity |].
      rewrite (well_formed_chain_heights _ _ b Hw Hb). lia.
    + apply lookup_ge_None in Hb. lia.
  - intros i Hi. unfold getBlockByIndex.
    destruct (i <? 0) eqn:E1; [reflexivity |].
    destruct (Z.of_nat (length (chain st)) <=? i) eqn:E2; [reflexivity | lia].
Qed.

Lemma reachable_s4 : reachable Scenario.params Scenario.s4.
Proof.
  assert (H1 : registerValidator Scenario.t0 "aur1validator" 1000 Scenario.s0
               = Ok (true, Scenario.s1)) by by_evaluation.
  assert (H3 : addBlock Scenario.t0
                 (Scenario.next_block Scenario.s1 [Scenario.fund_carol]) Scenario.s1
               = Ok (true, Scenario.s3)) by by_evaluation.
  assert (H4 : addBlock Scenario.t0
                 (Scenario.next_block Scenario.s3 [Scenario.carol_stakes]) Scenario.s3
               = Ok (true, Scenario.s4)) by by_evaluation.
  eapply reachable_addBlock; [|exact H4].
  eapply reachable_addBlock; [|exact H3].
  eapply reachable_registerValidator; [|exact H1].
  apply reachable_new.
Qed.

Lemma reachable_chain_heights_witness :
  well_formed_chain (chain Scenario.s4)
  /\ (exists tip,
         getLatestBlock Scenario.s4 = Some tip
         /\ index (header tip) = Z.of_nat (length (chain Scenario.s4)) - 1)
  /\ (forall i,
         0 <= i <= Z.of_nat (length (chain Scenario.s4)) - 1 ->
         exists b, getBlockByIndex Scenario.s4 i = Some b /\ index (header b) = i)
  /\ (forall i,
         i < 0 \/ Z.of_nat (length (chain Scenario.s4)) - 1 < i ->
         getBlockByIndex Scenario.s4 i = None).
Proof.
  exact (reachable_chain_heights Scenario.params Scenario.s4 reachable_s4).
Defined.

(* ===================================================================== *)
(** * The pool                                                            *)
(* ===================================================================== *)

(** Validation reads the accounts and the parameters, nothing else. *)
Lemma isValidTransaction_ext (st1 st2 : Blockchain) (tx : Transaction) :
  accounts st1 = accounts st2 ->
  chainParams st1 = chainParams st2 ->
  isValidTransaction st1 tx = isValidTransaction st2 tx.
Proof. unfold isValidTransaction. now intros -> ->. Qed.

(** X7: a transaction that is valid enters the pool at its end, and only
    the pool changes.  The pool is not consulted by the validation: what
    is valid before the call is valid after it, so the same transaction,
    or another one of the same sender with the same sequence number, is
    accepted again and the pool then holds both. *)
Theorem addTransaction_accepts_again (st : Blockchain) (tx : Transaction) :
  isValidTransaction st tx = true ->
  exists st1 st2,
    addTransaction st tx = (true, st1)
    /\ pendingTransactions st1 = (pendingTransactions st ++ [tx])%list
    /\ accounts st1 = accounts st /\ validators st1 = validators st
    /\ chain st1 = chain st
    /\ (forall tx', isValidTransaction st1 tx' = isValidTransaction st tx')
    /\ addTransaction st1 tx = (true, st2)
    /\ pendingTransactions st2 = (pendingTransactions st ++ [tx; tx])%list.
Proof.
  intros Hv.
  set (st1 := emit (transactionAdded tx)
                (with_pendingTransactions (pendingTransactions st ++ [tx]) st)).
  assert (Hv1 : isValidTransaction st1 tx = true)
    by (rewrite <- Hv; now apply isValidTransaction_ext).
  exists st1, (emit (transactionAdded tx)
                 (with_pendingTransactions (pendingTransactions st1 ++ [tx]) st1)).
  unfold addTransaction. rewrite Hv, Hv1. cbn [negb].
  split_and!; try reflexivity.
  cbn [pendingTransactions emit with_pendingTransactions st1].
  now rewrite <- app_assoc.
Qed.

Lemma addTransaction_accepts_again_witness :
  exists st1 st2,
    addTransaction Scenario.s2 Scenario.pay_bob = (true, st1)
    /\ pendingTransactions st1
       = (pendingTransactions Scenario.s2 ++ [Scenario.pay_bob])%list
    /\ accounts st1 = accounts Scenario.s2
    /\ validators st1 = validators Scenario.s2
    /\ chain st1 = chain Scenario.s2
    /\ (forall tx', isValidTransaction st1 tx'
                    = isValidTransaction Scenario.s2 tx')
    /\ addTransaction st1 Scenario.pay_bob = (true, st2)
    /\ pendingTransactions st2
       = (pendingTransactions Scenario.s2
          ++ [Scenario.pay_bob; Scenario.pay_bob])%list.
Proof.
  assert (H : isValidTransaction Scenario.s2 Scenario.pay_bob = true)
    by by_evaluation.
  exact (addTransaction_accepts_again Scenario.s2 Scenario.pay_bob H).
Defined.

(* ===================================================================== *)
(** * Election of the proposer                                            *)
(* ===================================================================== *)

Lemma selectLoop_In (randomPoint cumulativeStake : number)
  (vs : list Validator) (a : string) :
  selectLoop randomPoint cumulativeStake vs = Some a ->
  exists v, In v vs /\ val_address v = a.
Proof.
  revert cumulativeStake. induction vs as [|v vs IH]; intros c; cbn; [discriminate |].
  destruct (Number.leb _ _).
  - intros [= <-]. eauto.
  - intros H. destruct (IH _ H) as (w & Hw & E). eauto.
Qed.

(** X8: [selectValidator] throws exactly when no validator is active;
    otherwise it returns, whatever the draw, the address of a registered
    validator whose [isActive] is true; and when one validator only is
    active, that one is elected with every draw. *)
Theorem selectValidator_elects_active (random : number) (st : Blockchain) :
  (List.filter isActive (getValidators st) = [] <->
   selectValidator random st = Throw "No active validators available")
  /\ (forall a,
         selectValidator random st = Ok a ->
         exists v, In v (getValidators st) /\ isActive v = true
                   /\ val_address v = a)
  /\ (forall v,
         List.filter isActive (getValidators st) = [v] ->
         selectValidator random st = Ok (val_address v)).
Proof.
  unfold selectValidator.
  destruct (List.filter isActive (getValidators st)) as [|v0 vs] eqn:Hf.
  - split_and!; [tauto | discriminate | discriminate].
  - assert (Hin : forall v, In v (v0 :: vs) ->
                            In v (getValidators st) /\ isActive v = true)
      by (intros v Hv; rewrite <- Hf in Hv; now apply filter_In in Hv).
    split_and!.
    + split; [discriminate |]. destruct (selectLoop _ _ _); discriminate.
    + intros a. destruct (selectLoop _ _ _) as [a'|] eqn:Hl.
      * intros [= <-]. destruct (selectLoop_In _ _ _ _ Hl) as (v & Hv & E).
        exists v. destruct (Hin v Hv). auto.
      * intros [= <-]. exists v0. destruct (Hin v0 (or_introl eq_refl)). auto.
    + intros v [= -> ->]. cbn.
      destruct (Number.leb _ _); reflexivity.
Qed.

Lemma selectValidator_elects_active_witness :
  (exists v, In v (getValidators Scenario.s4) /\ isActive v = true
             /\ val_address v = "aur1carol")
  /\ selectValidator Scenario.draw_third Scenario.s1 = Ok "aur1validator".
Proof.
  assert (H1 : selectValidator Scenario.draw_09 Scenario.s4 = Ok "aur1carol")
    by by_evaluation.
  assert (H2 : List.filter isActive (getValidators Scenario.s1)
               = [mkValidator "aur1validator" 1000 true 0 0 "aur1validator"
                              Scenario.t0]) by by_evaluation.
  split.
  - exact (proj1 (proj2 (selectValidator_elects_active Scenario.draw_09
                           Scenario.s4))
             "aur1carol" H1).
  - exact (proj2 (proj2 (selectValidator_elects_active Scenario.draw_third
                           Scenario.s1))
             _ H2).
Defined.

(* ===================================================================== *)
(** * Selection of the transactions of a block                            *)
(* ===================================================================== *)

(** The comparator puts [y] before [tx] exactly when [tx] pays less. *)
Lemma comparefn_positive (tx y : Transaction) :
  tx_fee tx <> Number.NaN -> tx_fee y <> Number.NaN ->
  Number.ltb Number.zero (comparefn tx y) = Number.ltb (tx_fee tx) (tx_fee y).
Proof. intros Hx Hy. unfold comparefn. now apply NumberFacts.ltb_zero_sub. Qed.

Lemma insert_by_fee_perm (tx : Transaction) (l : list Transaction) :
  Permutation (insert_by_fee tx l) (tx :: l).
Proof.
  induction l as [|y l IH]; cbn; [reflexivity |].
  destruct (Number.ltb _ _); [|reflexivity].
  rewrite IH. apply perm_swap.
Qed.

Lemma sort_by_fee_perm (l : list Transaction) : Permutation (sort_by_fee l) l.
Proof.
  induction l as [|x l IH]; cbn; [reflexivity |].
  rewrite insert_by_fee_perm. now constructor.
Qed.

Lemma fee_ge_of_ltb (a b : Transaction) :
  tx_fee a <> Number.NaN -> tx_fee b <> Number.NaN ->
  Number.ltb (tx_fee a) (tx_fee b) = true -> fee_ge b a.
Proof.
  intros Ha Hb H. unfold fee_ge.
  apply NumberFacts.ltb_before in H; [|assumption ..].
  apply NumberFacts.leb_not_before; [assumption .. |].
  unfold Number.before in *. lia.
Qed.

Lemma fee_ge_of_not_ltb (a b : Transaction) :
  tx_fee a <> Number.NaN -> tx_fee b <> Number.NaN ->
  Number.ltb (tx_fee a) (tx_fee b) = false -> fee_ge a b.
Proof.
  intros Ha Hb H. unfold fee_ge.
  apply NumberFacts.leb_not_before; [assumption .. |].
  intros Hlt. apply NumberFacts.ltb_before in Hlt; [congruence | assumption ..].
Qed.

Lemma fee_ge_trans (a b c : Transaction) :
  tx_fee a <> Number.NaN -> tx_fee b <> Number.NaN -> tx_fee c <> Number.NaN ->
  fee_ge a b -> fee_ge b c -> fee_ge a c.
Proof.
  unfold fee_ge. intros Ha Hb Hc H1 H2.
  apply NumberFacts.leb_not_before in H1; [|assumption ..].
  apply NumberFacts.leb_not_before in H2; [|assumption ..].
  apply NumberFacts.leb_not_before; [assumption .. |].
  unfold Number.before in *. lia.
Qed.

Lemma insert_by_fee_sorted (tx : Transaction) (l : list Transaction) :
  tx_fee tx <> Number.NaN -> fees_are_numbers l ->
  StronglySorted fee_ge l -> StronglySorted fee_ge (insert_by_fee tx l).
Proof.
  intros Htx Hl. induction 1 as [|y l Hs IH Hy]; cbn.
  - repeat constructor.
  - apply Forall_cons in Hl as [Hfy Hl].
    rewrite comparefn_positive by assumption.
    destruct (Number.ltb (tx_fee tx) (tx_fee y)) eqn:E.
    + constructor; [exact (IH Hl) |].
      rewrite List.Forall_forall in *. intros z Hz.
      apply (Permutation_in _ (insert_by_fee_perm tx l)) in Hz.
      destruct Hz as [<-|Hz]; [now apply fee_ge_of_ltb | auto].
    + constructor; [now constructor |].
      constructor; [now apply fee_ge_of_not_ltb |].
      rewrite List.Forall_forall in *. intros z Hz.
      apply (fee_ge_trans tx y z); auto using fee_ge_of_not_ltb.
Qed.

Lemma fees_are_numbers_perm (l l' : list Transaction) :
  Permutation l l' -> fees_are_numbers l -> fees_are_numbers l'.
Proof.
  unfold fees_are_numbers. intros Hp H. rewrite List.Forall_forall in *.
  intros x Hx. apply H. apply (Permutation_in _ (Permutation_sym Hp)). exact Hx.
Qed.

Lemma sort_by_fee_sorted (l : list Transaction) :
  fees_are_numbers l -> StronglySorted fee_ge (sort_by_fee l).
Proof.
  induction l as [|x l IH]; cbn; [constructor |].
  intros H. apply Forall_cons in H as [Hx Hl].
  apply insert_by_fee_sorted; [exact Hx | | exact (IH Hl)].
  apply (fees_are_numbers_perm l); [|exact Hl].
  symmetry. apply sort_by_fee_perm.
Qed.

Lemma with_fee_insert (f : number) (tx : Transaction) (l : list Transaction) :
  f <> Number.NaN -> tx_fee tx <> Number.NaN -> fees_are_numbers l ->
  StronglySorted fee_ge l ->
  with_fee f (insert_by_fee tx l) = with_fee f (tx :: l).
Proof.
  intros Hf Htx Hl. induction 1 as [|y l Hs IH Hy]; [reflexivity |].
  apply Forall_cons in Hl as [Hfy Hl].
  cbn [insert_by_fee]. rewrite comparefn_positive by assumption.
  destruct (Number.ltb (tx_fee tx) (tx_fee y)) eqn:E; [|reflexivity].
  unfold with_fee in *. cbn [List.filter] in *. rewrite (IH Hl).
  destruct (Number.eqb (tx_fee tx) f) eqn:E1, (Number.eqb (tx_fee y) f) eqn:E2;
    try reflexivity.
  apply NumberFacts.ltb_before in E; [|assumption ..].
  apply NumberFacts.eqb_level in E1; [|assumption ..].
  apply NumberFacts.eqb_level in E2; [|assumption ..].
  unfold Number.before, Number.level in *. lia.
Qed.

Lemma with_fee_NaN (txs : list Transaction) : with_fee Number.NaN txs = [].
Proof.
  unfold with_fee. induction txs as [|tx txs IH]; [reflexivity |].
  cbn [List.filter]. rewrite IH.
  unfold Number.eqb. now destruct (tx_fee tx).
Qed.

Lemma with_fee_sort (f : number) (l : list Transaction) :
  fees_are_numbers l -> with_fee f (sort_by_fee l) = with_fee f l.
Proof.
  destruct (decide (f = Number.NaN)) as [->|Hf];
    [intros _; now rewrite !with_fee_NaN |].
  induction l as [|x l IH]; [reflexivity |]. intros H.
  apply Forall_cons in H as [Hx Hl].
  cbn [sort_by_fee fold_right]. fold (sort_by_fee l).
  rewrite with_fee_insert; [| assumption | assumption | |].
  - unfold with_fee in *. cbn [List.filter]. now rewrite (IH Hl).
  - apply (fees_are_numbers_perm l); [|exact Hl].
    symmetry. apply sort_by_fee_perm.
  - now apply sort_by_fee_sorted.
Qed.

Lemma StronglySorted_app_inv (l1 l2 : list Transaction) :
  StronglySorted fee_ge (l1 ++ l2) ->
  StronglySorted fee_ge l1
  /\ forall a b, In a l1 -> In b l2 -> fee_ge a b.
Proof.
  induction l1 as [|x l1 IH]; cbn.
  - intros _. split; [constructor | intros a b []].
  - intros H. apply StronglySorted_inv in H as [Hs Hx].
    destruct (IH Hs) as [H1 H2]. split.
    + constructor; [exact H1 |]. apply Forall_app in Hx. tauto.
    + intros a b [<-|Ha] Hb; [|auto].
      rewrite List.Forall_forall in Hx. apply Hx, in_or_app. now right.
Qed.

(** X9: [selectTransactionsForBlock] returns 100 transactions of the pool,
    or all if there are fewer: what it returns and what it leaves out are
    together the pool.  When no fee of the pool is [NaN], so that the
    comparator orders the pool, they are the first of the pool arranged by
    non-increasing fee: the selection is in non-increasing order of fee; no
    transaction left out pays more than a selected one; and transactions of
    equal fee are taken in the order of the pool. *)
Theorem selectTransactionsForBlock_highest_fees (st : Blockchain) :
  let selected := selectTransactionsForBlock st in
  exists rest,
    Permutation (selected ++ rest) (pendingTransactions st)
    /\ length selected = Nat.min 100 (length (pendingTransactions st))
    /\ (fees_are_numbers (pendingTransactions st) ->
        StronglySorted fee_ge selected
        /\ (forall s r, In s selected -> In r rest ->
                        Number.leb (tx_fee r) (tx_fee s) = true)
        /\ (forall f, with_fee f (selected ++ rest)
                      = with_fee f (pendingTransactions st))).
Proof.
  intros selected. subst selected. unfold selectTransactionsForBlock.
  exists (skipn 100 (sort_by_fee (pendingTransactions st))).
  rewrite firstn_skipn. split_and!.
  - apply sort_by_fee_perm.
  - rewrite length_firstn.
    now rewrite (Permutation_length (sort_by_fee_perm (pendingTransactions st))).
  - intros Hfees.
    pose proof (sort_by_fee_sorted (pendingTransactions st) Hfees) as Hs.
    rewrite <- (firstn_skipn 100 (sort_by_fee (pendingTransactions st))) in Hs.
    apply StronglySorted_app_inv in Hs as [Hs1 Hs2].
    split_and!.
    + exact Hs1.
    + intros s r Hs Hr. exact (Hs2 s r Hs Hr).
    + intros f. now apply with_fee_sort.
Qed.

Lemma selectTransactionsForBlock_highest_fees_witness :
  map tx_id (selectTransactionsForBlock Backlog.crowded)
  = ["d"; "b"; "e"; "a"; "c"]
  /\ StronglySorted fee_ge (selectTransactionsForBlock Backlog.crowded)
  /\ map tx_id
         (with_fee (Number.of_Z 5) (selectTransactionsForBlock Backlog.crowded))
     = ["b"; "e"].
Proof.
  assert (Hfees : fees_are_numbers (pendingTransactions Backlog.crowded))
    by (vm_compute; repeat constructor; discriminate).
  destruct (selectTransactionsForBlock_highest_fees Backlog.crowded)
    as (rest & _ & _ & H).
  destruct (H Hfees) as (Hsorted & _ & _).
  split_and!; [by_evaluation | exact Hsorted | by_evaluation].
Defined.

Example selectTransactionsForBlock_order :
  map (fun tx => (tx_id tx, Number.toString (tx_fee tx)))
      (pendingTransactions Backlog.crowded)
  = [("a", "2"); ("b", "5"); ("c", "2"); ("d", "7"); ("e", "5")]
  /\ map tx_id (selectTransactionsForBlock Backlog.crowded)
     = ["d"; "b"; "e"; "a"; "c"].
Proof. split; by_evaluation. Qed.

(* ===================================================================== *)
(** * Block production                                                    *)
(* ===================================================================== *)

Lemma addBlock_valid_accepts now block st :
  isValidBlock st block = Ok true ->
  exists st', addBlock now block st = Ok (true, st').
Proof.
  intros Hv. unfold addBlock. rewrite Hv. cbn.
  unfold processBlockTransactions.
  match goal with
  | |- context [processTransactions ?n ?t ?s] =>
      destruct (processTransactions_returns n t s) as (st1 & -> & _)
  end.
  - cbn. destruct (isValidBlock_true_inv st block Hv) as (p & Hp & _).
    unfold getLatestBlock in Hp. destruct (chain st); [discriminate | discriminate].
  - cbn. eauto.
Qed.

(** X10: [createBlock] builds, on top of the latest block, the block of the
    selected transactions with the next height, the hash of the latest
    header and the Merkle root of the selection.  When the validator is
    registered, the signature is not empty and every selected transaction
    is valid in the current state, the block is appended and returned, and
    a reward of [blockReward] for the validator is put at the end of the
    pool, to be included in a later block.  Otherwise [createBlock] throws
    and the ledger, the pool included, is as before, whatever the clock
    and the nonce: the same call throws again. *)
Theorem createBlock_returns_or_throws (now nonce : Z)
  (validatorAddress sig : string) (st : Blockchain)
  (previousBlock : Block) :
  getLatestBlock st = Some previousBlock ->
  let selected := selectTransactionsForBlock st in
  let block :=
    mkBlock (mkBlockHeader (index (header previousBlock) + 1)
                           (calculateBlockHash previousBlock) now
                           (Merkle.calculateMerkleRoot selected)
                           validatorAddress nonce)
            selected (Some sig) in
  let checks :=
    (index (header previousBlock) + 1 = 0
     \/ (exists v, getValidator st validatorAddress = Some v)
        /\ sig <> EmptyString)
    /\ Forall (fun tx => isValidTransaction st tx = true) selected in
  (checks ->
   exists st1,
     addBlock now block st = Ok (true, st1)
     /\ createBlock now nonce validatorAddress sig st
        = (Ok block, addValidatorReward now validatorAddress st1)
     /\ pendingTransactions (addValidatorReward now validatorAddress st1)
        = (pendingTransactions st1
           ++ [mkTransaction
                 ("reward-" ++ Json.number now ++ "-" ++ validatorAddress)
                 REWARD "NETWORK" validatorAddress
                 (blockReward (chainParams st)) 0 now
                 (Some "NETWORK_REWARD") None 0])%list)
  /\ (~ checks ->
      createBlock now nonce validatorAddress sig st
      = (Throw "Failed to add block to chain", st)).
Proof.
  intros Hl selected block checks.
  destruct (isValidBlock_checks st block previousBlock Hl) as [Hiff Hcases].
  assert (Hc : isValidBlock st block = Ok true <-> checks).
  { rewrite Hiff. subst checks block. cbn [header index previousHash merkleRoot
      validator transactions signature].
    split.
    - intros (_ & _ & _ & [H0|[Hv (s & [= <-] & Hs)]] & Hf); split; auto.
    - intros [[H0|[Hv Hs]] Hf]; split_and!; eauto. }
  split.
  - intros Hch. apply Hc in Hch.
    destruct (addBlock_valid_accepts now block st Hch) as (st1 & Ha).
    exists st1. split; [exact Ha |]. split.
    + unfold createBlock. rewrite Hl. cbv zeta.
      fold selected. fold block. now rewrite Ha.
    + unfold addValidatorReward. cbn [pendingTransactions with_pendingTransactions].
      destruct (addBlock_accepted_shape now block st st1 Ha) as (st2 & Hp & ->).
      pose proof (same_frame_processTransactions _ _ _ _ Hp) as (_ & _ & Hk).
      cbn in Hk. cbn [chainParams emit].
      assert (chainParams (if ohas (validator (header block)) (validators st2)
                then update_validator (validator (header block))
                       (fun v => set_totalBlocksValidated (totalBlocksValidated v + 1)
                                   (set_lastBlockValidated (index (header block)) v)) st2
                else st2) = chainParams st2) as ->.
      { destruct (ohas _ _); [|reflexivity].
        now destruct (same_frame_update_validator (validator (header block))
                (fun v => set_totalBlocksValidated (totalBlocksValidated v + 1)
                            (set_lastBlockValidated (index (header block)) v)) st2)
          as (_ & _ & ->). }
      now rewrite Hk.
  - intros Hn. assert (Hf : isValidBlock st block = Ok false).
    { destruct Hcases as [Ht|Hf]; [|exact Hf]. apply Hc in Ht. contradiction. }
    unfold createBlock. rewrite Hl. cbv zeta. fold selected. fold block.
    now rewrite (addBlock_invalid now block st Hf).
Qed.

Lemma createBlock_returns_or_throws_witness :
  (exists block st',
      createBlock Scenario.t0 7 "aur1validator" "sig" Backlog.pooled
      = (Ok block, st'))
  /\ createBlock Scenario.t0 7 "aur1validator" "sig" Backlog.stale
     = (Throw "Failed to add block to chain", Backlog.stale).
Proof.
  assert (H1 : getLatestBlock Backlog.pooled
               = Some (Scenario.next_block Scenario.s1 [Scenario.fund_alice]))
    by by_evaluation.
  assert (H2 : getLatestBlock Backlog.stale
               = Some (Scenario.next_block Backlog.pooled [Scenario.self_transfer]))
    by by_evaluation.
  pose proof (createBlock_returns_or_throws Scenario.t0 7 "aur1validator" "sig"
                Backlog.pooled _ H1) as [Hok _].
  pose proof (createBlock_returns_or_throws Scenario.t0 7 "aur1validator" "sig"
                Backlog.stale _ H2) as [_ Hthrow].
  split.
  - destruct Hok as (st1 & _ & Hc & _).
    + split.
      * right. split; [|discriminate]. eexists. by_evaluation.
      * rewrite List.Forall_forall, <- forallb_forall. by_evaluation.
    + eexists _, _. exact Hc.
  - apply Hthrow. intros [_ Hf].
    rewrite List.Forall_forall, <- forallb_forall in Hf.
    revert Hf. vm_compute. discriminate.
Defined.

Lemma is_Some_getOrCreateAccount a st :
  is_Some (accounts (getOrCreateAccount a st) !! a).
Proof. rewrite lookup_getOrCreateAccount, decide_True by reflexivity. eauto. Qed.

Lemma is_Some_getOrCreateAccount_kept a b st :
  is_Some (accounts st !! b) ->
  is_Some (accounts (getOrCreateAccount a st) !! b).
Proof.
  rewrite lookup_getOrCreateAccount. destruct (decide (a = b)); eauto.
Qed.

Lemma is_Some_update_account a b f st :
  is_Some (accounts st !! b) ->
  is_Some (accounts (update_account a f st) !! b).
Proof.
  rewrite lookup_update_account.
  destruct (decide (a = b)) as [->|]; [|tauto].
  intros [x ->]. cbn. eauto.
Qed.

Create HintDb accounts.

#[local] Hint Resolve is_Some_getOrCreateAccount is_Some_getOrCreateAccount_kept
  is_Some_update_account : accounts.

Lemma accounts_registerValidator now a s st b st' :
  registerValidator now a s st = Ok (b, st') -> accounts st' = accounts st.
Proof.
  unfold registerValidator.
  destruct (Number.ltb s (minStake (chainParams st))); [now intros [= _ <-] |].
  destruct (ohas a (validators st)); cbn.
  - intros [= _ <-]. cbn. apply accounts_update_validator.
  - destruct (latestHeader st); cbn; [|discriminate]. now intros [= _ <-].
Qed.

(* ===================================================================== *)
(** * What the Merkle root and the validation do not see                   *)
(* ===================================================================== *)

Lemma isValidBlock_has_latest (st : Blockchain) (block : Block) (v : bool) :
  isValidBlock st block = Ok v -> exists previousBlock, getLatestBlock st = Some previousBlock.
Proof.
  unfold isValidBlock. destruct (getLatestBlock st); [eauto | discriminate].
Qed.

Lemma isValidTransaction_set_signature (st : Blockchain) (tx : Transaction)
  (s : string) :
  s <> EmptyString ->
  isValidTransaction st tx = true ->
  isValidTransaction st (set_signature (Some s) tx) = true.
Proof.
  intros Hs. unfold isValidTransaction, verifyTransactionSignature, isNetworkReward.
  cbn [set_signature tx_type tx_from tx_signature tx_amount tx_fee tx_nonce present].
  destruct (bool_decide (tx_type tx = REWARD) && bool_decide (tx_from tx = "NETWORK"));
    [reflexivity |].
  rewrite (bool_decide_eq_false_2 _ Hs). cbn [negb].
  destruct (negb (present (tx_signature tx))); [discriminate | tauto].
Qed.

Lemma calculateMerkleRoot_set_signature (sigs : Transaction -> option string)
  (txs : list Transaction) :
  Merkle.calculateMerkleRoot (map (fun tx => set_signature (sigs tx) tx) txs)
  = Merkle.calculateMerkleRoot txs.
Proof.
  unfold Merkle.calculateMerkleRoot.
  destruct txs as [|tx txs]; [reflexivity |].
  cbn [map]. rewrite map_map.
  rewrite calculateTransactionHash_signature.
  do 2 f_equal.
Qed.

(** X12: the validation looks at no signature beyond its presence, and the
    Merkle root and the block hash do not cover the signatures: a valid
    block stays valid, with the same hash, when its signature and the
    signature of each of its transactions are replaced by any strings that
    are not empty. *)
Theorem isValidBlock_resigned (st : Blockchain) (block : Block)
  (sig : string) (sigs : Transaction -> string) :
  sig <> EmptyString ->
  (forall tx, sigs tx <> EmptyString) ->
  isValidBlock st block = Ok true ->
  isValidBlock st (resigned sig sigs block) = Ok true
  /\ calculateBlockHash (resigned sig sigs block) = calculateBlockHash block
  /\ merkleRoot (header (resigned sig sigs block))
     = Merkle.calculateMerkleRoot (transactions (resigned sig sigs block)).
Proof.
  intros Hsig Hsigs Hv.
  destruct (isValidBlock_has_latest _ _ _ Hv) as [previousBlock Hl].
  pose proof (proj1 (isValidBlock_checks st block previousBlock Hl)) as Hb.
  pose proof (proj1 (isValidBlock_checks st (resigned sig sigs block) previousBlock Hl))
    as Hr.
  apply Hb in Hv. destruct Hv as (H1 & H2 & H3 & H4 & H5).
  assert (Hroot : Merkle.calculateMerkleRoot (transactions (resigned sig sigs block))
                  = Merkle.calculateMerkleRoot (transactions block)).
  { unfold resigned. cbn [transactions].
    exact (calculateMerkleRoot_set_signature (fun tx => Some (sigs tx)) _). }
  split; [|split; [reflexivity | rewrite Hroot; exact H3]].
  apply Hr. split_and!.
  - exact H1.
  - exact H2.
  - rewrite Hroot. exact H3.
  - destruct H4 as [H4|[H4 _]]; [now left | right].
    split; [exact H4 |]. exists sig. now split.
  - unfold resigned. cbn [transactions].
    apply List.Forall_map. revert H5. apply List.Forall_impl. intros tx.
    apply isValidTransaction_set_signature, Hsigs.
Qed.

Lemma isValidBlock_resigned_witness :
  let blk := Scenario.next_block Scenario.s3 [Scenario.carol_stakes] in
  isValidBlock Scenario.s3 (resigned "x" (fun _ => "y") blk) = Ok true
  /\ calculateBlockHash (resigned "x" (fun _ => "y") blk) = calculateBlockHash blk
  /\ merkleRoot (header (resigned "x" (fun _ => "y") blk))
     = Merkle.calculateMerkleRoot (transactions (resigned "x" (fun _ => "y") blk)).
Proof.
  intros blk.
  assert (H : isValidBlock Scenario.s3 blk = Ok true) by by_evaluation.
  assert (Hx : "x" <> EmptyString) by discriminate.
  assert (Hy : forall tx : Transaction, (fun _ : Transaction => "y") tx <> EmptyString)
    by (intros _; discriminate).
  exact (isValidBlock_resigned Scenario.s3 blk "x" (fun _ => "y") Hx Hy H).
Defined.

Lemma parents_duplicated_last (n : nat) :
  forall (level : list string) (last : string),
    length level = (2 * n)%nat ->
    Merkle.parents (level ++ [last]) = Merkle.parents (level ++ [last; last]).
Proof.
  induction n as [|n IH]; intros level last Hlen.
  - destruct level; [reflexivity | discriminate].
  - destruct level as [|l [|r level]]; cbn [length] in Hlen; try lia.
    cbn [app Merkle.parents]. f_equal. apply IH. lia.
Qed.

Lemma buildMerkleTree_duplicated_last (level : list string) (last : string) :
  level <> [] -> Nat.Even (length level) ->
  Merkle.buildMerkleTree (level ++ [last])
  = Merkle.buildMerkleTree (level ++ [last; last]).
Proof.
  intros Hne [n Hn].
  destruct level as [|l [|r level]]; [congruence | cbn in Hn; lia |].
  cbn [app]. rewrite !Merkle.buildMerkleTree_equation_3.
  f_equal. exact (parents_duplicated_last n (l :: r :: level) last Hn).
Qed.

Lemma calculateMerkleRoot_duplicated (txs : list Transaction) (tx : Transaction) :
  txs <> [] -> Nat.Even (length txs) ->
  Merkle.calculateMerkleRoot (txs ++ [tx])
  = Merkle.calculateMerkleRoot (txs ++ [tx; tx]).
Proof.
  intros Hne Hev. unfold Merkle.calculateMerkleRoot.
  destruct txs as [|t txs]; [congruence |].
  cbn [app]. change (t :: (txs ++ [tx])%list) with ((t :: txs) ++ [tx])%list.
  change (t :: (txs ++ [tx; tx])%list) with ((t :: txs) ++ [tx; tx])%list.
  rewrite !map_app. cbn [map].
  apply buildMerkleTree_duplicated_last.
  - discriminate.
  - cbn [length] in *. now rewrite List.length_map.
Qed.

(** X13: a list of an odd number of transactions, three or more, has the
    Merkle root of the list with its last transaction repeated; so a valid
    block whose list is of that kind stays valid, under the same header,
    hash and signature, with the last transaction in it twice. *)
Theorem calculateMerkleRoot_duplicated_last (st : Blockchain) (block : Block)
  (txs : list Transaction) (tx : Transaction) :
  txs <> [] -> Nat.Even (length txs) ->
  Merkle.calculateMerkleRoot (txs ++ [tx])
  = Merkle.calculateMerkleRoot (txs ++ [tx; tx])
  /\ (transactions block = (txs ++ [tx])%list ->
      isValidBlock st block = Ok true ->
      isValidBlock st (with_transactions (txs ++ [tx; tx]) block) = Ok true
      /\ calculateBlockHash (with_transactions (txs ++ [tx; tx]) block)
         = calculateBlockHash block).
Proof.
  intros Hne Hev.
  pose proof (calculateMerkleRoot_duplicated txs tx Hne Hev) as Hroot.
  split; [exact Hroot |]. intros Ht Hv. split; [|reflexivity].
  destruct (isValidBlock_has_latest _ _ _ Hv) as [previousBlock Hl].
  apply (proj1 (isValidBlock_checks st block previousBlock Hl)) in Hv.
  destruct Hv as (H1 & H2 & H3 & H4 & H5).
  apply (proj1 (isValidBlock_checks st _ previousBlock Hl)).
  unfold with_transactions. cbn [header transactions signature].
  rewrite Ht in H3, H5. split_and!; try assumption.
  - now rewrite <- Hroot.
  - apply Forall_app in H5. destruct H5 as [H5 H6].
    apply Forall_app. split; [exact H5 |].
    inversion H6; subst. now repeat constructor.
Qed.

Lemma calculateMerkleRoot_duplicated_last_witness :
  let txs := [Scenario.pay_bob; Scenario.self_transfer] in
  let blk := Scenario.next_block Scenario.s2 (txs ++ [Scenario.pay_bob]) in
  Merkle.calculateMerkleRoot (txs ++ [Scenario.pay_bob])
  = Merkle.calculateMerkleRoot (txs ++ [Scenario.pay_bob; Scenario.pay_bob])
  /\ isValidBlock Scenario.s2
       (with_transactions (txs ++ [Scenario.pay_bob; Scenario.pay_bob]) blk)
     = Ok true
  /\ calculateBlockHash
       (with_transactions (txs ++ [Scenario.pay_bob; Scenario.pay_bob]) blk)
     = calculateBlockHash blk.
Proof.
  intros txs blk.
  assert (Hne : txs <> []) by discriminate.
  assert (Hev : Nat.Even (length txs)) by (exists 1%nat; reflexivity).
  assert (Ht : transactions blk = (txs ++ [Scenario.pay_bob])%list) by by_evaluation.
  assert (Hv : isValidBlock Scenario.s2 blk = Ok true) by by_evaluation.
  destruct (calculateMerkleRoot_duplicated_last Scenario.s2 blk txs Scenario.pay_bob
              Hne Hev) as [Hroot Hblock].
  split; [exact Hroot | exact (Hblock Ht Hv)].
Defined.

(* ===================================================================== *)
(** * Signing                                                             *)
(* ===================================================================== *)

(** X14: no function that signs returns: [sign] throws [Failed to sign
    data] for every text and every key, whatever [ecdsaSign] does, because
    the signature that [ecdsaSign] returns has no method [copy];
    [signMessage], which calls [sign], throws [Failed to sign message] for
    every transaction and every key, and so does the node's [signData] for
    every block data. *)
Theorem signing_always_throws
  (ecdsaSign : list Z -> list Z -> result (list Z * Z))
  (data : string) (key : list Z) (message : Transaction)
  (dataStr privateKey : string) :
  Wallet.sign ecdsaSign data key = Throw "Failed to sign data"
  /\ Wallet.signMessage ecdsaSign message privateKey
     = Throw "Failed to sign message"
  /\ Node.signData ecdsaSign dataStr privateKey
     = Throw "Failed to sign message".
Proof.
  split_and!.
  - apply sign_throws.
  - apply signMessage_throws.
  - unfold Node.signData. now rewrite sign_throws.
Qed.

Example sign_with_a_signature_at_hand :
  Stub.ecdsaSign (digest_bytes (bytes_of_string "abc")) [1; 2; 3]
  = Ok (repeat 7 64, 1)
  /\ Wallet.sign Stub.ecdsaSign "abc" [1; 2; 3] = Throw "Failed to sign data".
Proof. split; reflexivity. Qed.

(* ===================================================================== *)
(** * The node                                                            *)
(* ===================================================================== *)

Lemma addBlock_accepted_chain now block st st' :
  addBlock now block st = Ok (true, st') ->
  chain st' = (chain st ++ [block])%list.
Proof.
  intros H. destruct (addBlock_accepted_shape now block st st' H) as (st2 & Hp & ->).
  pose proof (same_frame_processTransactions _ _ _ _ Hp) as (Hc & _).
  cbn in Hc. cbn [chain emit].
  destruct (ohas _ _); rewrite ?chain_update_validator; exact Hc.
Qed.

Lemma with_blockchain_same (node : Node.NodeService) :
  Node.with_blockchain (Node.blockchain node) node = node.
Proof. now destruct node. Qed.

Section NodeFacts.

Variable scrypt : string -> list Z -> nat -> Z -> Z -> Z -> result (list Z).
Variable aes256 : list Z -> list Z -> list Z.
Variable ecdsaSign : list Z -> list Z -> result (list Z * Z).
Variable walletDir : gmap string Wallet.WalletFile.

Lemma node_createTransaction_unchanged (now : Z) (from to : string)
  (amount fee : number) (password : string) (node : Node.NodeService) :
  Node.createTransaction scrypt aes256 ecdsaSign walletDir
                         now from to amount fee password node
  = (Throw "Failed to create transaction", node).
Proof.
  unfold Node.createTransaction. now rewrite wallet_createTransaction_throws.
Qed.

Lemma node_createStakeTransaction_unchanged (now : Z) (from : string)
  (amount fee : number) (password : string) (node : Node.NodeService) :
  Node.createStakeTransaction scrypt aes256 ecdsaSign walletDir
                              now from amount fee password node
  = (Throw "Failed to create transaction", node).
Proof.
  unfold Node.createStakeTransaction. now rewrite wallet_createTransaction_throws.
Qed.

Lemma tryValidateBlock_unchanged (random : number) (now nonce : Z)
  (privateKey : string) (node : Node.NodeService) :
  Node.tryValidateBlock ecdsaSign random now nonce privateKey node = node.
Proof.
  unfold Node.tryValidateBlock.
  destruct (Node.validatorAddress node) as [address|]; [|reflexivity].
  destruct (selectValidator random (Node.blockchain node)) as [a|]; [|reflexivity].
  destruct (bool_decide (a = address)); [|reflexivity].
  destruct (getLatestBlock (Node.blockchain node)) as [latest|]; [|reflexivity].
  cbv zeta. unfold Node.signData. now rewrite sign_throws.
Qed.

(** X15: the node creates no transaction and produces no block.  Its
    [createTransaction] and its [createStakeTransaction] throw [Failed to
    create transaction], the error of the wallet service, for every sender,
    amount, fee and password, and leave the node as it was: nothing is
    pooled and nothing is broadcast.  [tryValidateBlock] leaves the node as
    it was with every draw and every key: where the node is elected, the
    signing of the block data throws before [createBlock] is called. *)
Theorem node_creates_no_transaction_and_no_block (now : Z) (from to : string)
  (amount fee : number) (password : string) (random : number) (nonce : Z)
  (privateKey : string) (node : Node.NodeService) :
  Node.createTransaction scrypt aes256 ecdsaSign walletDir
                         now from to amount fee password node
  = (Throw "Failed to create transaction", node)
  /\ Node.createStakeTransaction scrypt aes256 ecdsaSign walletDir
                                 now from amount fee password node
     = (Throw "Failed to create transaction", node)
  /\ Node.tryValidateBlock ecdsaSign random now nonce privateKey node = node.
Proof.
  split_and!.
  - apply node_createTransaction_unchanged.
  - apply node_createStakeTransaction_unchanged.
  - apply tryValidateBlock_unchanged.
Qed.

Example node_createTransaction_funded :
  getAddressBalance (Node.blockchain StubNode.funded) "aur1alice"
  = Number.of_Z 100
  /\ sequenceOf (Node.blockchain StubNode.funded) "aur1alice" = 0
  /\ Wallet.loadWallet Stub.scrypt Stub.aes256 Stub.walletDir "aur1alice"
                       Stub.password
     = Ok (Wallet.mkWallet "aur1alice" "02aa" Stub.privateKey (Some "alice")
                           Scenario.t0).
Proof. split_and!; by_evaluation. Qed.

(** X16: [registerAsValidator] consults the stake of the account, not the
    registry: for an address whose wallet loads and whose account holds a
    stake that is positive and not below [minStake], it returns true, makes
    the address the node's validator address, and adds the whole stake of
    the account once more to the stake that the registry records for the
    address (a sum of numbers, which is rounded; for integers up to [2^53]
    it is the number nearest to the sum of the integers), the account
    itself being as before.  So the recorded stake, the weight of the
    address in [selectValidator], grows with every call. *)
Theorem registerAsValidator_adds_the_stake_again (now : Z)
  (address password : string) (node : Node.NodeService) (wallet : Wallet.Wallet) :
  Wallet.loadWallet scrypt aes256 walletDir address password = Ok wallet ->
  chain (Node.blockchain node) <> [] ->
  Number.leb (getAddressStake (Node.blockchain node) address) Number.zero
  = false ->
  Number.ltb (getAddressStake (Node.blockchain node) address)
             (minStake (chainParams (Node.blockchain node))) = false ->
  exists node' v,
    Node.registerAsValidator scrypt aes256 walletDir now address password node
    = (true, node')
    /\ Node.validatorAddress node' = Some address
    /\ getValidator (Node.blockchain node') address = Some v
    /\ val_stake v
       = match getValidator (Node.blockchain node) address with
         | Some registered =>
             Number.add (val_stake registered)
                        (getAddressStake (Node.blockchain node) address)
         | None => getAddressStake (Node.blockchain node) address
         end
    /\ (forall registered recorded staked,
           getValidator (Node.blockchain node) address = Some registered ->
           val_stake registered = Number.of_Z recorded ->
           getAddressStake (Node.blockchain node) address = Number.of_Z staked ->
           Number.safe recorded -> Number.safe staked ->
           val_stake v = Number.of_Z (recorded + staked))
    /\ getAddressStake (Node.blockchain node') address
       = getAddressStake (Node.blockchain node) address
    /\ accounts (Node.blockchain node') = accounts (Node.blockchain node)
    /\ Node.broadcasts node' = Node.broadcasts node.
Proof.
  intros Hw Hne Hpos Hmin. unfold Node.registerAsValidator.
  rewrite Hw, Hpos.
  destruct (registerValidator_accepts now address
              (getAddressStake (Node.blockchain node) address)
              (Node.blockchain node) Hmin Hne)
    as (st' & v & -> & Hv & _ & Hs & _ & Hacc & _).
  eexists _, v. split; [reflexivity |]. cbn.
  split_and!; try reflexivity; try assumption.
  - intros registered recorded staked Hreg Hr Hk Sr Sk.
    rewrite Hs, Hreg, Hr, Hk. now apply NumberFacts.add_of_Z.
  - unfold getAddressStake. now rewrite Hacc.
Qed.

Lemma createBlock_returned_in_chain now nonce validatorAddress signature st
  block st' :
  createBlock now nonce validatorAddress signature st = (Ok block, st') ->
  chain st' = (chain st ++ [block])%list.
Proof.
  unfold createBlock.
  destruct (getLatestBlock st) as [p|]; [|discriminate]. cbv zeta.
  match goal with
  | |- context [addBlock ?n ?b ?s] => destruct (addBlock n b s) as [[[|] st1]|] eqn:H
  end; try discriminate.
  intros [= <- <-]. unfold addValidatorReward. cbn [chain with_pendingTransactions].
  exact (addBlock_accepted_chain _ _ _ _ H).
Qed.

Lemma createBlock_chain_kept now nonce validatorAddress signature st b :
  In b (chain st) ->
  In b (chain (snd (createBlock now nonce validatorAddress signature st))).
Proof.
  intros Hb. unfold createBlock.
  destruct (getLatestBlock st) as [p|]; [|exact Hb]. cbv zeta.
  match goal with
  | |- context [addBlock ?n ?blk ?s] =>
      destruct (addBlock n blk s) as [[[|] st1]|] eqn:H
  end; cbn [snd]; [| |exact Hb].
  - unfold addValidatorReward. cbn [chain with_pendingTransactions].
    rewrite (addBlock_accepted_chain _ _ _ _ H). apply in_or_app. now left.
  - now rewrite (addBlock_rejected_same _ _ _ _ H).
Qed.

Lemma addTransaction_well_formed st tx :
  well_formed_chain (chain st) ->
  well_formed_chain (chain (snd (addTransaction st tx))).
Proof. unfold addTransaction. now destruct (negb _). Qed.

(** The chain of a node stays well formed, and every block that the node
    has broadcast is in its chain. *)
Lemma node_reachable_invariant (start node : Node.NodeService) :
  Node.reachable scrypt aes256 ecdsaSign walletDir start node ->
  well_formed_chain (chain (Node.blockchain start)) ->
  (forall block,
      In (Node.broadcastBlock block) (Node.broadcasts start) ->
      In block (chain (Node.blockchain start))) ->
  well_formed_chain (chain (Node.blockchain node))
  /\ forall block,
       In (Node.broadcastBlock block) (Node.broadcasts node) ->
       In block (chain (Node.blockchain node)).
Proof.
  intros Hr Hw0 Hb0.
  induction Hr as [|node now block _ [IHr IHb]
                   |node tx _ [IHr IHb]
                   |node now from to amount fee password _ [IHr IHb]
                   |node now from amount fee password _ [IHr IHb]
                   |node now address password _ [IHr IHb]
                   |node random now nonce privateKey _ [IHr IHb]].
  - now split.
  - unfold Node.handleNewBlock.
    destruct (addBlock now block (Node.blockchain node)) as [[[|] st]|] eqn:E.
    + split; [eapply addBlock_well_formed; eassumption |].
      cbn. rewrite (addBlock_accepted_chain _ _ _ _ E).
      intros b Hb. apply in_app_or in Hb. apply in_or_app.
      destruct Hb as [Hb|[[= <-]|[]]]; [left; auto | right; now left].
    + split; [eapply addBlock_well_formed; eassumption |].
      cbn. now rewrite (addBlock_rejected_same _ _ _ _ E).
    + now split.
  - unfold Node.handleNewTransaction.
    pose proof (addTransaction_well_formed _ tx IHr) as Hr.
    unfold addTransaction in *.
    destruct (negb (isValidTransaction (Node.blockchain node) tx)); cbn in *.
    + now split.
    + split; [exact Hr |]. intros b Hb. apply in_app_or in Hb.
      destruct Hb as [Hb|[[=]|[]]]. auto.
  - unfold Node.createTransaction.
    destruct (Wallet.createTransaction _ _ _ _ _ _ _ _) as [tx|]; [|now split].
    pose proof (addTransaction_well_formed _ tx IHr) as Hr.
    unfold addTransaction in *.
    destruct (negb (isValidTransaction (Node.blockchain node) tx)); cbn in *.
    + now split.
    + split; [exact Hr |]. intros b Hb. apply in_app_or in Hb.
      destruct Hb as [Hb|[[=]|[]]]. auto.
  - unfold Node.createStakeTransaction.
    destruct (Wallet.createTransaction _ _ _ _ _ _ _ _) as [tx|]; [|now split].
    pose proof (addTransaction_well_formed _ tx IHr) as Hr.
    unfold addTransaction in *.
    destruct (negb (isValidTransaction (Node.blockchain node) tx)); cbn in *.
    + now split.
    + split; [exact Hr |]. intros b Hb. apply in_app_or in Hb.
      destruct Hb as [Hb|[[=]|[]]]. auto.
  - unfold Node.registerAsValidator.
    destruct (Wallet.loadWallet _ _ _ _ _); [|now split].
    destruct (Number.leb _ _); [now split |].
    destruct (registerValidator _ _ _ _) as [[[|] st]|] eqn:E; [| |now split].
    + cbn. now destruct (same_frame_registerValidator _ _ _ _ _ _ E) as (-> & _).
    + cbn. now destruct (same_frame_registerValidator _ _ _ _ _ _ E) as (-> & _).
  - unfold Node.tryValidateBlock.
    destruct (Node.validatorAddress node) as [address|]; [|now split].
    destruct (selectValidator _ _) as [selected|]; [|now split].
    destruct (bool_decide _); [|now split].
    destruct (getLatestBlock _) as [latest|]; [|now split].
    destruct (Node.signData _ _ _) as [signature|]; [|now split].
    pose proof (createBlock_chain now nonce address signature _ IHr) as Hr.
    pose proof (fun b => createBlock_chain_kept now nonce address signature
                           (Node.blockchain node) b) as Hk.
    destruct (createBlock now nonce address signature (Node.blockchain node))
      as [[newBlock|msg] st] eqn:E; cbn [snd] in *.
    + split; [exact Hr |]. cbn.
      rewrite (createBlock_returned_in_chain _ _ _ _ _ _ _ E).
      intros b Hb. apply in_app_or in Hb. apply in_or_app.
      destruct Hb as [Hb|[[= <-]|[]]]; [left; auto | right; now left].
    + split; [exact Hr |]. cbn. auto.
Qed.

(** X17: a node relays no block that it has not accepted itself.  From a
    start with a well-formed chain that holds the blocks broadcast so far
    (none, after the constructor or a restart), every block that the node
    has broadcast is in the chain of the node's ledger, at the height that
    the block names. *)
Theorem node_broadcasts_accepted_blocks (start node : Node.NodeService)
  (block : Block) :
  Node.reachable scrypt aes256 ecdsaSign walletDir start node ->
  well_formed_chain (chain (Node.blockchain start)) ->
  (forall b,
      In (Node.broadcastBlock b) (Node.broadcasts start) ->
      In b (chain (Node.blockchain start))) ->
  In (Node.broadcastBlock block) (Node.broadcasts node) ->
  In block (chain (Node.blockchain node))
  /\ getBlockByIndex (Node.blockchain node) (index (header block)) = Some block.
Proof.
  intros Hr Hw0 Hb0 Hb.
  destruct (node_reachable_invariant start node Hr Hw0 Hb0) as [Hw Hin].
  split; [now apply Hin |].
  destruct (list_elem_of_lookup_1 _ _
              (proj2 (list_elem_of_In _ _) (Hin block Hb))) as [i Hi].
  pose proof (well_formed_chain_heights _ _ _ Hw Hi) as Hh.
  unfold getBlockByIndex. rewrite Hh.
  pose proof (lookup_lt_Some _ _ _ Hi).
  destruct (Z.of_nat i <? 0) eqn:E1; [lia |].
  destruct (Z.of_nat (length (chain (Node.blockchain node))) <=? Z.of_nat i) eqn:E2;
    [lia |].
  cbn. now rewrite Nat2Z.id.
Qed.

(** What a new node keeps: the chain of the constructor, no validator, no
    account, no validator address and no broadcast of a block. *)
Lemma new_node_invariant (config : P2P.NodeConfig) (node : Node.NodeService) :
  Node.reachable scrypt aes256 ecdsaSign walletDir
                 (Node.new_NodeService config) node ->
  chain (Node.blockchain node)
  = chain (new_Blockchain (Node.chainParams_of config))
  /\ validators (Node.blockchain node) = []
  /\ accounts (Node.blockchain node) = ∅
  /\ Node.validatorAddress node = None
  /\ forall block, ~ In (Node.broadcastBlock block) (Node.broadcasts node).
Proof.
  induction 1 as [|node now block _ (IHc & IHv & IHa & IHn & IHb)
                  |node tx _ (IHc & IHv & IHa & IHn & IHb)
                  |node now from to amount fee password _ (IHc & IHv & IHa & IHn & IHb)
                  |node now from amount fee password _ (IHc & IHv & IHa & IHn & IHb)
                  |node now address password _ (IHc & IHv & IHa & IHn & IHb)
                  |node random now nonce privateKey _ (IHc & IHv & IHa & IHn & IHb)].
  - split_and!; try reflexivity. intros block [].
  - unfold Node.handleNewBlock.
    destruct (addBlock now block (Node.blockchain node)) as [[[|] st]|] eqn:E.
    + exfalso.
      destruct (isValidBlock_true_inv _ _ (addBlock_accepted_valid _ _ _ _ E))
        as (p & Hp & Hi & _ & _ & Hs).
      unfold verifyBlockSignature in Hs. rewrite IHv in Hs. cbn in Hs.
      destruct (index (header block) =? 0) eqn:E0; [|discriminate].
      unfold getLatestBlock in Hp. rewrite IHc in Hp. cbn in Hp.
      injection Hp as <-. cbn in Hi. lia.
    + rewrite (addBlock_rejected_same _ _ _ _ E). cbn. now split_and!.
    + now split_and!.
  - unfold Node.handleNewTransaction, addTransaction.
    destruct (negb (isValidTransaction (Node.blockchain node) tx)); cbn.
    + now split_and!.
    + split_and!; try assumption. intros b Hb. apply in_app_or in Hb.
      destruct Hb as [Hb|[[=]|[]]]. now apply (IHb b).
  - unfold Node.createTransaction.
    destruct (Wallet.createTransaction _ _ _ _ _ _ _ _) as [tx|];
      [|now split_and!].
    unfold addTransaction.
    destruct (negb (isValidTransaction (Node.blockchain node) tx)); cbn.
    + now split_and!.
    + split_and!; try assumption. intros b Hb. apply in_app_or in Hb.
      destruct Hb as [Hb|[[=]|[]]]. now apply (IHb b).
  - unfold Node.createStakeTransaction.
    destruct (Wallet.createTransaction _ _ _ _ _ _ _ _) as [tx|];
      [|now split_and!].
    unfold addTransaction.
    destruct (negb (isValidTransaction (Node.blockchain node) tx)); cbn.
    + now split_and!.
    + split_and!; try assumption. intros b Hb. apply in_app_or in Hb.
      destruct Hb as [Hb|[[=]|[]]]. now apply (IHb b).
  - unfold Node.registerAsValidator.
    destruct (Wallet.loadWallet _ _ _ _ _); [|now split_and!].
    unfold getAddressStake. rewrite IHa, lookup_empty. cbn. now split_and!.
  - unfold Node.tryValidateBlock. rewrite IHn. now split_and!.
Qed.

(** X18: a node that starts from the constructor never gets past the
    genesis block.  A block above height 0 is only accepted from a
    registered validator, a validator is only registered for a stake, and a
    stake is only credited by a transaction in an accepted block: whatever
    blocks and transactions come in and whatever is asked of the node, its
    chain is the chain of the constructor, it has no validator and no
    account, it is no validator itself, [registerAsValidator] returns
    false, and it never broadcasts a block. *)
Theorem new_node_never_leaves_genesis (config : P2P.NodeConfig)
  (node : Node.NodeService) :
  Node.reachable scrypt aes256 ecdsaSign walletDir
                 (Node.new_NodeService config) node ->
  chain (Node.blockchain node)
  = chain (new_Blockchain (Node.chainParams_of config))
  /\ length (chain (Node.blockchain node)) = 1%nat
  /\ getValidators (Node.blockchain node) = []
  /\ accounts (Node.blockchain node) = ∅
  /\ Node.validatorAddress node = None
  /\ (forall block, ~ In (Node.broadcastBlock block) (Node.broadcasts node))
  /\ (forall now block,
         Node.blockchain (Node.handleNewBlock now block node)
         = Node.blockchain node)
  /\ (forall now address password,
         Node.registerAsValidator scrypt aes256 walletDir now address password node
         = (false, node)).
Proof.
  intros Hr.
  destruct (new_node_invariant config node Hr) as (Hc & Hv & Ha & Hn & Hb).
  split; [exact Hc |]. split; [now rewrite Hc |].
  split; [unfold getValidators; now rewrite Hv |].
  split; [exact Ha |]. split; [exact Hn |]. split; [exact Hb |]. split.
  - intros now block.
    destruct (new_node_invariant config (Node.handleNewBlock now block node))
      as (Hc' & _); [now apply Node.reachable_handleNewBlock |].
    unfold Node.handleNewBlock in *.
    destruct (addBlock now block (Node.blockchain node)) as [[[|] st]|] eqn:E;
      [| |reflexivity].
    + exfalso. cbn in Hc'. rewrite (addBlock_accepted_chain _ _ _ _ E), Hc in Hc'.
      apply (f_equal (@length Block)) in Hc'. rewrite length_app in Hc'.
      cbn in Hc'. lia.
    + cbn. exact (addBlock_rejected_same _ _ _ _ E).
  - intros now address password. unfold Node.registerAsValidator.
    destruct (Wallet.loadWallet _ _ _ _ _); [|reflexivity].
    unfold getAddressStake. rewrite Ha, lookup_empty. reflexivity.
Qed.

End NodeFacts.

Lemma registerAsValidator_adds_the_stake_again_witness :
  exists node' v,
    Node.registerAsValidator Stub.scrypt Stub.aes256 StubNode.walletDir
      Scenario.t0 "aur1carol" Stub.password StubNode.staked
    = (true, node')
    /\ Node.validatorAddress node' = Some "aur1carol"
    /\ getValidator (Node.blockchain node') "aur1carol" = Some v
    /\ val_stake v = Number.of_Z (1500 + 1500)
    /\ getAddressStake (Node.blockchain node') "aur1carol"
       = getAddressStake (Node.blockchain StubNode.staked) "aur1carol"
    /\ accounts (Node.blockchain node') = accounts (Node.blockchain StubNode.staked)
    /\ Node.broadcasts node' = Node.broadcasts StubNode.staked.
Proof.
  assert (Hw : Wallet.loadWallet Stub.scrypt Stub.aes256 StubNode.walletDir
                 "aur1carol" Stub.password
               = Ok StubNode.carol_wallet) by by_evaluation.
  assert (Hne : chain (Node.blockchain StubNode.staked) <> [])
    by (vm_compute; discriminate).
  assert (Hpos : Number.leb
                   (getAddressStake (Node.blockchain StubNode.staked) "aur1carol")
                   Number.zero = false)
    by by_evaluation.
  assert (Hmin : Number.ltb
                   (getAddressStake (Node.blockchain StubNode.staked) "aur1carol")
                   (minStake (chainParams (Node.blockchain StubNode.staked)))
                 = false)
    by by_evaluation.
  assert (Hreg : getValidator (Node.blockchain StubNode.staked) "aur1carol"
                 = Some (mkValidator "aur1carol" 1500 true 2 0 "aur1carol"
                                     Scenario.t0))
    by by_evaluation.
  assert (Hstake : getAddressStake (Node.blockchain StubNode.staked) "aur1carol"
                   = Number.of_Z 1500)
    by by_evaluation.
  destruct (registerAsValidator_adds_the_stake_again
              Stub.scrypt Stub.aes256 StubNode.walletDir Scenario.t0 "aur1carol"
              Stub.password StubNode.staked StubNode.carol_wallet
              Hw Hne Hpos Hmin)
    as (node' & v & H1 & H2 & H3 & _ & H5 & H6 & H7 & H8).
  exists node', v. split_and!; try assumption.
  apply (H5 _ 1500 1500 Hreg); [reflexivity | exact Hstake | |];
    unfold Number.safe; lia.
Defined.

Example registerAsValidator_twice :
  let once := snd (Node.registerAsValidator Stub.scrypt Stub.aes256
                     StubNode.walletDir Scenario.t0 "aur1carol" Stub.password
                     StubNode.staked) in
  let twice := snd (Node.registerAsValidator Stub.scrypt Stub.aes256
                      StubNode.walletDir Scenario.t0 "aur1carol" Stub.password
                      once) in
  validatorStake (Node.blockchain StubNode.staked) "aur1carol"
  = Number.of_Z 1500
  /\ validatorStake (Node.blockchain once) "aur1carol" = Number.of_Z 3000
  /\ validatorStake (Node.blockchain twice) "aur1carol" = Number.of_Z 4500
  /\ getAddressStake (Node.blockchain twice) "aur1carol" = Number.of_Z 1500.
Proof. cbv zeta. split_and!; by_evaluation. Qed.

Lemma reachable_s3 : reachable Scenario.params Scenario.s3.
Proof.
  assert (H1 : registerValidator Scenario.t0 "aur1validator" 1000 Scenario.s0
               = Ok (true, Scenario.s1)) by by_evaluation.
  assert (H3 : addBlock Scenario.t0
                 (Scenario.next_block Scenario.s1 [Scenario.fund_carol]) Scenario.s1
               = Ok (true, Scenario.s3)) by by_evaluation.
  eapply reachable_addBlock; [|exact H3].
  eapply reachable_registerValidator; [|exact H1].
  apply reachable_new.
Qed.

Lemma node_broadcasts_accepted_blocks_witness :
  In (Scenario.next_block Scenario.s3 [Scenario.carol_stakes])
     (chain (Node.blockchain StubNode.relayed))
  /\ getBlockByIndex (Node.blockchain StubNode.relayed)
       (index (header (Scenario.next_block Scenario.s3 [Scenario.carol_stakes])))
     = Some (Scenario.next_block Scenario.s3 [Scenario.carol_stakes]).
Proof.
  assert (Hr : Node.reachable Stub.scrypt Stub.aes256 Stub.ecdsaSign Stub.walletDir
                 StubNode.restored StubNode.relayed)
    by (apply Node.reachable_handleNewBlock, Node.reachable_start).
  assert (Hw : well_formed_chain (chain (Node.blockchain StubNode.restored)))
    by exact (reachable_well_formed Scenario.params Scenario.s3 reachable_s3).
  assert (H0 : forall b,
             In (Node.broadcastBlock b) (Node.broadcasts StubNode.restored) ->
             In b (chain (Node.blockchain StubNode.restored)))
    by (intros b []).
  assert (Hb : Node.broadcasts StubNode.relayed
               = [Node.broadcastBlock
                    (Scenario.next_block Scenario.s3 [Scenario.carol_stakes])])
    by by_evaluation.
  assert (Hin : In (Node.broadcastBlock
                      (Scenario.next_block Scenario.s3 [Scenario.carol_stakes]))
                   (Node.broadcasts StubNode.relayed))
    by (rewrite Hb; left; reflexivity).
  exact (node_broadcasts_accepted_blocks
           Stub.scrypt Stub.aes256 Stub.ecdsaSign Stub.walletDir
           StubNode.restored StubNode.relayed _ Hr Hw H0 Hin).
Defined.

Lemma new_node_never_leaves_genesis_witness :
  chain (Node.blockchain StubNode.fresh)
  = chain (new_Blockchain (Node.chainParams_of Session.config))
  /\ length (chain (Node.blockchain StubNode.fresh)) = 1%nat
  /\ getValidators (Node.blockchain StubNode.fresh) = []
  /\ accounts (Node.blockchain StubNode.fresh) = ∅
  /\ Node.validatorAddress StubNode.fresh = None
  /\ (forall block,
         ~ In (Node.broadcastBlock block) (Node.broadcasts StubNode.fresh))
  /\ (forall now block,
         Node.blockchain (Node.handleNewBlock now block StubNode.fresh)
         = Node.blockchain StubNode.fresh)
  /\ (forall now address password,
         Node.registerAsValidator Stub.scrypt Stub.aes256 Stub.walletDir
           now address password StubNode.fresh
         = (false, StubNode.fresh)).
Proof.
  assert (Hr : Node.reachable Stub.scrypt Stub.aes256 Stub.ecdsaSign Stub.walletDir
                 (Node.new_NodeService Session.config) StubNode.fresh)
    by (apply Node.reachable_handleNewTransaction, Node.reachable_handleNewBlock,
          Node.reachable_start).
  exact (new_node_never_leaves_genesis
           Stub.scrypt Stub.aes256 Stub.ecdsaSign Stub.walletDir
           Session.config StubNode.fresh Hr).
Defined.

(* ===================================================================== *)
(** * The peer table                                                      *)
(* ===================================================================== *)

Section OMapTable.
Context {V : Type}.
Implicit Types (m : omap V) (k : string) (v : V).

Lemma okeys_oset k v m :
  okeys (oset k v m) = if ohas k m then okeys m else (okeys m ++ [k])%list.
Proof.
  unfold ohas, okeys. induction m as [|[k' v'] rest IH]; cbn; [reflexivity |].
  destruct (decide (k = k')) as [->|Hne]; cbn; [reflexivity |].
  rewrite IH. now destruct (oget k rest).
Qed.

Lemma length_oset k v m :
  length (oset k v m) = if ohas k m then length m else S (length m).
Proof.
  pose proof (f_equal (@length string) (okeys_oset k v m)) as H.
  unfold okeys in H. rewrite List.length_map in H. rewrite H.
  destruct (ohas k m); rewrite ?length_app, List.length_map; cbn; lia.
Qed.

Lemma NoDup_okeys_oset k v m : NoDup (okeys m) -> NoDup (okeys (oset k v m)).
Proof.
  intros Hn. rewrite okeys_oset. destruct (ohas k m) eqn:E; [exact Hn |].
  apply NoDup_app. split_and!; [exact Hn | | apply NoDup_singleton].
  intros x Hx Hk. apply list_elem_of_singleton in Hk. subst x.
  apply list_elem_of_In in Hx.
  assert (oget k m = None) as Hnone
    by (unfold ohas in E; now destruct (oget k m)).
  now apply oget_None_keys in Hnone.
Qed.

Lemma In_oset k v m entry :
  In entry (oset k v m) -> entry = (k, v) \/ In entry m.
Proof.
  induction m as [|[k' v'] rest IH]; cbn.
  - intros [<-|[]]. now left.
  - destruct (decide (k = k')) as [->|Hne]; cbn.
    + intros [<-|H]; auto.
    + intros [<-|H]; auto. destruct (IH H); auto.
Qed.

Lemma In_odelete k m entry : In entry (odelete k m) -> In entry m.
Proof.
  induction m as [|[k' v'] rest IH]; cbn; [tauto |].
  destruct (decide (k = k')); cbn; [auto |]. intros [<-|H]; auto.
Qed.

Lemma okeys_odelete_incl k m x : In x (okeys (odelete k m)) -> In x (okeys m).
Proof.
  unfold okeys. rewrite !in_map_iff. intros (e & <- & He).
  exists e. split; [reflexivity |]. now apply In_odelete in He.
Qed.

Lemma NoDup_okeys_odelete k m : NoDup (okeys m) -> NoDup (okeys (odelete k m)).
Proof.
  induction m as [|[k' v'] rest IH]; cbn; [auto |].
  intros Hn. apply NoDup_cons in Hn as [Hk Hn].
  destruct (decide (k = k')); cbn; [exact Hn |].
  apply NoDup_cons. split; [|auto].
  intros Hin. apply Hk. apply list_elem_of_In.
  apply list_elem_of_In in Hin. now apply okeys_odelete_incl in Hin.
Qed.

Lemma oget_odelete_eq k m : NoDup (okeys m) -> oget k (odelete k m) = None.
Proof.
  induction m as [|[k' v'] rest IH]; cbn; [reflexivity |].
  intros Hn. apply NoDup_cons in Hn as [Hk Hn].
  destruct (decide (k = k')) as [->|Hne]; cbn.
  - apply oget_None_keys. intros Hin. apply Hk. now apply list_elem_of_In.
  - destruct (decide (k = k')); [contradiction | auto].
Qed.

Lemma oget_odelete_ne k k' m : k <> k' -> oget k' (odelete k m) = oget k' m.
Proof.
  intros Hne. induction m as [|[k0 v0] rest IH]; cbn; [reflexivity |].
  destruct (decide (k = k0)) as [->|Hk]; cbn.
  - destruct (decide (k' = k0)); congruence.
  - destruct (decide (k' = k0)); [reflexivity | exact IH].
Qed.

Lemma length_odelete k m v :
  oget k m = Some v -> S (length (odelete k m)) = length m.
Proof.
  induction m as [|[k' v'] rest IH]; cbn; [discriminate |].
  destruct (decide (k = k')); cbn; [reflexivity |]. intros H. now rewrite IH.
Qed.

Lemma oget_In k v m : oget k m = Some v -> In (k, v) m.
Proof.
  induction m as [|[k' v'] rest IH]; cbn; [discriminate |].
  destruct (decide (k = k')) as [->|]; [intros [= ->]; now left | auto].
Qed.

Lemma In_oget k v m : NoDup (okeys m) -> In (k, v) m -> oget k m = Some v.
Proof.
  induction m as [|[k' v'] rest IH]; cbn; [tauto |].
  intros Hn. apply NoDup_cons in Hn as [Hk Hn].
  destruct (decide (k = k')) as [->|Hne].
  - intros [[= ->]|Hin]; [reflexivity |]. exfalso. apply Hk.
    apply list_elem_of_In. unfold okeys. apply in_map_iff. now exists (k', v).
  - intros [[= -> ->]|Hin]; [contradiction | auto].
Qed.

End OMapTable.

Lemma keyed_by_id_oset (peers : omap (P2P.WebSocket * P2P.Peer))
  (socket : P2P.WebSocket) (peer : P2P.Peer) :
  Network.keyed_by_id peers ->
  Network.keyed_by_id (oset (P2P.id peer) (socket, peer) peers).
Proof.
  intros [Hf Hn]. split; [|now apply NoDup_okeys_oset].
  apply List.Forall_forall. intros entry He.
  destruct (In_oset _ _ _ _ He) as [->|Hin]; [reflexivity |].
  rewrite List.Forall_forall in Hf. auto.
Qed.

Lemma keyed_by_id_odelete (peers : omap (P2P.WebSocket * P2P.Peer)) (k : string) :
  Network.keyed_by_id peers -> Network.keyed_by_id (odelete k peers).
Proof.
  intros [Hf Hn]. split; [|now apply NoDup_okeys_odelete].
  rewrite List.Forall_forall in *. intros entry He.
  apply Hf. now apply In_odelete in He.
Qed.

Lemma peers_broadcast message svc :
  P2P.peers (Network.broadcast message svc) = P2P.peers svc
  /\ P2P.nodeId (Network.broadcast message svc) = P2P.nodeId svc
  /\ P2P.config (Network.broadcast message svc) = P2P.config svc
  /\ P2P.closed (Network.broadcast message svc) = P2P.closed svc
  /\ P2P.emitted (Network.broadcast message svc) = P2P.emitted svc
  /\ P2P.sent (Network.broadcast message svc)
     = (P2P.sent svc
        ++ map (fun entry => (fst entry, message)) (ovalues (P2P.peers svc)))%list.
Proof.
  unfold Network.broadcast.
  generalize (ovalues (P2P.peers svc)) as entries.
  intros entries.
  enough (H : forall svc0,
             let svc' := fold_left
                           (fun svc entry => P2P.sendMessage (fst entry) message svc)
                           entries svc0 in
             P2P.peers svc' = P2P.peers svc0
             /\ P2P.nodeId svc' = P2P.nodeId svc0
             /\ P2P.config svc' = P2P.config svc0
             /\ P2P.closed svc' = P2P.closed svc0
             /\ P2P.emitted svc' = P2P.emitted svc0
             /\ P2P.sent svc'
                = (P2P.sent svc0
                   ++ map (fun entry => (fst entry, message)) entries)%list)
    by apply H.
  induction entries as [|entry entries IH]; intros svc0; cbn.
  - split_and!; try reflexivity. now rewrite app_nil_r.
  - destruct (IH (P2P.sendMessage (fst entry) message svc0))
      as (H1 & H2 & H3 & H4 & H5 & H6).
    cbn in IH. rewrite H1, H2, H3, H4, H5, H6. cbn.
    split_and!; try reflexivity. now rewrite <- app_assoc.
Qed.

Lemma stop_effect now svc :
  P2P.peers (Network.stop now svc) = []
  /\ P2P.nodeId (Network.stop now svc) = P2P.nodeId svc
  /\ P2P.config (Network.stop now svc) = P2P.config svc
  /\ P2P.emitted (Network.stop now svc) = P2P.emitted svc
  /\ P2P.closed (Network.stop now svc)
     = (P2P.closed svc ++ map fst (ovalues (P2P.peers svc)))%list
  /\ P2P.sent (Network.stop now svc)
     = (P2P.sent svc
        ++ map (fun entry =>
                  (fst entry,
                   P2P.mkP2PMessage P2P.DISCONNECT
                     (P2P.DisconnectData "Node shutting down")
                     (P2P.nodeId svc) now))
               (ovalues (P2P.peers svc)))%list.
Proof.
  unfold Network.stop. cbv zeta.
  generalize (ovalues (P2P.peers svc)) as entries. intros entries.
  set (step := fun (svc : P2P.P2PService) (entry : P2P.WebSocket * P2P.Peer) =>
                 P2P.close (fst entry)
                   (P2P.sendMessage (fst entry)
                      (P2P.mkP2PMessage P2P.DISCONNECT
                         (P2P.DisconnectData "Node shutting down")
                         (P2P.nodeId svc) now) svc)).
  enough (H : forall svc0,
             P2P.nodeId (fold_left step entries svc0) = P2P.nodeId svc0
             /\ P2P.config (fold_left step entries svc0) = P2P.config svc0
             /\ P2P.emitted (fold_left step entries svc0) = P2P.emitted svc0
             /\ P2P.closed (fold_left step entries svc0)
                = (P2P.closed svc0 ++ map fst entries)%list
             /\ P2P.sent (fold_left step entries svc0)
                = (P2P.sent svc0
                   ++ map (fun entry =>
                             (fst entry,
                              P2P.mkP2PMessage P2P.DISCONNECT
                                (P2P.DisconnectData "Node shutting down")
                                (P2P.nodeId svc0) now)) entries)%list).
  { destruct (H svc) as (H2 & H3 & H5 & H4 & H6). cbn.
    split_and!; try reflexivity; assumption. }
  induction entries as [|entry entries IH]; intros svc0; cbn [fold_left map].
  - split_and!; try reflexivity; now rewrite app_nil_r.
  - destruct (IH (step svc0 entry)) as (H2 & H3 & H5 & H4 & H6).
    rewrite H2, H3, H5, H4, H6. cbn.
    split_and!; try reflexivity; now rewrite <- app_assoc.
Qed.

Lemma network_reachable_invariant (nodeId : string) (config : P2P.NodeConfig)
  (svc : P2P.P2PService) :
  Network.reachable nodeId config svc ->
  Network.keyed_by_id (P2P.peers svc)
  /\ P2P.nodeId svc = nodeId /\ P2P.config svc = config.
Proof.
  induction 1 as [|svc now socket nodeId' version port networkId _ (IH & Hi & Hc)
                  |svc socket _ (IH & Hi & Hc)
                  |svc socket message _ (IH & Hi & Hc)
                  |svc now socket _ (IH & Hi & Hc)
                  |svc message _ (IH & Hi & Hc)
                  |svc now _ (IH & Hi & Hc)].
  - split_and!; try reflexivity. split; constructor.
  - unfold P2P.handleHandshake.
    destruct (negb (bool_decide (networkId = P2P.networkId (P2P.config svc)))); cbn.
    + now split_and!.
    + split_and!; try assumption.
      match goal with
      | |- Network.keyed_by_id (oset _ (_, ?p) _) =>
          exact (keyed_by_id_oset (P2P.peers svc) socket p IH)
      end.
  - unfold P2P.handleDisconnect.
    destruct (P2P.find_socket socket (P2P.peers svc)) as [[peerId info]|]; cbn.
    + split_and!; try assumption. now apply keyed_by_id_odelete.
    + now split_and!.
  - unfold P2P.handlePeerDisconnect.
    destruct (oget (P2P.from message) (P2P.peers svc)) as [[s peer]|]; cbn.
    + split_and!; try assumption. now apply keyed_by_id_odelete.
    + now split_and!.
  - now split_and!.
  - destruct (peers_broadcast message svc) as (-> & -> & -> & _). now split_and!.
  - destruct (stop_effect now svc) as (-> & -> & -> & _).
    split_and!; try assumption. split; constructor.
Qed.

Lemma getPeers_keyed (peers : omap (P2P.WebSocket * P2P.Peer)) :
  Network.keyed_by_id peers ->
  map P2P.id (map snd (ovalues peers)) = okeys peers.
Proof.
  intros [Hf _]. unfold ovalues, okeys. rewrite !map_map.
  apply map_ext_in. intros entry He.
  rewrite List.Forall_forall in Hf. now apply Hf.
Qed.

Lemma getPeers_lookup (svc : P2P.P2PService) (peer : P2P.Peer) :
  Network.keyed_by_id (P2P.peers svc) ->
  In peer (P2P.getPeers svc) ->
  exists socket, oget (P2P.id peer) (P2P.peers svc) = Some (socket, peer).
Proof.
  intros [Hf Hn]. unfold P2P.getPeers, ovalues. rewrite map_map.
  intros Hin. apply in_map_iff in Hin as ([k [socket p]] & Hp & Hin).
  cbn in Hp. subst p. exists socket.
  rewrite List.Forall_forall in Hf. pose proof (Hf _ Hin) as Hk. cbn in Hk.
  rewrite Hk. now apply In_oget.
Qed.

(** X19: in every service that the handlers produce from the constructor,
    however many handshakes arrive under whatever ids, the peers that
    [getPeers] lists have distinct ids, each is stored under its own id,
    and whatever is stored under a key has that key as its id; the node id
    and the configuration are those of the constructor. *)
Theorem getPeers_distinct_ids (nodeId : string) (config : P2P.NodeConfig)
  (svc : P2P.P2PService) :
  Network.reachable nodeId config svc ->
  NoDup (map P2P.id (P2P.getPeers svc))
  /\ (forall peer,
         In peer (P2P.getPeers svc) ->
         exists socket, oget (P2P.id peer) (P2P.peers svc) = Some (socket, peer))
  /\ (forall k socket peer,
         oget k (P2P.peers svc) = Some (socket, peer) -> P2P.id peer = k)
  /\ P2P.nodeId svc = nodeId
  /\ P2P.config svc = config.
Proof.
  intros Hr. destruct (network_reachable_invariant _ _ _ Hr) as (Hk & Hi & Hc).
  split_and!; try assumption.
  - unfold P2P.getPeers. rewrite (getPeers_keyed _ Hk). apply Hk.
  - intros peer. now apply getPeers_lookup.
  - intros k socket peer Hg. apply oget_In in Hg.
    destruct Hk as [Hf _]. rewrite List.Forall_forall in Hf.
    exact (Hf _ Hg).
Qed.

Lemma reachable_two_peers :
  Network.reachable "aurum-18f" Session.config StubNetwork.two_peers.
Proof.
  apply Network.reachable_handleHandshake, Network.reachable_handleHandshake.
  apply Network.reachable_new.
Qed.

Lemma reachable_two_ids :
  Network.reachable "aurum-18f" Session.config StubNetwork.two_ids.
Proof.
  apply Network.reachable_handleHandshake, Network.reachable_handleHandshake.
  apply Network.reachable_new.
Qed.

Lemma getPeers_distinct_ids_witness :
  NoDup (map P2P.id (P2P.getPeers StubNetwork.two_peers))
  /\ (forall peer,
         In peer (P2P.getPeers StubNetwork.two_peers) ->
         exists socket,
           oget (P2P.id peer) (P2P.peers StubNetwork.two_peers)
           = Some (socket, peer))
  /\ (forall k socket peer,
         oget k (P2P.peers StubNetwork.two_peers) = Some (socket, peer) ->
         P2P.id peer = k)
  /\ P2P.nodeId StubNetwork.two_peers = "aurum-18f"
  /\ P2P.config StubNetwork.two_peers = Session.config.
Proof.
  exact (getPeers_distinct_ids "aurum-18f" Session.config StubNetwork.two_peers
           reachable_two_peers).
Defined.

(** X20: a [DISCONNECT] message evicts the peer that its [from] field
    names, on whichever socket it arrives: that peer is no longer listed
    and its disconnection is announced, every other peer stays, and the
    socket that is closed is the one the message came on, which need not
    be the socket of the evicted peer. *)
Theorem handlePeerDisconnect_evicts_named_peer (nodeId : string)
  (config : P2P.NodeConfig) (svc : P2P.P2PService) (socket : P2P.WebSocket)
  (message : P2P.P2PMessage) (peerSocket : P2P.WebSocket) (peer : P2P.Peer) :
  Network.reachable nodeId config svc ->
  oget (P2P.from message) (P2P.peers svc) = Some (peerSocket, peer) ->
  let svc' := P2P.handlePeerDisconnect socket message svc in
  oget (P2P.from message) (P2P.peers svc') = None
  /\ ~ In peer (P2P.getPeers svc')
  /\ (forall k, k <> P2P.from message ->
                oget k (P2P.peers svc') = oget k (P2P.peers svc))
  /\ P2P.emitted svc' = (P2P.emitted svc ++ [P2P.peer_disconnected peer])%list
  /\ P2P.closed svc' = (P2P.closed svc ++ [socket])%list
  /\ P2P.sent svc' = P2P.sent svc.
Proof.
  intros Hr Hg svc'.
  destruct (network_reachable_invariant _ _ _ Hr) as (Hk & _).
  destruct (network_reachable_invariant _ _ _
              (Network.reachable_handlePeerDisconnect _ _ _ socket message Hr))
    as (Hk' & _).
  fold svc' in Hk'.
  assert (Hp : P2P.peers svc' = odelete (P2P.from message) (P2P.peers svc)).
  { subst svc'. unfold P2P.handlePeerDisconnect. now rewrite Hg. }
  assert (Hnone : oget (P2P.from message) (P2P.peers svc') = None).
  { rewrite Hp. apply oget_odelete_eq, Hk. }
  split_and!.
  - exact Hnone.
  - intros Hin. destruct (getPeers_lookup _ _ Hk' Hin) as [s Hs].
    assert (P2P.id peer = P2P.from message) as Hid.
    { apply oget_In in Hg. destruct Hk as [Hf _].
      rewrite List.Forall_forall in Hf. exact (Hf _ Hg). }
    rewrite Hid, Hnone in Hs. discriminate.
  - intros k Hne. rewrite Hp. apply oget_odelete_ne. congruence.
  - subst svc'. unfold P2P.handlePeerDisconnect. now rewrite Hg.
  - subst svc'. unfold P2P.handlePeerDisconnect. now rewrite Hg.
  - subst svc'. unfold P2P.handlePeerDisconnect. now rewrite Hg.
Qed.

Lemma handlePeerDisconnect_evicts_named_peer_witness :
  let svc' := P2P.handlePeerDisconnect StubNetwork.socket2 StubNetwork.goodbye
                StubNetwork.two_peers in
  oget (P2P.from StubNetwork.goodbye) (P2P.peers svc') = None
  /\ ~ In StubNetwork.peer_a (P2P.getPeers svc')
  /\ (forall k, k <> P2P.from StubNetwork.goodbye ->
                oget k (P2P.peers svc') = oget k (P2P.peers StubNetwork.two_peers))
  /\ P2P.emitted svc'
     = (P2P.emitted StubNetwork.two_peers
        ++ [P2P.peer_disconnected StubNetwork.peer_a])%list
  /\ P2P.closed svc' = (P2P.closed StubNetwork.two_peers ++ [StubNetwork.socket2])%list
  /\ P2P.sent svc' = P2P.sent StubNetwork.two_peers.
Proof.
  assert (Hg : oget (P2P.from StubNetwork.goodbye) (P2P.peers StubNetwork.two_peers)
               = Some (Session.socket, StubNetwork.peer_a)) by by_evaluation.
  exact (handlePeerDisconnect_evicts_named_peer "aurum-18f" Session.config
           StubNetwork.two_peers StubNetwork.socket2 StubNetwork.goodbye
           Session.socket StubNetwork.peer_a reachable_two_peers Hg).
Defined.

Lemma find_socket_oget (peers : omap (P2P.WebSocket * P2P.Peer))
  (socket : P2P.WebSocket) (peerId : string) (info : P2P.Peer) :
  NoDup (okeys peers) ->
  P2P.find_socket socket peers = Some (peerId, info) ->
  oget peerId peers = Some (socket, info).
Proof.
  intros Hn Hf. apply In_oget; [exact Hn |].
  induction peers as [|[k [s p]] rest IH]; cbn in *; [discriminate |].
  apply NoDup_cons in Hn as [_ Hn].
  destruct (bool_decide (s = socket)) eqn:E.
  - apply bool_decide_eq_true in E. injection Hf as <- <-. subst s. now left.
  - right. auto.
Qed.

(** X21: the close of a socket removes one entry of the peer table, the
    first that holds the socket, and announces that peer; every other
    entry stays, also an entry that the same socket has registered under
    another id.  If no entry holds the socket, nothing changes.  Nothing
    is sent or closed. *)
Theorem handleDisconnect_removes_one_entry (nodeId : string)
  (config : P2P.NodeConfig) (svc : P2P.P2PService) (socket : P2P.WebSocket) :
  Network.reachable nodeId config svc ->
  let svc' := P2P.handleDisconnect socket svc in
  (forall peerId info,
      P2P.find_socket socket (P2P.peers svc) = Some (peerId, info) ->
      oget peerId (P2P.peers svc) = Some (socket, info)
      /\ oget peerId (P2P.peers svc') = None
      /\ (forall k, k <> peerId ->
                    oget k (P2P.peers svc') = oget k (P2P.peers svc))
      /\ S (length (P2P.getPeers svc')) = length (P2P.getPeers svc)
      /\ P2P.emitted svc' = (P2P.emitted svc ++ [P2P.peer_disconnected info])%list)
  /\ (P2P.find_socket socket (P2P.peers svc) = None -> svc' = svc)
  /\ P2P.closed svc' = P2P.closed svc
  /\ P2P.sent svc' = P2P.sent svc.
Proof.
  intros Hr svc'. subst svc'.
  destruct (network_reachable_invariant _ _ _ Hr) as ([_ Hn] & _).
  unfold P2P.handleDisconnect. split_and!.
  - intros peerId info Hf. rewrite Hf. cbn.
    pose proof (find_socket_oget _ _ _ _ Hn Hf) as Hg.
    split_and!; try reflexivity.
    + exact Hg.
    + now apply oget_odelete_eq.
    + intros k Hne. apply oget_odelete_ne. congruence.
    + unfold P2P.getPeers, ovalues. cbn. rewrite !List.length_map.
      exact (length_odelete _ _ _ Hg).
  - now intros ->.
  - now destruct (P2P.find_socket socket (P2P.peers svc)) as [[? ?]|].
  - now destruct (P2P.find_socket socket (P2P.peers svc)) as [[? ?]|].
Qed.

Lemma handleDisconnect_removes_one_entry_witness :
  let svc' := P2P.handleDisconnect Session.socket StubNetwork.two_ids in
  (oget "peer-a" (P2P.peers StubNetwork.two_ids)
   = Some (Session.socket, StubNetwork.peer_a)
   /\ oget "peer-a" (P2P.peers svc') = None
   /\ (forall k, k <> "peer-a" ->
                 oget k (P2P.peers svc') = oget k (P2P.peers StubNetwork.two_ids))
   /\ S (length (P2P.getPeers svc')) = length (P2P.getPeers StubNetwork.two_ids)
   /\ P2P.emitted svc'
      = (P2P.emitted StubNetwork.two_ids
         ++ [P2P.peer_disconnected StubNetwork.peer_a])%list)
  /\ P2P.find_socket Session.socket (P2P.peers svc')
     = Some ("peer-b",
             P2P.mkPeer "peer-b" "unknown" 30304 Scenario.t0 "0.1.0" []).
Proof.
  intros svc'.
  assert (Hf : P2P.find_socket Session.socket (P2P.peers StubNetwork.two_ids)
               = Some ("peer-a", StubNetwork.peer_a)) by by_evaluation.
  split.
  - exact (proj1 (handleDisconnect_removes_one_entry "aurum-18f" Session.config
                    StubNetwork.two_ids Session.socket reachable_two_ids)
             "peer-a" StubNetwork.peer_a Hf).
  - by_evaluation.
Defined.

(** X22: a handshake with the node's network id is stored whatever the
    size of the peer table, [maxPeers] not being consulted: under an id
    that is not listed the table grows by one; under an id that is listed
    the entry of that id is replaced, socket and all, and the table keeps
    its size.  Every other entry stays. *)
Theorem handleHandshake_adds_or_replaces (now : Z) (socket : P2P.WebSocket)
  (nodeId version : string) (port : Z) (networkId : string)
  (svc : P2P.P2PService) :
  networkId = P2P.networkId (P2P.config svc) ->
  let svc' := P2P.handleHandshake now socket nodeId version port networkId svc in
  (oget nodeId (P2P.peers svc) = None ->
   length (P2P.getPeers svc') = S (length (P2P.getPeers svc)))
  /\ (forall oldSocket old,
         oget nodeId (P2P.peers svc) = Some (oldSocket, old) ->
         length (P2P.getPeers svc') = length (P2P.getPeers svc)
         /\ exists peer, oget nodeId (P2P.peers svc') = Some (socket, peer))
  /\ (forall k, k <> nodeId -> oget k (P2P.peers svc') = oget k (P2P.peers svc)).
Proof.
  intros Hnet svc'. subst svc'. unfold P2P.handleHandshake.
  rewrite (bool_decide_eq_true_2 _ Hnet). cbn [negb].
  unfold P2P.getPeers, ovalues. cbn. rewrite !List.length_map, length_oset.
  unfold ohas. split_and!.
  - now intros ->.
  - intros oldSocket old ->. split; [reflexivity |].
    eexists. apply oget_oset_eq.
  - intros k Hne. apply oget_oset_ne. congruence.
Qed.

Lemma handleHandshake_adds_or_replaces_witness :
  length (P2P.getPeers StubNetwork.two_peers)
  = S (length (P2P.getPeers StubNetwork.one_peer))
  /\ (forall k, k <> "peer-b" ->
                oget k (P2P.peers StubNetwork.two_peers)
                = oget k (P2P.peers StubNetwork.one_peer)).
Proof.
  assert (Hnet : "aurum-mainnet" = P2P.networkId (P2P.config StubNetwork.one_peer))
    by by_evaluation.
  assert (Hnone : oget "peer-b" (P2P.peers StubNetwork.one_peer) = None)
    by by_evaluation.
  destruct (handleHandshake_adds_or_replaces Scenario.t0 StubNetwork.socket2
              "peer-b" "0.1.0" 30304 "aurum-mainnet" StubNetwork.one_peer Hnet)
    as (Hadd & _ & Hother).
  split; [exact (Hadd Hnone) | exact Hother].
Defined.

(** X23: [broadcast] writes the message once to the socket of every entry
    of the peer table, in the order of the table, and changes nothing
    else; [stop] writes a [DISCONNECT] with the reason "Node shutting
    down" to the socket of every entry and closes it, in the order of the
    table, and leaves the table empty, without announcing any peer as
    disconnected. *)
Theorem broadcast_and_stop (now : Z) (message : P2P.P2PMessage)
  (svc : P2P.P2PService) :
  (P2P.peers (Network.broadcast message svc) = P2P.peers svc
   /\ P2P.closed (Network.broadcast message svc) = P2P.closed svc
   /\ P2P.emitted (Network.broadcast message svc) = P2P.emitted svc
   /\ P2P.sent (Network.broadcast message svc)
      = (P2P.sent svc
         ++ map (fun entry => (fst entry, message)) (ovalues (P2P.peers svc)))%list)
  /\ (P2P.getPeers (Network.stop now svc) = []
      /\ P2P.emitted (Network.stop now svc) = P2P.emitted svc
      /\ P2P.closed (Network.stop now svc)
         = (P2P.closed svc ++ map fst (ovalues (P2P.peers svc)))%list
      /\ P2P.sent (Network.stop now svc)
         = (P2P.sent svc
            ++ map (fun entry =>
                      (fst entry,
                       P2P.mkP2PMessage P2P.DISCONNECT
                         (P2P.DisconnectData "Node shutting down")
                         (P2P.nodeId svc) now))
                   (ovalues (P2P.peers svc)))%list).
Proof.
  destruct (peers_broadcast message svc) as (H1 & _ & _ & H4 & H5 & H6).
  destruct (stop_effect now svc) as (S1 & _ & _ & S4 & S5 & S6).
  split; [now split_and! |].
  split_and!; try assumption.
  unfold P2P.getPeers. now rewrite S1.
Qed.

(* ===================================================================== *)
(** * Wallet files                                                        *)
(* ===================================================================== *)

Section WalletStoreFacts.

Variable scrypt : string -> list Z -> nat -> Z -> Z -> Z -> result (list Z).
Variable aes256 : list Z -> list Z -> list Z.
Variable publicKeyCreate : list Z -> result (list Z).
Variable ripemd160 : list Z -> list Z.

Hypothesis aes256_block :
  forall key block, length (aes256 key block) = 16%nat
                    /\ is_bytes (aes256 key block).
Hypothesis scrypt_derives :
  forall password salt,
    exists key, scrypt password salt 32 16384 8 1 = Ok key
                /\ length key = 32%nat.
Hypothesis ripemd160_digest :
  forall bytes, length (ripemd160 bytes) = 20%nat.

(** X24: an imported wallet can be loaded again.  With [salt] and [iv] as
    [randomBytes] gives them, for a private key of which the curve has a
    public key, [importWallet] returns a wallet whose address is "aur1"
    followed by 40 hexadecimal digits and writes its file, every other
    file of the directory being as before; [loadWallet] for that address
    with the same password then returns the same address, public key and
    creation time, the private key in lower-case hexadecimal digits, and
    the name (the first 8 characters of the address if the name is
    empty). *)
Theorem importWallet_loadWallet (now : Z) (salt iv : list Z)
  (privateKey name password : string) (publicKey : list Z)
  (walletDir : gmap string Wallet.WalletFile) :
  is_bytes salt -> is_bytes iv -> length iv = 16%nat ->
  publicKeyCreate (Keys.bytes_of_hex privateKey) = Ok publicKey ->
  exists wallet walletDir',
    WalletStore.importWallet scrypt aes256 publicKeyCreate ripemd160
      now salt iv privateKey name password walletDir
    = Ok (wallet, walletDir')
    /\ wallet
       = Wallet.mkWallet
           (WalletStore.deriveAddress ripemd160 (hex_of_bytes publicKey))
           (hex_of_bytes publicKey) privateKey (Some name) now
    /\ String.length (Wallet.address wallet) = 44%nat
    /\ String.substring 0 4 (Wallet.address wallet) = "aur1"
    /\ (forall address, address <> Wallet.address wallet ->
                        walletDir' !! address = walletDir !! address)
    /\ Wallet.loadWallet scrypt aes256 walletDir' (Wallet.address wallet) password
       = Ok (Wallet.mkWallet (Wallet.address wallet) (Wallet.publicKey wallet)
               (hex_of_bytes (Keys.bytes_of_hex privateKey))
               (Some (WalletStore.name_or_prefix wallet)) now).
Proof.
  intros Hsalt Hiv Hlen Hpk.
  destruct (keystore_entry scrypt aes256 aes256_block scrypt_derives
              salt iv privateKey password Hsalt Hiv Hlen)
    as (encrypted & options & Henc & Hdec & _).
  unfold WalletStore.importWallet, WalletStore.derivePublicKey,
    WalletStore.saveWallet.
  rewrite Hpk. cbn. rewrite Henc. cbn.
  eexists _, _. split; [reflexivity |]. split; [reflexivity |].
  cbn [Wallet.address Wallet.publicKey].
  split_and!.
  - unfold WalletStore.deriveAddress.
    cbv beta iota zeta delta [append]. cbn [String.length].
    rewrite length_hex_of_bytes, ripemd160_digest. reflexivity.
  - unfold WalletStore.deriveAddress.
    cbv beta iota zeta delta [append].
    now destruct (hex_of_bytes (ripemd160 _)).
  - intros address Hne. now rewrite lookup_insert_ne.
  - unfold Wallet.loadWallet. rewrite lookup_insert_eq. cbn.
    rewrite Hdec. reflexivity.
Qed.

End WalletStoreFacts.

Lemma importWallet_loadWallet_witness :
  exists wallet walletDir',
    WalletStore.importWallet Stub.scrypt Stub.aes256 StubKeys.publicKeyCreate
      StubKeys.ripemd160 Scenario.t0 Stub.salt Stub.iv Stub.privateKey
      "savings" Stub.password Stub.walletDir
    = Ok (wallet, walletDir')
    /\ wallet
       = Wallet.mkWallet
           (WalletStore.deriveAddress StubKeys.ripemd160 (hex_of_bytes [2; 170]))
           (hex_of_bytes [2; 170]) Stub.privateKey (Some "savings") Scenario.t0
    /\ String.length (Wallet.address wallet) = 44%nat
    /\ String.substring 0 4 (Wallet.address wallet) = "aur1"
    /\ (forall address, address <> Wallet.address wallet ->
                        walletDir' !! address = Stub.walletDir !! address)
    /\ Wallet.loadWallet Stub.scrypt Stub.aes256 walletDir'
         (Wallet.address wallet) Stub.password
       = Ok (Wallet.mkWallet (Wallet.address wallet) (Wallet.publicKey wallet)
               (hex_of_bytes (Keys.bytes_of_hex Stub.privateKey))
               (Some (WalletStore.name_or_prefix wallet)) Scenario.t0).
Proof.
  assert (Hsalt : is_bytes Stub.salt)
    by (apply List.Forall_forall; intros b Hb; apply repeat_spec in Hb; subst b; lia).
  assert (Hiv : is_bytes Stub.iv)
    by (apply List.Forall_forall; intros b Hb; apply repeat_spec in Hb; subst b; lia).
  assert (Hlen : length Stub.iv = 16%nat) by reflexivity.
  assert (Hpk : StubKeys.publicKeyCreate (Keys.bytes_of_hex Stub.privateKey)
                = Ok [2; 170]) by by_evaluation.
  assert (Hrip : forall bytes, length (StubKeys.ripemd160 bytes) = 20%nat)
    by (intros bytes; reflexivity).
  exact (importWallet_loadWallet Stub.scrypt Stub.aes256 StubKeys.publicKeyCreate
           StubKeys.ripemd160 stub_aes256_block stub_scrypt_derives Hrip
           Scenario.t0 Stub.salt Stub.iv Stub.privateKey "savings" Stub.password
           [2; 170] Stub.walletDir Hsalt Hiv Hlen Hpk).
Defined.

(* ===================================================================== *)
(** * Sequence numbers                                                    *)
(* ===================================================================== *)

Lemma sequenceOf_getOrCreateAccount a b st :
  sequenceOf (getOrCreateAccount b st) a = sequenceOf st a.
Proof.
  unfold sequenceOf. rewrite lookup_getOrCreateAccount.
  destruct (decide (b = a)) as [->|]; [|reflexivity].
  unfold account_or_new. now destruct (accounts st !! a).
Qed.

Lemma sequenceOf_update_account a b f d st :
  (forall x, acc_nonce (f x) = acc_nonce x + d) ->
  is_Some (accounts st !! b) ->
  sequenceOf (update_account b f st) a
  = sequenceOf st a + (if decide (b = a) then d else 0).
Proof.
  intros Hf [x Hx]. unfold sequenceOf. rewrite lookup_update_account.
  destruct (decide (b = a)) as [<-|]; [|lia].
  rewrite Hx. cbn. apply Hf.
Qed.

(** One assignment to a field of the account of [b] adds [d] to the
    sequence number of [b]. *)
Ltac assignment_raises d :=
  rewrite (sequenceOf_update_account _ _ _ d);
  [ | intros; cbn; lia | auto 10 with accounts ].

Lemma sequenceOf_processTransaction now tx st st' a :
  processTransaction now tx st = Ok st' ->
  sequenceOf st' a = sequenceOf st a + sent_by a tx.
Proof.
  unfold processTransaction, sent_by.
  destruct (tx_type tx).
  - intros [= <-]. unfold processRegularTransaction. cbn zeta.
    assignment_raises 1. assignment_raises 0. assignment_raises 0.
    rewrite !sequenceOf_getOrCreateAccount.
    repeat destruct (decide _); lia.
  - intros [= <-]. unfold processRewardTransaction. cbn zeta.
    assignment_raises 0. rewrite !sequenceOf_getOrCreateAccount.
    destruct (decide _); lia.
  - unfold processStakeTransaction. cbn zeta.
    destruct (registerValidator _ _ _ _) as [[b st1]|] eqn:E; cbn; [|discriminate].
    intros [= <-]. unfold sequenceOf at 1.
    rewrite (accounts_registerValidator _ _ _ _ _ _ E).
    match goal with
    | |- match accounts ?s !! a with _ => _ end = _ =>
        change (match accounts s !! a with
                | Some account => acc_nonce account
                | None => 0
                end) with (sequenceOf s a)
    end.
    assignment_raises 1. assignment_raises 0. assignment_raises 0.
    rewrite !sequenceOf_getOrCreateAccount.
    repeat destruct (decide _); lia.
  - intros [= <-]. unfold processUnstakeTransaction. cbn zeta.
    match goal with
    | |- sequenceOf (if ?c then update_validator ?b ?f ?s else ?s) a = _ =>
        assert (Hs : sequenceOf (if c then update_validator b f s else s) a
                     = sequenceOf s a)
          by (destruct c; [unfold sequenceOf; now rewrite accounts_update_validator
                          | reflexivity]);
        rewrite Hs; clear Hs
    end.
    assignment_raises 1. assignment_raises 0. assignment_raises 0.
    assignment_raises 0.
    rewrite !sequenceOf_getOrCreateAccount.
    repeat destruct (decide _); lia.
  - intros [= <-]. lia.
  - intros [= <-]. lia.
Qed.

Lemma sequenceOf_processTransactions now txs st st' a :
  processTransactions now txs st = Ok st' ->
  sequenceOf st' a = sequenceOf st a + sentBy a txs.
Proof.
  revert st. induction txs as [|tx txs IH]; intros st.
  - intros [= <-]. cbn. lia.
  - change (sentBy a (tx :: txs)) with (sent_by a tx + sentBy a txs).
    cbn [processTransactions].
    destruct (processTransaction now tx st) as [st1|] eqn:E; cbn; [|discriminate].
    intros H. rewrite (IH _ H), (sequenceOf_processTransaction _ _ _ _ _ E). lia.
Qed.

Lemma sentBy_nonnegative a txs : 0 <= sentBy a txs.
Proof.
  induction txs as [|tx txs IH]; [cbn; lia |].
  change (sentBy a (tx :: txs)) with (sent_by a tx + sentBy a txs).
  assert (0 <= sent_by a tx)
    by (unfold sent_by; destruct (tx_type tx); try destruct (decide _); lia).
  lia.
Qed.

Lemma addBlock_sequenceOf now block st st' address :
  addBlock now block st = Ok (true, st') ->
  sequenceOf st' address
  = sequenceOf st address + sentBy address (transactions block).
Proof.
  intros H.
  destruct (addBlock_accepted_shape now block st st' H) as (st2 & Hp & ->).
  apply (sequenceOf_processTransactions _ _ _ _ address) in Hp.
  assert (Hs : sequenceOf
                 (emit (blockAdded block)
                    (if ohas (validator (header block)) (validators st2)
                     then update_validator (validator (header block))
                            (fun v => set_totalBlocksValidated
                                        (totalBlocksValidated v + 1)
                                        (set_lastBlockValidated
                                           (index (header block)) v)) st2
                     else st2)) address
               = sequenceOf st2 address).
  { unfold sequenceOf. cbn [accounts emit].
    destruct (ohas _ _); now rewrite ?accounts_update_validator. }
  assert (Hw : forall pool blocks,
             sequenceOf (with_pendingTransactions pool (with_chain blocks st)) address
             = sequenceOf st address) by reflexivity.
  rewrite Hw in Hp. now rewrite Hs, Hp.
Qed.

Lemma sent_by_sender address tx :
  sent_by address tx = 1 ->
  tx_from tx = address /\ isNetworkReward tx = false.
Proof.
  unfold sent_by. intros H. split.
  - destruct (tx_type tx); try discriminate; destruct (decide _); congruence.
  - destruct (isNetworkReward tx) eqn:E; [|reflexivity].
    apply isNetworkReward_spec in E as [E _]. rewrite E in H. discriminate.
Qed.

Lemma addBlock_accepted_nonce now block st st' address tx :
  addBlock now block st = Ok (true, st') ->
  In tx (transactions block) -> sent_by address tx = 1 ->
  tx_nonce tx = sequenceOf st address.
Proof.
  intros H Hin Hsent.
  pose proof (addBlock_accepted_valid _ _ _ _ H) as Hv.
  apply isValidBlock_transactions in Hv. rewrite forallb_forall in Hv.
  destruct (sent_by_sender _ _ Hsent) as [<- Hr].
  destruct (isValidTransaction_nonce st tx Hr (Hv tx Hin)) as (sender & Hacc & Hn).
  unfold sequenceOf. now rewrite Hacc.
Qed.

(** X26: the sequence number of every address after an accepted block is
    its sequence number before the block plus the number of transfers,
    stakes and unstakes of the block that the address has sent; rewards
    raise no sequence number.  So sequence numbers never go down; and as
    each of those transactions was valid with the sequence number of
    before the block, a sender of [k] of them has them all under one
    number and is [k] numbers on afterwards. *)
Theorem addBlock_sequence_numbers (now : Z) (block : Block)
  (st st' : Blockchain) (address : string) :
  addBlock now block st = Ok (true, st') ->
  sequenceOf st' address = sequenceOf st address + sentBy address (transactions block)
  /\ sequenceOf st address <= sequenceOf st' address
  /\ forall tx,
       In tx (transactions block) -> sent_by address tx = 1 ->
       tx_nonce tx = sequenceOf st address.
Proof.
  intros H.
  pose proof (addBlock_sequenceOf _ _ _ _ address H) as Hs.
  pose proof (sentBy_nonnegative address (transactions block)).
  split_and!; try lia.
  intros tx. exact (addBlock_accepted_nonce _ _ _ _ address tx H).
Qed.

Lemma addBlock_sequence_numbers_witness :
  let blk := Scenario.next_block Scenario.s2
               [Scenario.pay_bob; Scenario.self_transfer] in
  let st' := Scenario.state_of (addBlock Scenario.t0 blk Scenario.s2) in
  sequenceOf st' "aur1alice"
  = sequenceOf Scenario.s2 "aur1alice" + sentBy "aur1alice" (transactions blk)
  /\ sequenceOf Scenario.s2 "aur1alice" <= sequenceOf st' "aur1alice"
  /\ forall tx,
       In tx (transactions blk) -> sent_by "aur1alice" tx = 1 ->
       tx_nonce tx = sequenceOf Scenario.s2 "aur1alice".
Proof.
  intros blk st'.
  assert (H : addBlock Scenario.t0 blk Scenario.s2 = Ok (true, st'))
    by by_evaluation.
  exact (addBlock_sequence_numbers Scenario.t0 blk Scenario.s2 st' "aur1alice" H).
Defined.

(* ===================================================================== *)
(** * Replay                                                              *)
(* ===================================================================== *)

Lemma sentBy_In address tx txs :
  In tx txs -> sent_by address tx = 1 -> 1 <= sentBy address txs.
Proof.
  induction txs as [|t txs IH]; [intros [] |].
  change (sentBy address (t :: txs)) with (sent_by address t + sentBy address txs).
  pose proof (sentBy_nonnegative address txs).
  assert (0 <= sent_by address t)
    by (unfold sent_by; destruct (tx_type t); try destruct (decide _); lia).
  intros [->|Hin] Hs; [lia |]. specialize (IH Hin Hs). lia.
Qed.

Lemma addBlock_sequenceOf_le now block accepted st st' address :
  addBlock now block st = Ok (accepted, st') ->
  sequenceOf st address <= sequenceOf st' address.
Proof.
  intros H. destruct accepted.
  - rewrite (addBlock_sequenceOf _ _ _ _ address H).
    pose proof (sentBy_nonnegative address (transactions block)). lia.
  - rewrite (addBlock_rejected_same _ _ _ _ H). lia.
Qed.

Lemma evolves_sequenceOf (st st' : Blockchain) (address : string) :
  evolves st st' -> sequenceOf st address <= sequenceOf st' address.
Proof.
  induction 1 as [|st1 tx _ IH|st1 now block accepted st2 _ IH H
                  |st1 now a stake registered st2 _ IH H
                  |st1 now nonce validatorAddress signature _ IH].
  - lia.
  - unfold addTransaction. now destruct (negb _).
  - pose proof (addBlock_sequenceOf_le _ _ _ _ _ address H). lia.
  - unfold sequenceOf in *.
    now rewrite (accounts_registerValidator _ _ _ _ _ _ H).
  - unfold createBlock.
    destruct (getLatestBlock st1) as [p|]; [|exact IH]. cbv zeta.
    match goal with
    | |- context [addBlock ?n ?b ?s] =>
        destruct (addBlock n b s) as [[[|] st2]|] eqn:H
    end; cbn [snd]; [| |exact IH].
    + pose proof (addBlock_sequenceOf_le _ _ _ _ _ address H).
      unfold addValidatorReward, sequenceOf in *. cbn in *. lia.
    + pose proof (addBlock_sequenceOf_le _ _ _ _ _ address H). lia.
Qed.

(** X27: a confirmed transaction cannot be replayed.  Once a transfer, a
    stake or an unstake is in an accepted block, it is invalid in the
    ledger after that block and in every ledger that the methods of the
    class produce from it: [addTransaction] refuses it, and no block that
    holds it is accepted.  (A reward of the network is valid in every
    ledger.) *)
Theorem confirmed_transaction_is_not_replayed (now : Z) (block : Block)
  (st st' st'' : Blockchain) (tx : Transaction) :
  addBlock now block st = Ok (true, st') ->
  In tx (transactions block) ->
  sent_by (tx_from tx) tx = 1 ->
  evolves st' st'' ->
  isValidTransaction st'' tx = false
  /\ addTransaction st'' tx = (false, st'')
  /\ forall now' block' accepted st3,
       In tx (transactions block') ->
       addBlock now' block' st'' = Ok (accepted, st3) ->
       accepted = false /\ st3 = st''.
Proof.
  intros H Hin Hsent He.
  pose proof (addBlock_accepted_nonce _ _ _ _ _ _ H Hin Hsent) as Hn.
  pose proof (addBlock_sequenceOf _ _ _ _ (tx_from tx) H) as Hs.
  pose proof (sentBy_In _ _ _ Hin Hsent) as H1.
  pose proof (evolves_sequenceOf _ _ (tx_from tx) He) as Hle.
  destruct (sent_by_sender _ _ Hsent) as [_ Hr].
  assert (Hinv : isValidTransaction st'' tx = false).
  { destruct (isValidTransaction st'' tx) eqn:E; [exfalso | reflexivity].
    destruct (isValidTransaction_nonce st'' tx Hr E) as (sender & Hacc & Hn').
    unfold sequenceOf in Hle at 2. rewrite Hacc in Hle. lia. }
  split_and!.
  - exact Hinv.
  - unfold addTransaction. now rewrite Hinv.
  - intros now' block' accepted st3 Hin' H'.
    destruct accepted.
    + exfalso. apply addBlock_accepted_valid, isValidBlock_transactions in H'.
      rewrite forallb_forall in H'. specialize (H' tx Hin'). congruence.
    + split; [reflexivity |]. exact (addBlock_rejected_same _ _ _ _ H').
Qed.

Lemma confirmed_transaction_is_not_replayed_witness :
  isValidTransaction Scenario.s5 Scenario.pay_bob = false
  /\ addTransaction Scenario.s5 Scenario.pay_bob = (false, Scenario.s5)
  /\ forall now' block' accepted st3,
       In Scenario.pay_bob (transactions block') ->
       addBlock now' block' Scenario.s5 = Ok (accepted, st3) ->
       accepted = false /\ st3 = Scenario.s5.
Proof.
  assert (H : addBlock Scenario.t0
                (Scenario.next_block Scenario.s2 [Scenario.pay_bob]) Scenario.s2
              = Ok (true, Scenario.s5)) by by_evaluation.
  assert (Hin : In Scenario.pay_bob
                  (transactions (Scenario.next_block Scenario.s2 [Scenario.pay_bob])))
    by (left; reflexivity).
  assert (Hs : sent_by (tx_from Scenario.pay_bob) Scenario.pay_bob = 1)
    by by_evaluation.
  exact (confirmed_transaction_is_not_replayed Scenario.t0 _ Scenario.s2 Scenario.s5
           Scenario.s5 Scenario.pay_bob H Hin Hs (evolves_refl Scenario.s5)).
Defined.

(* ===================================================================== *)
(** * The chain parameters                                                *)
(* ===================================================================== *)

Section ChainParamsFacts.

Variable params : ChainParams.

Lemma getOrCreateAccount_with_chainParams a st :
  getOrCreateAccount a (with_chainParams params st)
  = with_chainParams params (getOrCreateAccount a st).
Proof. unfold getOrCreateAccount. cbn. now destruct (accounts st !! a). Qed.

Lemma update_account_with_chainParams a f st :
  update_account a f (with_chainParams params st)
  = with_chainParams params (update_account a f st).
Proof. reflexivity. Qed.

Lemma update_validator_with_chainParams a f st :
  update_validator a f (with_chainParams params st)
  = with_chainParams params (update_validator a f st).
Proof. unfold update_validator. cbn. now destruct (oget a (validators st)). Qed.

Lemma registerValidator_with_chainParams now a s st :
  minStake params = minStake (chainParams st) ->
  registerValidator now a s (with_chainParams params st)
  = result_with_chainParams params (registerValidator now a s st).
Proof.
  intros Hm. unfold registerValidator.
  change (chainParams (with_chainParams params st)) with params.
  change (validators (with_chainParams params st)) with (validators st).
  rewrite Hm. destruct (Number.ltb s (minStake (chainParams st))); [reflexivity |].
  destruct (ohas a (validators st)).
  - unfold update_validator. cbn. now destruct (oget a (validators st)).
  - unfold latestHeader, getLatestBlock. cbn. now destruct (last (chain st)).
Qed.

Ltac move_chainParams :=
  repeat first [ rewrite getOrCreateAccount_with_chainParams
               | rewrite update_account_with_chainParams
               | rewrite update_validator_with_chainParams ].

Lemma processTransaction_with_chainParams now tx st :
  minStake params = minStake (chainParams st) ->
  processTransaction now tx (with_chainParams params st)
  = match processTransaction now tx st with
    | Ok st' => Ok (with_chainParams params st')
    | Throw msg => Throw msg
    end.
Proof.
  intros Hm. unfold processTransaction. destruct (tx_type tx); try reflexivity.
  - unfold processRegularTransaction. cbv zeta. now move_chainParams.
  - unfold processRewardTransaction. cbv zeta. now move_chainParams.
  - unfold processStakeTransaction. cbv zeta. move_chainParams.
    rewrite registerValidator_with_chainParams.
    + destruct (registerValidator _ _ _ _) as [[b st1]|]; reflexivity.
    + cbn. now rewrite chainParams_getOrCreateAccount.
  - unfold processUnstakeTransaction. cbv zeta. move_chainParams.
    change (validators (with_chainParams params ?x)) with (validators x).
    change (chainParams (with_chainParams params ?x)) with params.
    cbn [chainParams update_account with_accounts].
    rewrite chainParams_getOrCreateAccount, Hm.
    now destruct (ohas _ _).
Qed.

Lemma processTransactions_with_chainParams now txs st :
  minStake params = minStake (chainParams st) ->
  processTransactions now txs (with_chainParams params st)
  = match processTransactions now txs st with
    | Ok st' => Ok (with_chainParams params st')
    | Throw msg => Throw msg
    end.
Proof.
  revert st. induction txs as [|tx txs IH]; intros st Hm; [reflexivity |].
  cbn [processTransactions].
  rewrite processTransaction_with_chainParams by exact Hm.
  destruct (processTransaction now tx st) as [st1|] eqn:E; cbn; [|reflexivity].
  apply IH.
  destruct (same_frame_processTransaction _ _ _ _ E) as (_ & _ & ->). exact Hm.
Qed.

Lemma isValidTransaction_with_chainParams st tx :
  minStake params = minStake (chainParams st) ->
  isValidTransaction (with_chainParams params st) tx = isValidTransaction st tx.
Proof.
  intros Hm. unfold isValidTransaction. cbn [accounts chainParams with_chainParams].
  now rewrite Hm.
Qed.

Lemma isValidBlock_with_chainParams st block :
  minStake params = minStake (chainParams st) ->
  isValidBlock (with_chainParams params st) block = isValidBlock st block.
Proof.
  intros Hm. unfold isValidBlock, getLatestBlock, verifyBlockSignature.
  cbn [chain validators with_chainParams].
  destruct (last (chain st)) as [p|]; [|reflexivity].
  repeat (destruct (negb _); [reflexivity |]).
  f_equal. induction (transactions block) as [|tx txs IH]; [reflexivity |].
  cbn [forallb]. now rewrite IH, isValidTransaction_with_chainParams.
Qed.

Lemma addBlock_with_chainParams now block st :
  minStake params = minStake (chainParams st) ->
  addBlock now block (with_chainParams params st)
  = result_with_chainParams params (addBlock now block st).
Proof.
  intros Hm. unfold addBlock.
  rewrite isValidBlock_with_chainParams by exact Hm.
  destruct (isValidBlock st block) as [[|]|]; cbn [mbind negb]; try reflexivity.
  unfold processBlockTransactions. cbv zeta.
  change (with_pendingTransactions ?p
            (with_chain ?c (with_chainParams params st)))
    with (with_chainParams params (with_pendingTransactions p (with_chain c st))).
  cbn [pendingTransactions with_chainParams].
  rewrite processTransactions_with_chainParams by exact Hm.
  destruct (processTransactions _ _ _) as [st2|]; cbn; [|reflexivity].
  destruct (ohas _ _); [|reflexivity].
  now rewrite update_validator_with_chainParams.
Qed.

End ChainParamsFacts.

(** X28: of the chain parameters the ledger reads [genesisTimestamp], for
    the genesis block, [minStake], and [blockReward], for the reward that
    [createBlock] pools; nothing else.  Ledgers of parameters with the
    same [genesisTimestamp] start with the same chain, whatever their
    network ids; and with another network id, block time, maximal supply,
    initial supply or adjustment interval, [addBlock], [addTransaction] and
    [registerValidator] return the same and leave the same ledger: no
    block and no transaction is refused for the supply it leads to, or
    for the network it was made for. *)
Theorem ledger_ignores_network_and_supply (params params' : ChainParams)
  (st : Blockchain) :
  (genesisTimestamp params' = genesisTimestamp params ->
   chain (new_Blockchain params') = chain (new_Blockchain params))
  /\ (minStake params' = minStake (chainParams st) ->
      (forall now block,
          addBlock now block (with_chainParams params' st)
          = result_with_chainParams params' (addBlock now block st))
      /\ (forall tx,
             addTransaction (with_chainParams params' st) tx
             = (fst (addTransaction st tx),
                with_chainParams params' (snd (addTransaction st tx))))
      /\ (forall now address stake,
             registerValidator now address stake (with_chainParams params' st)
             = result_with_chainParams params'
                 (registerValidator now address stake st))).
Proof.
  split.
  - intros Hg. unfold new_Blockchain, initializeGenesisBlock. cbn. now rewrite Hg.
  - intros Hm. split_and!.
    + intros now block. now apply addBlock_with_chainParams.
    + intros tx. unfold addTransaction.
      rewrite isValidTransaction_with_chainParams by exact Hm.
      now destruct (isValidTransaction st tx).
    + intros now address stake. now apply registerValidator_with_chainParams.
Qed.

Lemma ledger_ignores_network_and_supply_witness :
  chain (new_Blockchain Testnet.params) = chain (new_Blockchain Scenario.params)
  /\ (forall now block,
         addBlock now block (with_chainParams Testnet.params Scenario.s3)
         = result_with_chainParams Testnet.params (addBlock now block Scenario.s3))
  /\ (forall tx,
         addTransaction (with_chainParams Testnet.params Scenario.s3) tx
         = (fst (addTransaction Scenario.s3 tx),
            with_chainParams Testnet.params (snd (addTransaction Scenario.s3 tx))))
  /\ (forall now address stake,
         registerValidator now address stake
           (with_chainParams Testnet.params Scenario.s3)
         = result_with_chainParams Testnet.params
             (registerValidator now address stake Scenario.s3)).
Proof.
  assert (Hg : genesisTimestamp Testnet.params = genesisTimestamp Scenario.params)
    by reflexivity.
  assert (Hm : minStake Testnet.params = minStake (chainParams Scenario.s3))
    by by_evaluation.
  destruct (ledger_ignores_network_and_supply Scenario.params Testnet.params
              Scenario.s3) as [Hgenesis Hcalls].
  split; [exact (Hgenesis Hg) | exact (Hcalls Hm)].
Defined.
